(** * Document lifecycle and settlement engine of dms_back

    A shallow embedding of the route handlers of
    [backend/routes/apPayments.js], [backend/routes/receipts.js] and
    [backend/routes/procurement.js], and the properties the design
    document states about them.

    Conventions of the embedding.
    - A table is a finite map from its primary key to a record holding the
      columns the handlers read or write; a table without a key that
      matters is a list of rows in insertion order.
    - Monetary columns are DECIMAL(_,2): an amount is an integer number of
      hundredths, so the literal [0.01] of the source is [1].
    - An [await]ed statement that can throw is a computation in the
      [outcome] monad; a handler returns the HTTP status it answers with
      and the way it leaves the database. *)

From Stdlib Require Import ZArith QArith Qround Qabs Lia Lqa DecimalString DecimalPos DecimalZ Ascii String Sorted.
From stdpp Require Import base option list gmap strings.

Local Open Scope string_scope.
Local Open Scope list_scope.
Local Open Scope Z_scope.

(** ** Exceptions and early returns *)

(** A block of handler code either runs to its end, throws, or answers
    the request from inside ([return res.status(code)...]); for the last
    the model records whether [connection.query('ROLLBACK')] ran first. *)
Inductive outcome (A : Type) : Type :=
  | Ok (a : A)
  | Throw (msg : string)
  | Return (code : nat) (rolled_back : bool).
Arguments Ok {A} a.
Arguments Throw {A} msg.
Arguments Return {A} code rolled_back.

#[global] Instance outcome_ret : MRet outcome := fun A a => Ok a.
#[global] Instance outcome_bind : MBind outcome := fun A B k m =>
  match m with
  | Ok a => k a
  | Throw e => Throw e
  | Return c r => Return c r
  end.

Definition guard (b : bool) (msg : string) : outcome unit :=
  if b then Ok tt else Throw msg.

Definition require {A} (o : option A) (msg : string) : outcome A :=
  match o with
  | Some a => Ok a
  | None => Throw msg
  end.

(** [for (const x of xs) { st = body(st, x) }] *)
Fixpoint for_each {S X} (body : S -> X -> outcome S) (xs : list X) (st : S) : outcome S :=
  match xs with
  | [] => Ok st
  | x :: xs' => st' ← body st x; for_each body xs' st'
  end.

(** How a handler leaves the database: its writes were committed; or
    nothing was written or everything was rolled back; or (on a path that
    returns with neither COMMIT nor ROLLBACK on the connection) the
    transaction was left open with its writes pending. *)
Inductive tx_end (S : Type) : Type :=
  | Committed (after : S)
  | Unchanged (before : S)
  | LeftOpen (before pending : S).
Arguments Committed {S} after.
Arguments Unchanged {S} before.
Arguments LeftOpen {S} before pending.

(** ** JavaScript values of a request body *)

Inductive jsval : Type :=
  | JUndefined
  | JNull
  | JBool (b : bool)
  | JNum (n : Z)
  | JStr (s : string).

(** [v === 'lit'] *)
Definition strict_eq_str (v : jsval) (lit : string) : bool :=
  match v with
  | JStr s => String.eqb s lit
  | _ => false
  end.

Definition truthy (v : jsval) : bool :=
  match v with
  | JUndefined | JNull => false
  | JBool b => b
  | JNum n => negb (n =? 0)
  | JStr s => negb (String.eqb s "")
  end.

(** A numeric field of a request body: [None] when the body has
    [undefined] or [null] there, [Some z] when it holds the number [z]
    (bodies holding anything else in a numeric field are not modelled).
    [a || b] on such fields. *)
Definition num_or (a b : option Z) : option Z :=
  match a with
  | Some z => if z =? 0 then b else a
  | None => b
  end.

(** ** Settlement: payments and receipts applied to invoices *)

Module Settlement.

(** The SET clauses of
    [UPDATE .. SET amount_paid = amount_paid + ?, status = CASE WHEN
    (total_amount - (amount_paid + ?)) <= 0.01 ..] read [amount_paid]
    twice.  Standard SQL evaluates every clause against the old row;
    MySQL and MariaDB evaluate the clauses of a single-table UPDATE from
    left to right, so the CASE sees the [amount_paid] just assigned. *)
Inductive set_semantics : Type := OldRow | LeftToRight.

Record invoice : Type := Invoice {
  total_amount : Z;
  amount_paid : Z;
  inv_status : string
}.

Record payment : Type := Payment {
  payment_number : option string;
  payment_amount : Z;
  amount_applied : Z;
  pay_status : string
}.

Record application : Type := Application {
  application_id : Z;
  app_parent : Z;
  app_invoice : Z;
  applied_amount : Z;
  unapplied_amount : Z;
  app_status : string
}.

(** The tables of one ledger (AP: ap_invoices, ap_payments,
    ap_payment_applications; AR: ar_invoices, ar_receipts,
    ar_receipt_applications) and its two id sequences. *)
Record db : Type := Db {
  invoices : gmap Z invoice;
  payments : gmap Z payment;
  applications : list application;
  payment_seq : Z;
  application_seq : Z
}.

Definition set_invoices (f : gmap Z invoice -> gmap Z invoice) (d : db) : db :=
  Db (f (invoices d)) (payments d) (applications d) (payment_seq d) (application_seq d).
Definition set_payments (f : gmap Z payment -> gmap Z payment) (d : db) : db :=
  Db (invoices d) (f (payments d)) (applications d) (payment_seq d) (application_seq d).
Definition set_applications (f : list application -> list application) (d : db) : db :=
  Db (invoices d) (payments d) (f (applications d)) (payment_seq d) (application_seq d).

(** One application line of a request body. *)
Record app_req : Type := AppReq {
  rq_invoice_id : option Z;
  rq_applied_amount : option Z
}.

(** [amount_due] as every handler recomputes it. *)
Definition currentAmountDue (i : invoice) : Z := total_amount i - amount_paid i.

(** The invoice UPDATE issued by every committing path. *)
Definition update_invoice_sql (sem : set_semantics) (a : Z) (i : invoice) : invoice :=
  let paid' := amount_paid i + a in
  let seen := match sem with OldRow => amount_paid i | LeftToRight => paid' end in
  {| total_amount := total_amount i;
     amount_paid := paid';
     inv_status := if total_amount i - (seen + a) <=? 1 then "PAID" else "OPEN" |}.

(** receipts.js follows the UPDATE by a re-read and, when the status read
    back is not the [newStatus] it computed from the values read before the
    UPDATE, by [UPDATE ar_invoices SET status = ?]. *)
Definition newStatus (i : invoice) (a : Z) : string :=
  if total_amount i - (amount_paid i + a) <=? 1 then "PAID" else "OPEN".

Definition update_invoice_verified (sem : set_semantics) (a : Z) (i : invoice) : invoice :=
  let verified := update_invoice_sql sem a i in
  if String.eqb (inv_status verified) (newStatus i a) then verified
  else {| total_amount := total_amount verified;
          amount_paid := amount_paid verified;
          inv_status := newStatus i a |}.

(** Modelled from the spec: [APSequenceManager] (imported from
    [../utils/apSequenceManager.js]) is the SequenceAllocator of the
    design, "issues strictly increasing integer identifiers"; an
    allocation hands out the counter and advances it, inside the caller's
    transaction.  The handlers throw when the id is falsy. *)
Definition getNextPaymentId (d : db) : outcome (Z * db) :=
  let id := payment_seq d in
  _ ← guard (negb (id =? 0)) "Failed to generate payment ID";
  Ok (id, Db (invoices d) (payments d) (applications d) (id + 1) (application_seq d)).

Definition getNextPaymentApplicationId (d : db) : outcome (Z * db) :=
  let id := application_seq d in
  _ ← guard (negb (id =? 0)) "Failed to generate application ID";
  Ok (id, Db (invoices d) (payments d) (applications d) (payment_seq d) (id + 1)).

(** [SELECT .. WHERE payment_number = ? AND payment_id != ?]; [skip] is
    [None] on creation. *)
Definition number_taken (n : string) (skip : option Z) (m : gmap Z payment) : bool :=
  existsb (fun kv : Z * payment =>
             bool_decide (payment_number kv.2 = Some n) && negb (bool_decide (Some kv.1 = skip)))
          (map_to_list m).

(** A string field is used through its truthiness: [Some ""] and [None]
    are both falsy. *)
Definition given (o : option string) : option string :=
  match o with
  | Some s => if String.eqb s "" then None else Some s
  | None => None
  end.

Definition nonzero (o : option Z) : bool :=
  match o with
  | Some z => negb (z =? 0)
  | None => false
  end.

(** The request body of POST / and PUT /:id, restricted to the fields that
    decide control flow or reach the modelled columns.  The other fields
    (currency, method, bank account, reference, notes, dates of the
    applications) are passed through to columns that are not modelled;
    [rq_payment_date] is the truthiness of [payment_date], which is also
    the default of every application date. *)
Record payment_req : Type := PaymentReq {
  rq_supplier_id : option Z;
  rq_payment_number : option string;
  rq_payment_date : bool;
  rq_total_amount : option Z;
  rq_payment_amount : option Z;
  rq_status : jsval;
  rq_applications : option (list app_req)
}.

Definition paymentStatus (status : jsval) : string :=
  if strict_eq_str status "DRAFT" then "DRAFT" else "PAID".

Definition receiptStatus (status : jsval) : string :=
  if strict_eq_str status "PAID" then "PAID" else "DRAFT".

Section AP.

Variable sem : set_semantics.
(** [APSequenceManager.generatePaymentNumber], not among the sources. *)
Variable generatePaymentNumber : Z -> string.

(** The body of the application loop of POST / (apPayments.js 272-368)
    and of PUT /:id (495-571); the two differ only in the default of the
    application date.  [commit] is [paymentStatus === 'PAID'] in the
    first and constantly true in the second. *)
Definition process_application (commit : bool) (parent : Z)
    (st : db * Z) (app : app_req) : outcome (db * Z) :=
  let '(d, totalApplied) := st in
  invoiceId ← require (rq_invoice_id app) "Application missing invoice_id";
  appliedAmount ← require (rq_applied_amount app)
                    "Application missing applied_amount/application_amount";
  _ ← guard (0 <? invoiceId) "Application invalid invoice_id";
  _ ← guard (0 <? appliedAmount) "Application invalid applied_amount";
  inv ← require (invoices d !! invoiceId) "Invoice not found";
  let unappliedAmount := Z.max 0 (currentAmountDue inv - appliedAmount) in
  '(applicationId, d) ← getNextPaymentApplicationId d;
  let d := set_applications
             (fun rows => (rows ++ [Application applicationId parent invoiceId
                                      appliedAmount unappliedAmount "ACTIVE"])%list) d in
  let d := if commit
           then set_invoices (alter (update_invoice_sql sem appliedAmount) invoiceId) d
           else d in
  Ok (d, totalApplied + appliedAmount).

Definition set_amount_applied (id : Z) (v : Z) (d : db) : db :=
  set_payments
    (alter (fun p => Payment (payment_number p) (payment_amount p) v (pay_status p)) id) d.

(** The transaction of POST / (apPayments.js 207-378). *)
Definition create_payment_tx (rq : payment_req) (d : db) : outcome (Z * db) :=
  let paymentAmount := num_or (rq_payment_amount rq) (rq_total_amount rq) in
  '(paymentId, d) ← getNextPaymentId d;
  let generatedPaymentNumber :=
    match given (rq_payment_number rq) with
    | Some n => n
    | None => generatePaymentNumber paymentId
    end in
  _ ← guard (negb (String.eqb generatedPaymentNumber "")) "Failed to generate payment number";
  let safePaymentAmount := default 0 paymentAmount in
  _ ← guard (nonzero (rq_supplier_id rq)) "Supplier ID is required and must be a valid number";
  _ ← guard (rq_payment_date rq) "Payment date is required";
  _ ← guard (0 <? safePaymentAmount) "Payment amount is required and must be greater than 0";
  let status := paymentStatus (rq_status rq) in
  _ ← guard (bool_decide (payments d !! paymentId = None)) "ER_DUP_ENTRY";
  let d := set_payments
             (insert paymentId
                (Payment (Some generatedPaymentNumber) safePaymentAmount 0 status)) d in
  match rq_applications rq with
  | Some (app :: apps) =>
      '(d, totalApplied) ← for_each (process_application (String.eqb status "PAID") paymentId)
                             (app :: apps) (d, 0);
      Ok (paymentId, set_amount_applied paymentId totalApplied d)
  | _ => Ok (paymentId, d)
  end.

(** POST / (apPayments.js 166-404).  The handler answers a throw inside
    the transaction with ROLLBACK and status 500. *)
Definition create_payment (rq : payment_req) (d : db) : nat * tx_end db :=
  let paymentAmount := num_or (rq_payment_amount rq) (rq_total_amount rq) in
  if negb (nonzero (rq_supplier_id rq) && rq_payment_date rq && nonzero paymentAmount)
  then (400%nat, Unchanged d)
  else if match given (rq_payment_number rq) with
          | Some n => number_taken n None (payments d)
          | None => false
          end
  then (400%nat, Unchanged d)
  else match create_payment_tx rq d with
       | Ok (_, d') => (201%nat, Committed d')
       | _ => (500%nat, Unchanged d)
       end.

(** PUT /:id (apPayments.js 407-616).  Every bound parameter of the header
    UPDATE is taken to be supplied ([null] when empty): the driver throws
    on an [undefined] one. *)
Definition update_header (rq : payment_req) (to_paid : bool) (p : payment) : payment :=
  let paymentAmount := num_or (rq_payment_amount rq) (rq_total_amount rq) in
  {| payment_number :=
       match rq_payment_number rq with Some n => Some n | None => payment_number p end;
     payment_amount := default (payment_amount p) paymentAmount;
     amount_applied := amount_applied p;
     pay_status := if to_paid then "PAID" else pay_status p |}.

Definition promote_payment_tx (id : Z) (rq : payment_req) (apps : list app_req) (d : db)
    : outcome db :=
  let d := set_payments (alter (update_header rq true) id) d in
  let d := set_applications (filter (fun r => app_parent r ≠ id)) d in
  '(d, totalApplied) ← for_each (process_application true id) apps (d, 0);
  Ok (set_amount_applied id totalApplied d).

Definition update_payment (id : Z) (rq : payment_req) (d : db) : nat * tx_end db :=
  match payments d !! id with
  | None => (404%nat, Unchanged d)
  | Some existing =>
      let currentStatus := pay_status existing in
      if String.eqb currentStatus "PAID" then (400%nat, Unchanged d)
      else if match given (rq_payment_number rq) with
              | Some n => number_taken n (Some id) (payments d)
              | None => false
              end
      then (400%nat, Unchanged d)
      else
        let target_is_paid :=
          if truthy (rq_status rq) then strict_eq_str (rq_status rq) "PAID"
          else String.eqb currentStatus "PAID" in
        match rq_applications rq with
        | Some (app :: apps) =>
            if String.eqb currentStatus "DRAFT" && target_is_paid
            then match promote_payment_tx id rq (app :: apps) d with
                 | Ok d' => (200%nat, Committed d')
                 | _ => (500%nat, Unchanged d)
                 end
            else (200%nat, Committed (set_payments (alter (update_header rq false) id) d))
        | _ => (200%nat, Committed (set_payments (alter (update_header rq false) id) d))
        end
  end.

(** POST /:id/applications (apPayments.js 747-854). *)
Definition add_application (id : Z) (invoice_id applied_amount : option Z) (d : db)
    : nat * tx_end db :=
  match payments d !! id with
  | None => (404%nat, Unchanged d)
  | Some pay =>
      match invoice_id ≫= (fun i => (fun inv => (i, inv)) <$> invoices d !! i) with
      | None => (match invoice_id with Some _ => 404%nat | None => 500%nat end, Unchanged d)
      | Some (invoiceId, inv) =>
          match applied_amount with
          | None => (500%nat, Unchanged d)
          | Some a =>
              let remainingPaymentAmount := payment_amount pay - amount_applied pay in
              let remainingInvoiceAmount := total_amount inv - amount_paid inv in
              if remainingPaymentAmount <? a then (400%nat, Unchanged d)
              else if remainingInvoiceAmount <? a then (400%nat, Unchanged d)
              else
                let unappliedAmount := Z.max 0 (currentAmountDue inv - a) in
                match getNextPaymentApplicationId d with
                | Ok (applicationId, d) =>
                    let d := set_applications
                               (fun rows => (rows ++ [Application applicationId id invoiceId
                                                        a unappliedAmount "ACTIVE"])%list) d in
                    let d := set_amount_applied id (amount_applied pay + a) d in
                    let d := set_invoices (alter (update_invoice_sql sem a) invoiceId) d in
                    (201%nat, Committed d)
                | _ => (500%nat, Unchanged d)
                end
          end
      end
  end.

End AP.

(** *** Accounts receivable: receipts.js *)

Record ar_app_req : Type := ArAppReq {
  ra_invoice_id : option Z;
  ra_application_amount : option Z;
  ra_applied_amount : option Z
}.

Record receipt_req : Type := ReceiptReq {
  rr_receipt_number : option string;
  rr_receipt_date : bool;
  rr_customer_id : option Z;
  rr_customer_name : option string;
  rr_amount_received : option Z;
  rr_total_amount : option Z;
  rr_status : jsval;
  rr_applications : option (list ar_app_req)
}.

Section AR.

Variable sem : set_semantics.
(** ar_customers (id to name) is only read. *)
Variable customers : gmap Z string.
(** The [increment_by] column of the two ar_sequences rows used here. *)
Variable increment_by : Z.

(** [getNextSequenceValue] of receipts.js (8-18) runs on the pool, outside
    the handler's transaction: UPDATE the counter, then SELECT it. *)
Definition getNextReceiptId (d : db) : Z * db :=
  let v := payment_seq d + increment_by in
  (v, Db (invoices d) (payments d) (applications d) v (application_seq d)).

Definition getNextReceiptApplicationId (d : db) : Z * db :=
  let v := application_seq d + increment_by in
  (v, Db (invoices d) (payments d) (applications d) (payment_seq d) v).

(** ROLLBACK on the connection undoes the tables, not the counters. *)
Definition keep_sequences (before now : db) : db :=
  Db (invoices before) (payments before) (applications before)
     (payment_seq now) (application_seq now).

(** The body of the application loop of POST / (receipts.js 174-328); it
    returns the database with its pending writes on every exit. *)
Definition process_receipt_application (commit : bool) (receiptId : Z)
    (d : db) (app : ar_app_req) : db * outcome Z :=
  let invoiceId := ra_invoice_id app in
  let appliedAmount := num_or (ra_application_amount app) (ra_applied_amount app) in
  match invoiceId, appliedAmount with
  | Some invoiceId, Some validAppliedAmount =>
      if invoiceId =? 0 then (d, Return 400 false) else
      match invoices d !! invoiceId with
      | None => (d, Return 400 true)
      | Some inv =>
          if validAppliedAmount <=? 0 then (d, Return 400 true)
          else if currentAmountDue inv <? validAppliedAmount then (d, Return 400 true)
          else
            let unappliedAmount := Z.max 0 (currentAmountDue inv - validAppliedAmount) in
            let '(applicationId, d) := getNextReceiptApplicationId d in
            let d := set_applications
                       (fun rows => (rows ++ [Application applicationId receiptId invoiceId
                                                validAppliedAmount unappliedAmount "ACTIVE"])%list) d in
            let d := if commit
                     then set_invoices
                            (alter (update_invoice_verified sem validAppliedAmount) invoiceId) d
                     else d in
            (d, Ok validAppliedAmount)
      end
  | _, _ => (d, Return 400 false)
  end.

Fixpoint receipt_applications (commit : bool) (receiptId : Z) (apps : list ar_app_req)
    (d : db) (totalApplied : Z) : db * outcome Z :=
  match apps with
  | [] => (d, Ok totalApplied)
  | app :: rest =>
      match process_receipt_application commit receiptId d app with
      | (d, Ok a) => receipt_applications commit receiptId rest d (totalApplied + a)
      | (d, Throw e) => (d, Throw e)
      | (d, Return c r) => (d, Return c r)
      end
  end.

Definition resolve_customer (rq : receipt_req) : option Z :=
  if nonzero (rr_customer_id rq) then
    rr_customer_id rq ≫= (fun c => match customers !! c with Some _ => Some c | None => None end)
  else
    given (rr_customer_name rq) ≫= (fun n =>
      fst <$> head (filter (fun kv : Z * string => kv.2 = n) (map_to_list customers))).

(** POST / (receipts.js 71-353). *)
Definition create_receipt (rq : receipt_req) (d : db) : nat * tx_end db :=
  let receiptAmount := num_or (rr_total_amount rq) (rr_amount_received rq) in
  if negb (rr_receipt_date rq && nonzero receiptAmount) then (400%nat, Unchanged d)
  else if match given (rr_receipt_number rq) with
          | Some n => number_taken n None (payments d)
          | None => false
          end
  then (400%nat, Unchanged d)
  else match resolve_customer rq with
  | None => (400%nat, Unchanged d)
  | Some customerId =>
      let status := receiptStatus (rr_status rq) in
      let '(receiptId, d1) := getNextReceiptId d in
      match payments d1 !! receiptId with
      | Some _ => (500%nat, Unchanged (keep_sequences d d1))
      | None =>
          let d2 := set_payments
                      (insert receiptId (Payment (rr_receipt_number rq)
                                           (default 0 receiptAmount) 0 status)) d1 in
          match rr_applications rq with
          | Some (app :: apps) =>
              match receipt_applications (String.eqb status "PAID") receiptId (app :: apps) d2 0 with
              | (d3, Ok totalApplied) =>
                  (201%nat, Committed (set_amount_applied receiptId totalApplied d3))
              | (d3, Throw _) => (500%nat, Unchanged (keep_sequences d d3))
              | (d3, Return c true) => (c, Unchanged (keep_sequences d d3))
              | (d3, Return c false) => (c, LeftOpen (keep_sequences d d3) d3)
              end
          | _ => (201%nat, Committed d2)
          end
      end
  end.

End AR.

(** *** Statement vocabulary

    The definitions below are not handler code; the properties of the
    handlers are stated with them. *)

(** The state an accepted application line leaves behind. *)
Definition after_line (sem : set_semantics) (commit : bool) (parent invoiceId a : Z)
    (inv : invoice) (d : db) : db :=
  Db (if commit then alter (update_invoice_sql sem a) invoiceId (invoices d) else invoices d)
     (payments d)
     (applications d ++ [Application (application_seq d) parent invoiceId a
                           (Z.max 0 (currentAmountDue inv - a)) "ACTIVE"])
     (payment_seq d) (application_seq d + 1).

(** The state an accepted line of a receipt leaves behind. *)
Definition after_receipt_line (sem : set_semantics) (increment_by : Z) (commit : bool)
    (receiptId invoiceId a : Z) (inv : invoice) (d : db) : db :=
  Db (if commit then alter (update_invoice_verified sem a) invoiceId (invoices d)
      else invoices d)
     (payments d)
     (applications d ++ [Application (application_seq d + increment_by) receiptId invoiceId a
                           (Z.max 0 (currentAmountDue inv - a)) "ACTIVE"])
     (payment_seq d) (application_seq d + increment_by).

(** The sum of the amounts a request applies to invoice [i]. *)
Definition applied_to (i : Z) (apps : list app_req) : Z :=
  fold_right (fun app acc =>
                if bool_decide (rq_invoice_id app = Some i)
                then default 0 (rq_applied_amount app) + acc else acc) 0 apps.

(** The database a handler leaves behind, pending writes included. *)
Definition final {S} (e : tx_end S) : S :=
  match e with
  | Committed after => after
  | Unchanged before => before
  | LeftOpen _ pending => pending
  end.

(** The scenario of the design: an OPEN invoice of 100.00 with nothing
    paid, a DRAFT payment of 50.00 applying 40.00 to it, and the request
    that promotes that payment with the same application. *)
Definition open_invoice_ledger : db := Db {[ 1 := Invoice 10000 0 "OPEN" ]} ∅ [] 7 50.
Definition sample_payment_number (_ : Z) : string := "PAY-7".
Definition draft_of_40 : payment_req :=
  PaymentReq (Some 3) None true None (Some 5000) (JStr "DRAFT")
             (Some [AppReq (Some 1) (Some 4000)]).
Definition promotion_of_40 : payment_req :=
  PaymentReq (Some 3) None true None (Some 5000) (JStr "PAID")
             (Some [AppReq (Some 1) (Some 4000)]).
Definition ledger_after_draft : db := final (create_payment OldRow sample_payment_number draft_of_40 open_invoice_ledger).2.
Definition promotion_of_40d : db := final (update_payment OldRow 7 promotion_of_40 ledger_after_draft).2.

(** An OPEN invoice of 100.00 with nothing paid and a PAID payment of
    50.00 with nothing applied. *)
Definition paid_payment_ledger : db :=
  Db {[ 1 := Invoice 10000 0 "OPEN" ]} {[ 7 := Payment (Some "PAY-7") 5000 0 "PAID" ]} [] 8 50.

(** An invoice of 100.00 that was cancelled, in an otherwise empty ledger
    whose counters stand at 7 and 50. *)
Definition cancelled_invoice : gmap Z invoice := {[ 1 := Invoice 10000 0 "CANCELLED" ]}.
Definition cancelled_invoice_ledger : db := Db cancelled_invoice ∅ [] 7 50.

End Settlement.

(** ** Purchase-order status rollup: procurement.js *)

Module Rollup.

(** Quantities are DECIMAL columns: a quantity is an integer count of the
    column's smallest unit.  Only the columns the rollup reads are kept. *)
Record po_line : Type := PoLine {
  line_id : Z;
  header_id : Z;
  quantity : Z
}.

Record po_receipt_line : Type := ReceiptLine {
  prl_line_id : option Z;
  quantity_received : option Z;
  quantity_accepted : option Z
}.

Record po_db : Type := PoDb {
  po_headers : gmap Z string;
  po_lines : list po_line;
  po_receipt_lines : list po_receipt_line
}.

(** One row of [po_lines pl LEFT JOIN po_receipt_lines prl ON prl.line_id =
    pl.line_id]: the order line's quantity with a matching receipt line's
    accepted and received quantities, or with NULLs when no receipt line
    matches. *)
Definition joined_row : Type := Z * option Z * option Z.

Definition join_line (receipts : list po_receipt_line) (pl : po_line) : list joined_row :=
  match filter (fun r => prl_line_id r = Some (line_id pl)) receipts with
  | [] => [(quantity pl, None, None)]
  | matches => map (fun r => (quantity pl, quantity_accepted r, quantity_received r)) matches
  end.

Definition joined_rows (d : po_db) (headerId : Z) : list joined_row :=
  flat_map (join_line (po_receipt_lines d))
           (filter (fun pl => header_id pl = headerId) (po_lines d)).

Definition sum (l : list Z) : Z := fold_right Z.add 0 l.

(** [SUM(pl.quantity)], [SUM(COALESCE(prl.quantity_accepted, 0))] and
    [SUM(COALESCE(prl.quantity_received, 0))], each through
    [Number(_) || 0]. *)
Definition total_quantity (rows : list joined_row) : Z := sum (map (fun r => r.1.1) rows).
Definition total_accepted (rows : list joined_row) : Z := sum (map (fun r => default 0 r.1.2) rows).
Definition total_received (rows : list joined_row) : Z := sum (map (fun r => default 0 r.2) rows).

Definition rollup_status (totalQty totalAccepted totalReceived : Z) : option string :=
  if totalQty <=? 0 then None
  else if totalQty <=? totalAccepted then Some "CLOSED"
  else if 0 <? totalReceived then Some "RECEIVED"
  else None.

(** [UPDATE po_headers SET status = ? WHERE header_id = ? AND status <>
    'CANCELLED'] *)
Definition set_status_unless_cancelled (newStatus : string) (old : string) : string :=
  if String.eqb old "CANCELLED" then old else newStatus.

(** procurement.js 1373-1428. *)
Definition updatePOStatusFromReceipts (d : po_db) (headerId : Z) : po_db :=
  let rows := joined_rows d headerId in
  match rollup_status (total_quantity rows) (total_accepted rows) (total_received rows) with
  | None => d
  | Some newStatus =>
      PoDb (alter (set_status_unless_cancelled newStatus) headerId (po_headers d))
           (po_lines d) (po_receipt_lines d)
  end.

(** One line of the body of POST /receipts, as it reaches po_receipt_lines
    (procurement.js 2291-2313): [line.line_id || null],
    [line.quantity_received || 0], [line.quantity_accepted || 0]. *)
Record grn_line : Type := GrnLine {
  gl_line_id : option Z;
  gl_quantity_received : option Z;
  gl_quantity_accepted : option Z
}.

Definition or_null (o : option Z) : option Z :=
  match o with
  | Some z => if z =? 0 then None else Some z
  | None => None
  end.

Definition or_zero (o : option Z) : option Z :=
  Some (default 0 o).

Definition receipt_line_of (l : grn_line) : po_receipt_line :=
  ReceiptLine (or_null (gl_line_id l)) (or_zero (gl_quantity_received l))
              (or_zero (gl_quantity_accepted l)).

(** The part of POST /receipts (procurement.js 2241-2389) that reaches the
    tables of the rollup: the batch insert of the receipt's lines, then
    [updatePOStatusFromReceipts]. *)
Definition post_receipt (headerId : Z) (lines : list grn_line) (d : po_db) : po_db :=
  let d := PoDb (po_headers d) (po_lines d)
                (po_receipt_lines d ++ map receipt_line_of lines)%list in
  updatePOStatusFromReceipts d headerId.

(** *** Statement vocabulary *)

(** The scenario of the design: an order of 10 units on one line, a first
    receipt accepting 7 of them and a second accepting the remaining 3. *)
Definition order_of_10 : po_db := PoDb {[ 1 := "RELEASED" ]} [PoLine 11 1 10] [].
Definition after_first_receipt : po_db :=
  post_receipt 1 [GrnLine (Some 11) (Some 7) (Some 7)] order_of_10.
Definition after_second_receipt : po_db :=
  post_receipt 1 [GrnLine (Some 11) (Some 3) (Some 3)] after_first_receipt.

(** The ordered quantity of an order, each line counted once. *)
Definition ordered_quantity (d : po_db) (headerId : Z) : Z :=
  sum (map quantity (filter (fun pl => header_id pl = headerId) (po_lines d))).

End Rollup.

(** ** Inventory reconciliation: procurement.js *)

Module Inventory.

Local Open Scope Q_scope.

(** The active inventory_item_details row of an item.  JavaScript numbers
    are taken as exact rationals. *)
Record detail : Type := Detail {
  box_quantity : Q;
  packet_quantity : Q
}.

(** [Math.round]: the nearest integer, a tie going up. *)
Definition Math_round (x : Q) : Z := Qfloor (x + (1 # 2)).

(** [Math.round(x * 100) / 100] *)
Definition round2 (x : Q) : Q := inject_Z (Math_round (x * 100)) / 100.

Definition Math_max (x y : Q) : Q := if Qle_bool x y then y else x.

(** [Math.trunc] and [a % b] on numbers: the quotient is truncated toward
    zero, so the remainder has the sign of [a]. *)
Definition Math_trunc (x : Q) : Z := if Qle_bool 0 x then Qfloor x else Qceiling x.

Definition js_rem (a b : Q) : Q := a - b * inject_Z (Math_trunc (a / b)).

(** The body of the loop of [updateInventoryFromGRN] for one receipt line
    (procurement.js 1273-1327) with the two batch UPDATEs applied to the
    item's row (1329-1366): [acceptedQty] units at [poPacketQty] packets
    per box on the order line. *)
Definition updateInventoryFromGRN (isReversal : bool) (acceptedQty poPacketQty : Q)
    (d : detail) : detail :=
  if Qle_bool acceptedQty 0 then d
  else
    let currentBoxQty := box_quantity d in
    let packetsPerBox :=
      if Qle_bool (packet_quantity d) 0
      then (if Qle_bool poPacketQty 0 then 1 else poPacketQty)
      else packet_quantity d in
    let totalUnits := currentBoxQty * packetsPerBox in
    let newTotalUnits :=
      if isReversal then Math_max 0 (totalUnits - acceptedQty)
      else totalUnits + acceptedQty in
    let newBoxQty := newTotalUnits / packetsPerBox in
    let newBoxQtyRounded := round2 newBoxQty in
    {| box_quantity := newBoxQtyRounded; packet_quantity := packetsPerBox |}.

(** The reversal of one old line in PUT /receipts/:id (procurement.js
    2461-2502). *)
Definition reverse_old_line (oldAcceptedQty : Q) (d : detail) : detail :=
  if Qle_bool oldAcceptedQty 0 then d
  else
    let currentBoxQty := box_quantity d in
    let currentPacketQty := packet_quantity d in
    let totalUnits := currentBoxQty * currentPacketQty in
    if Qle_bool currentPacketQty 0 then d
    else
      let newTotalUnits := Math_max 0 (totalUnits - oldAcceptedQty) in
      let newBoxQty := inject_Z (Qfloor (newTotalUnits / currentPacketQty)) in
      let newPacketQty := js_rem newTotalUnits currentPacketQty in
      {| box_quantity := newBoxQty; packet_quantity := newPacketQty |}.

End Inventory.

(** ** Sequence allocation: procurement.js *)

Module Sequence.

Record sequences : Type := Sequences {
  ap_sequences : gmap string Z;
  ar_sequences : gmap string Z
}.

Definition startsWith (s p : string) : bool := String.prefix p s.

(** [getNextSequenceValue] (procurement.js 8-30) as one caller runs it. *)
Definition getNextSequenceValue (tables : sequences) (sequenceName : string)
    : outcome (Z * sequences) :=
  let ap := startsWith sequenceName "AP_" in
  let table := if ap then ap_sequences tables else ar_sequences tables in
  match table !! sequenceName with
  | None => Throw "Sequence not found"
  | Some currentValue =>
      let table' := <[sequenceName := currentValue + 1]> table in
      Ok (currentValue,
          if ap then Sequences table' (ar_sequences tables)
          else Sequences (ap_sequences tables) table')
  end.

(** *** Concurrent callers on one counter row

    Each request runs on its own connection, inside a transaction.  The
    statements a request issues against one counter row are

    - [SELECT current_value .. FOR UPDATE]: waits for the row lock, takes
      it and reads the counter;
    - [SELECT current_value ..]: reads the counter without waiting;
    - [UPDATE .. SET current_value = current_value + 1]: waits for the row
      lock, takes it and advances the counter; the allocation then hands
      out the value read by the preceding SELECT;
    - COMMIT (or ROLLBACK, or the end of the connection): releases the
      lock.

    A step of the system is one statement of one session; a session
    that waits for the lock has no step. *)
Inductive stmt : Type :=
  | SelectForUpdate
  | SelectPlain
  | UpdateIncr
  | Commit.

Record session : Type := Session {
  code : list stmt;
  currentValue : option Z
}.

Record world : Type := World {
  current_value : Z;
  lock : option nat;
  sessions : list session;
  issued : list Z
}.

Definition lock_free_for (t : nat) (w : world) : bool :=
  match lock w with
  | None => true
  | Some t' => bool_decide (t' = t)
  end.

(** Session [t] runs its next statement; [None] when it has none or must
    wait.  [issued] lists the values handed out, the latest first. *)
Definition step (t : nat) (w : world) : option world :=
  match sessions w !! t with
  | Some (Session (SelectForUpdate :: rest) _) =>
      if lock_free_for t w
      then Some (World (current_value w) (Some t)
                       (<[t := Session rest (Some (current_value w))]> (sessions w))
                       (issued w))
      else None
  | Some (Session (SelectPlain :: rest) _) =>
      Some (World (current_value w) (lock w)
                  (<[t := Session rest (Some (current_value w))]> (sessions w))
                  (issued w))
  | Some (Session (UpdateIncr :: rest) r) =>
      if lock_free_for t w
      then Some (World (current_value w + 1) (Some t)
                       (<[t := Session rest r]> (sessions w))
                       (match r with Some v => v :: issued w | None => issued w end))
      else None
  | Some (Session (Commit :: rest) r) =>
      Some (World (current_value w)
                  (if lock_free_for t w then None else lock w)
                  (<[t := Session rest r]> (sessions w))
                  (issued w))
  | _ => None
  end.

(** A schedule names the session that moves at each step. *)
Fixpoint run (schedule : list nat) (w : world) : option world :=
  match schedule with
  | [] => Some w
  | t :: rest => step t w ≫= run rest
  end.

Inductive reachable (w0 : world) : world -> Prop :=
  | reach_init : reachable w0 w0
  | reach_step w t w' : reachable w0 w -> step t w = Some w' -> reachable w0 w'.

(** The statements of [k] calls of [getNextSequenceValue] in one
    transaction, and of the header-id allocation of POST /purchase-orders
    (procurement.js 1573-1589), each followed by the end of the
    transaction. *)
Fixpoint locked_allocations (k : nat) : list stmt :=
  match k with
  | O => [Commit]
  | S k' => SelectForUpdate :: UpdateIncr :: locked_allocations k'
  end.

Definition po_header_allocation : list stmt := [SelectPlain; UpdateIncr; Commit].

Definition start (v : Z) (programs : list (list stmt)) : world :=
  World v None (map (fun p => Session p None) programs) [].

(** *** Statement vocabulary *)

(** Values were handed out in strictly increasing order: [issued] lists
    them latest first. *)
Definition strictly_increasing (issued : list Z) : Prop :=
  StronglySorted (fun later earlier => earlier < later) issued.

(** What holds of every world that sessions running [locked_allocations]
    can reach: every value handed out is below the counter, the values
    were handed out in increasing order, and a session between its SELECT
    .. FOR UPDATE and its UPDATE holds the lock and has read the counter
    as it stands. *)
Definition locked_invariant (w : world) : Prop :=
  Forall (fun v => v < current_value w) (issued w) /\
  strictly_increasing (issued w) /\
  forall t s, sessions w !! t = Some s ->
    (exists k, code s = locked_allocations k) \/
    code s = [] \/
    (exists k, code s = UpdateIncr :: locked_allocations k /\
               lock w = Some t /\ currentValue s = Some (current_value w)).

(** Two requests POST /purchase-orders arriving together, the counter
    PO_HEADER_ID_SEQ standing at 100; both read it before either writes. *)
Definition two_po_requests : world := start 100 [po_header_allocation; po_header_allocation].
Definition reads_before_writes : list nat := [0; 1; 0; 0; 1; 1]%nat.

End Sequence.

(** ** Document numbers: procurement.js *)

Module DocNumber.

Record doc_config : Type := DocConfig {
  document_type : string;
  prefix : string;
  suffix : string;
  next_number : Z;
  number_format : string;
  is_active : bool
}.

(** [n.toString()] for an integer. *)
Definition toString (n : Z) : string := NilZero.string_of_int (Z.to_int n).

Fixpoint repeat_char (c : ascii) (n : nat) : string :=
  match n with
  | O => ""
  | S n' => String c (repeat_char c n')
  end.

(** [s.padStart(targetLength, '0')] *)
Definition padStart (s : string) (targetLength : nat) (c : ascii) : string :=
  (repeat_char c (targetLength - String.length s) ++ s)%string.

(** Strings hold code units below 256; among those, [trim] removes TAB, LF,
    VT, FF, CR, space and NBSP. *)
Definition is_whitespace (c : ascii) : bool :=
  let n := nat_of_ascii c in
  ((9 <=? n) && (n <=? 13) || (n =? 32) || (n =? 160))%nat.

Fixpoint trimStart (s : string) : string :=
  match s with
  | String c rest => if is_whitespace c then trimStart rest else s
  | EmptyString => EmptyString
  end.

Fixpoint trimEnd (s : string) : string :=
  match s with
  | String c rest =>
      match trimEnd rest with
      | EmptyString => if is_whitespace c then EmptyString else String c EmptyString
      | rest' => String c rest'
      end
  | EmptyString => EmptyString
  end.

Definition trim (s : string) : string := trimEnd (trimStart s).

Definition format_number (config : doc_config) : string :=
  let formattedNumber :=
    padStart (toString (next_number config)) (String.length (number_format config)) "0" in
  (prefix config ++ formattedNumber ++ suffix config)%string.

Definition active_for (documentType : string) (c : doc_config) : bool :=
  String.eqb (document_type c) documentType && is_active c.

(** [UPDATE po_document_numbers SET next_number = next_number + 1 WHERE
    document_type = ?] *)
Definition advance (documentType : string) (configs : list doc_config) : list doc_config :=
  map (fun c => if String.eqb (document_type c) documentType
                then DocConfig (document_type c) (prefix c) (suffix c) (next_number c + 1)
                               (number_format c) (is_active c)
                else c) configs.

(** [generateDocumentNumber] (procurement.js 33-54); [docResult[0]] is the
    first active row of the type. *)
Definition generateDocumentNumber (configs : list doc_config) (documentType : string)
    : outcome (string * list doc_config) :=
  match filter (fun c => active_for documentType c = true) configs with
  | [] => Throw "Document number configuration not found"
  | config :: _ => Ok (format_number config, advance documentType configs)
  end.

(** The tables POST /purchase-orders reaches in choosing its number:
    po_headers (header id to po_number), the PO_HEADER_ID_SEQ counter and
    po_document_numbers. *)
Record po_tables : Type := PoTables {
  po_numbers : gmap Z string;
  PO_HEADER_ID_SEQ : option Z;
  po_document_numbers : list doc_config
}.

(** The transaction of POST /purchase-orders (procurement.js 1532-1776)
    restricted to those tables: [po_number] is the body's field ([None] for
    [undefined] or [null]), [lines] the number of line items.  The inserts
    of the lines reach other tables and are taken to succeed. *)
Definition create_purchase_order_tx (po_number : option string) (lines : nat) (t : po_tables)
    : outcome (Z * string * po_tables) :=
  headerId ← require (PO_HEADER_ID_SEQ t) "Sequence PO_HEADER_ID_SEQ not found";
  let seq' := Some (headerId + 1) in
  let supplied :=
    match po_number with
    | Some n => negb (String.eqb n "") && negb (String.eqb (trim n) "")
    | None => false
    end in
  poNumber ←
    (if supplied then Ok (trim (default "" po_number))
     else match filter (fun c => active_for "PURCHASE_ORDER" c = true) (po_document_numbers t) with
          | [] => Throw "Document number configuration not found for PURCHASE_ORDER"
          | config :: _ => Ok (format_number config)
          end);
  _ ← guard (negb (lines =? 0)%nat) "At least one line item is required";
  _ ← guard (bool_decide (po_numbers t !! headerId = None)) "ER_DUP_ENTRY";
  let headers' := <[headerId := poNumber]> (po_numbers t) in
  let configs' :=
    if supplied then po_document_numbers t
    else advance "PURCHASE_ORDER" (po_document_numbers t) in
  Ok (headerId, poNumber, PoTables headers' seq' configs').

Definition create_purchase_order (po_number : option string) (lines : nat) (t : po_tables)
    : nat * tx_end po_tables :=
  match create_purchase_order_tx po_number lines t with
  | Ok (_, _, t') => (201%nat, Committed t')
  | Throw e => ((if String.eqb e "ER_DUP_ENTRY" then 400 else 500)%nat, Unchanged t)
  | Return c _ => (c, Unchanged t)
  end.

(** *** Statement vocabulary *)

(** The first active configuration of a document type. *)
Definition active_config (configs : list doc_config) (documentType : string)
    : option doc_config :=
  head (filter (fun c => active_for documentType c = true) configs).

(** The counter PO_HEADER_ID_SEQ at 100, no order yet, and one active
    configuration for purchase orders: prefix PO-, six digits, next 42. *)
Definition sample_po_tables : po_tables :=
  PoTables ∅ (Some 100) [DocConfig "PURCHASE_ORDER" "PO-" "" 42 "000000" true].

End DocNumber.

(** ** Status-only update of a purchase order: procurement.js *)

Module PoStatus.

Record po_header : Type := PoHeader {
  status : string;
  approval_status : string;
  approved_by : option Z;
  approved_at : option Z
}.

(** The identifiers procurement.js binds at module level: its three import
    declarations (lines 1-3) and its top-level constants. *)
Definition module_scope : list string :=
  ["express"; "pool"; "authenticateToken"; "requireRole"; "router";
   "getNextSequenceValue"; "generateDocumentNumber"; "logAuditTrail";
   "requireAdmin"; "updateInventoryFromGRN"; "updatePOStatusFromReceipts"].

(** Evaluating an identifier that no scope binds throws a ReferenceError. *)
Definition resolve (scope : list string) (x : string) : outcome unit :=
  guard (existsb (String.eqb x) scope) "ReferenceError".

(** [v !== undefined && v !== null && v !== ''] *)
Definition provided (v : jsval) : bool :=
  match v with
  | JUndefined | JNull => false
  | JStr s => negb (String.eqb s "")
  | _ => true
  end.

(** [String(v)] *)
Definition String_of (v : jsval) : string :=
  match v with
  | JUndefined => "undefined"
  | JNull => "null"
  | JBool true => "true"
  | JBool false => "false"
  | JNum n => DocNumber.toString n
  | JStr s => s
  end.

(** [toUpperCase] on the letters a to z; other code units are left as they
    are (none of those maps to an ASCII letter). *)
Definition upper_char (c : ascii) : ascii :=
  let n := nat_of_ascii c in
  if ((97 <=? n) && (n <=? 122))%nat then ascii_of_nat (n - 32) else c.

Fixpoint toUpperCase (s : string) : string :=
  match s with
  | String c rest => String (upper_char c) (toUpperCase rest)
  | EmptyString => EmptyString
  end.

Definition normalize (v : jsval) : string := DocNumber.trim (toUpperCase (String_of v)).

Definition validStatuses : list string :=
  ["DRAFT"; "APPROVED"; "RELEASED"; "RECEIVED"; "CLOSED"; "CANCELLED"].
Definition validApprovalStatuses : list string :=
  ["PENDING"; "APPROVED"; "REJECTED"].

Definition includes (l : list string) (s : string) : bool := existsb (String.eqb s) l.

(** The UPDATE the handler assembles from [updateFields]; [rq_status] and
    [rq_approval_status] are the body's [status] and [approval_status]. *)
Definition apply_fields (rq_status rq_approval_status : jsval) (user : option Z) (now : Z)
    (h : po_header) : po_header :=
  let h1 :=
    if provided rq_status
    then PoHeader (normalize rq_status) (approval_status h) (approved_by h) (approved_at h)
    else h in
  if provided rq_approval_status
  then
    let normalizedApproval := normalize rq_approval_status in
    if String.eqb normalizedApproval "APPROVED"
    then PoHeader (status h1) normalizedApproval user (Some now)
    else PoHeader (status h1) normalizedApproval None None
  else h1.

(** PATCH /purchase-orders/:id/status (procurement.js 2017-2101), run in a
    module whose bindings are [scope]; [user] is [req.user?.id || null] and
    [now] the value of NOW(). *)
Definition patch_status (scope : list string) (user : option Z) (now : Z) (id : Z)
    (rq_status rq_approval_status : jsval) (headers : gmap Z po_header)
    : nat * gmap Z po_header :=
  if negb (provided rq_status) && negb (provided rq_approval_status)
  then (400%nat, headers)
  else
    match (_ ← resolve scope "mysql"; resolve scope "dbConfig") with
    | Ok _ =>
        match headers !! id with
        | None => (404%nat, headers)
        | Some existing =>
            if provided rq_status && negb (includes validStatuses (normalize rq_status))
            then (400%nat, headers)
            else if provided rq_approval_status
                    && negb (includes validApprovalStatuses (normalize rq_approval_status))
            then (400%nat, headers)
            else (200%nat, alter (apply_fields rq_status rq_approval_status user now) id headers)
        end
    | _ => (500%nat, headers)
    end.

End PoStatus.

(** ** Connections taken from the pool: procurement.js *)

Module Pool.

(** The connection a handler took with [pool.getConnection()]: how many
    times it was given back, and whether a transaction is open on it. *)
Record connection : Type := Connection {
  releases : nat;
  in_transaction : bool
}.

(** A handler runs against the faults that will occur: one boolean for each
    statement it awaits on the connection, in order, [true] where the
    statement throws (an exhausted list means no further fault). *)
Record run_state : Type := RunState {
  faults : list bool;
  conn : connection
}.

Definition M (A : Type) : Type := run_state -> run_state * outcome A.

Definition ret {A} (a : A) : M A := fun s => (s, Ok a).

Definition bind {A B} (m : M A) (k : A -> M B) : M B := fun s =>
  match m s with
  | (s', Ok a) => k a s'
  | (s', Throw e) => (s', Throw e)
  | (s', Return c r) => (s', Return c r)
  end.

Notation "m ;; k" := (bind m (fun _ => k)) (at level 100, k at level 200, right associativity).

(** [try { body } catch (error) { handler }] *)
Definition try_catch {A} (body handler : M A) : M A := fun s =>
  match body s with
  | (s', Throw _) => handler s'
  | r => r
  end.

Definition throw {A} (msg : string) : M A := fun s => (s, Throw msg).

(** [await connection.execute(..)] *)
Definition execute : M unit := fun s =>
  match faults s with
  | true :: rest => (RunState rest (conn s), Throw "database error")
  | false :: rest => (RunState rest (conn s), Ok tt)
  | [] => (s, Ok tt)
  end.

Definition set_transaction (b : bool) : M unit := fun s =>
  (RunState (faults s) (Connection (releases (conn s)) b), Ok tt).

Definition beginTransaction : M unit := execute ;; set_transaction true.
Definition rollback : M unit := execute ;; set_transaction false.
Definition commit : M unit := execute ;; set_transaction false.

(** [connection.release()] *)
Definition release : M unit := fun s =>
  (RunState (faults s) (Connection (S (releases (conn s))) (in_transaction (conn s))), Ok tt).

Fixpoint times (n : nat) (m : M unit) : M unit :=
  match n with
  | O => ret tt
  | S n' => m ;; times n' m
  end.

(** A helper that catches and logs whatever it throws. *)
Definition swallowed (m : M unit) : M unit := try_catch m (ret tt).

(** What POST /agreements (procurement.js 463-654) branches on: whether
    [supplier_id] and [agreement_number] are truthy, whether the supplier
    row exists, and the number of [lines]. *)
Record agreement_req : Type := AgreementReq {
  supplier_id : bool;
  agreement_number : bool;
  supplier_found : bool;
  lines : nat
}.

Definition post_agreements (rq : agreement_req) : M nat :=
  try_catch
    (beginTransaction ;;
     if negb (supplier_id rq) then rollback ;; release ;; ret 400%nat
     else if negb (agreement_number rq) then rollback ;; release ;; ret 400%nat
     else
       execute ;;
       if negb (supplier_found rq) then rollback ;; release ;; ret 400%nat
       else
         execute ;;
         times (lines rq) execute ;;
         release ;;
         ret 201%nat)
    (ret 500%nat).

(** [getNextSequenceValue]: SELECT .. FOR UPDATE, then UPDATE. *)
Definition getNextSequenceValue : M unit := execute ;; execute.

(** [updatePOStatusFromReceipts]: the aggregate SELECT and, when the
    rollup yields a status, the UPDATE; errors are swallowed. *)
Definition updatePOStatusFromReceipts (updates : bool) : M unit :=
  swallowed (execute ;; if updates then execute else ret tt).

(** [updateInventoryFromGRN]: the SELECT of the receipt's lines, then (when
    there are lines with an item) the SELECT of the inventory rows and up
    to two batch UPDATEs; it rethrows, and its caller swallows. *)
Definition updateInventoryFromGRN (item_lines : bool) (batch_updates : nat) : M unit :=
  execute ;;
  if item_lines then execute ;; times batch_updates execute else ret tt.

Definition logAuditTrail : M unit := swallowed execute.

(** What PUT /receipts/:id (procurement.js 2392-2600) branches on. *)
Record receipt_req : Type := ReceiptReq {
  receipt_found : bool;
  rq_lines : option nat;          (* [None]: the body has no [lines] array *)
  old_item_lines : bool;          (* old lines with an item code exist *)
  reverse_updates : bool;         (* at least one of them has inventory *)
  has_header : bool;              (* [oldValues.header_id] is truthy *)
  status_changes : bool;          (* the rollup yields a status *)
  new_item_lines : bool;
  inventory_updates : nat
}.

Definition put_receipt (rq : receipt_req) : M nat :=
  try_catch
    (beginTransaction ;;
     execute ;;
     if negb (receipt_found rq) then rollback ;; release ;; ret 404%nat
     else
       match rq_lines rq with
       | None => throw "TypeError: Cannot read properties of undefined (reading 'reduce')"
       | Some n =>
           execute ;;
           execute ;;
           (if old_item_lines rq
            then execute ;; (if reverse_updates rq then execute else ret tt)
            else ret tt) ;;
           execute ;;
           (if (0 <? n)%nat then times n getNextSequenceValue ;; execute else ret tt) ;;
           (if has_header rq
            then execute ;; execute ;; updatePOStatusFromReceipts (status_changes rq)
            else ret tt) ;;
           swallowed (updateInventoryFromGRN (new_item_lines rq) (inventory_updates rq)) ;;
           logAuditTrail ;;
           release ;;
           ret 200%nat
       end)
    (ret 500%nat).

(** Running a handler on a connection just taken from the pool. *)
Definition fresh (fs : list bool) : run_state := RunState fs (Connection 0 false).

Definition held (s : run_state) : bool := (releases (conn s) =? 0)%nat.

End Pool.

(** ** Settlement: the other routes of apPayments.js and receipts.js *)

Module SettlementOps.
Import Settlement.

(** DELETE /:id (apPayments.js 652-679): refused while the payment has an
    ACTIVE application, otherwise the status is set to DRAFT.  The UPDATE
    matches no row when the id is unknown. *)
Definition active_applications (id : Z) (d : db) : list application :=
  filter (fun r => app_parent r = id /\ app_status r = "ACTIVE") (applications d).

Definition delete_payment (id : Z) (d : db) : nat * tx_end db :=
  if (0 <? length (active_applications id d))%nat
  then (400%nat, Unchanged d)
  else (200%nat,
        Committed (set_payments
                     (alter (fun p => Payment (payment_number p) (payment_amount p)
                                        (amount_applied p) "DRAFT") id) d)).

(** POST /check-draft-conflicts (apPayments.js 682-719).  A row of the
    answer is kept as its pair (invoice_id, payment_id), which determines
    the two number columns; [invoice_ids] is [None] when the body's field
    is not an array. *)
Definition in_draft_conflict (ids : list Z) (exclude_payment_id : option Z) (d : db)
    (r : application) : bool :=
  match payments d !! app_parent r, invoices d !! app_invoice r with
  | Some p, Some _ =>
      String.eqb (pay_status p) "DRAFT"
      && bool_decide (app_invoice r ∈ ids)
      && (if nonzero exclude_payment_id
          then negb (bool_decide (Some (app_parent r) = exclude_payment_id))
          else true)
  | _, _ => false
  end.

Definition check_draft_conflicts (invoice_ids : option (list Z))
    (exclude_payment_id : option Z) (d : db) : list (Z * Z) :=
  match invoice_ids with
  | Some (i :: ids) =>
      remove_dups
        (map (fun r => (app_invoice r, app_parent r))
             (filter (fun r => in_draft_conflict (i :: ids) exclude_payment_id d r = true)
                     (applications d)))
  | _ => []
  end.

(** *** GET / of apPayments.js: the list with its read repair (8-127) *)

(** The columns of ap_payments the list reads and repairs. *)
Record payment_row : Type := PaymentRow {
  row_payment_amount : Z;
  row_amount_applied : Z;
  row_unapplied_amount : Z
}.

(** [SUM(applied_amount)] over the ACTIVE applications of a payment,
    through [COALESCE(_, 0)]. *)
Definition calculated_applied (id : Z) (apps : list application) : Z :=
  fold_right Z.add 0
    (map applied_amount
         (filter (fun r => app_parent r = id /\ app_status r = "ACTIVE") apps)).

(** [Math.abs(calculatedApplied - currentApplied) > 0.01] *)
Definition needs_update (calculatedApplied : Z) (row : payment_row) : bool :=
  1 <? Z.abs (calculatedApplied - row_amount_applied row).

(** The UPDATE of one payment that needs correction (the batch statement
    and its one-by-one fallback write the same values). *)
Definition corrected (calculatedApplied : Z) (row : payment_row) : payment_row :=
  PaymentRow (row_payment_amount row) calculatedApplied
             (row_payment_amount row - calculatedApplied).

(** The table after the handler ran with every statement succeeding.
    [listed] is the WHERE clause built from the query string: it reads
    status, supplier_id and payment_date, which the repair does not
    write. *)
Definition list_payments (listed : Z -> bool) (apps : list application)
    (rows : gmap Z payment_row) : gmap Z payment_row :=
  map_imap (fun id row =>
              Some (if listed id && needs_update (calculated_applied id apps) row
                    then corrected (calculated_applied id apps) row
                    else row)) rows.

(** *** receipts.js: applying a receipt, promoting a DRAFT receipt *)

Section AR.

Variable sem : set_semantics.
Variable increment_by : Z.
(** The two INSERTs below do not list the status column: its default. *)
Variable default_status : string.

(** POST /:receiptId/apply (receipts.js 356-498); the receipt id comes from
    the path, [invoice_id] and [applied_amount] from the body.  Without an
    [applied_amount] both comparisons are false and the INSERT fails, after
    the counter has moved. *)
Definition apply_receipt (receiptId : Z) (invoice_id applied_amount : option Z) (d : db)
    : nat * tx_end db :=
  match invoice_id with
  | None => (500%nat, Unchanged d)
  | Some invoiceId =>
      match payments d !! receiptId with
      | None => (404%nat, Unchanged d)
      | Some receipt =>
          match invoices d !! invoiceId with
          | None => (404%nat, Unchanged d)
          | Some inv =>
              match applied_amount with
              | None =>
                  (500%nat,
                   Unchanged (keep_sequences d (getNextReceiptApplicationId increment_by d).2))
              | Some a =>
                  let availableAmount := payment_amount receipt - amount_applied receipt in
                  if availableAmount <? a then (400%nat, Unchanged d)
                  else if currentAmountDue inv <? a then (400%nat, Unchanged d)
                  else
                    let unappliedAmount := Z.max 0 (currentAmountDue inv - a) in
                    let '(applicationId, d) := getNextReceiptApplicationId increment_by d in
                    let d := set_applications
                               (fun rows =>
                                  (rows ++ [Application applicationId receiptId invoiceId
                                              a unappliedAmount default_status])%list) d in
                    let d := set_amount_applied receiptId (amount_applied receipt + a) d in
                    let d := set_invoices
                               (alter (update_invoice_verified sem a) invoiceId) d in
                    (200%nat, Committed d)
              end
          end
      end
  end.

(** [UPDATE ar_invoices SET amount_paid = amount_paid + ?, status = ?] with
    the [newStatus] computed from the row read before. *)
Definition update_invoice_with_status (a : Z) (i : invoice) : invoice :=
  {| total_amount := total_amount i;
     amount_paid := amount_paid i + a;
     inv_status := newStatus i a |}.

(** The body of the loop of PUT /:id (receipts.js 580-633):
    [Number(app.invoice_id)] and [Number(app.application_amount)]. *)
Definition promote_receipt_application (receiptId : Z) (d : db) (app : ar_app_req)
    : db * outcome Z :=
  match ra_invoice_id app, ra_application_amount app with
  | Some invoiceId, Some appliedAmount =>
      if (invoiceId =? 0) || (appliedAmount =? 0) || (appliedAmount <=? 0)
      then (d, Throw "Invalid application data")
      else
        match invoices d !! invoiceId with
        | None => (d, Throw "Invoice not found")
        | Some inv =>
            if currentAmountDue inv <? appliedAmount
            then (d, Throw "Application amount exceeds invoice amount due")
            else
              let unappliedAmount := Z.max 0 (currentAmountDue inv - appliedAmount) in
              let '(applicationId, d) := getNextReceiptApplicationId increment_by d in
              let d := set_applications
                         (fun rows => (rows ++ [Application applicationId receiptId invoiceId
                                                  appliedAmount unappliedAmount
                                                  default_status])%list) d in
              let d := set_invoices
                         (alter (update_invoice_with_status appliedAmount) invoiceId) d in
              (d, Ok appliedAmount)
        end
  | _, _ => (d, Throw "Invalid application data")
  end.

Fixpoint promote_receipt_applications (receiptId : Z) (apps : list ar_app_req)
    (d : db) (totalApplied : Z) : db * outcome Z :=
  match apps with
  | [] => (d, Ok totalApplied)
  | app :: rest =>
      match promote_receipt_application receiptId d app with
      | (d, Ok a) => promote_receipt_applications receiptId rest d (totalApplied + a)
      | (d, Throw e) => (d, Throw e)
      | (d, Return c r) => (d, Return c r)
      end
  end.

Definition update_receipt_header (rq : receipt_req) (to_paid : bool) (p : payment) : payment :=
  {| payment_number :=
       match rr_receipt_number rq with Some n => Some n | None => payment_number p end;
     payment_amount := default (payment_amount p) (rr_total_amount rq);
     amount_applied := amount_applied p;
     pay_status := if to_paid then "PAID" else pay_status p |}.

(** PUT /:id (receipts.js 501-699). *)
Definition update_receipt (id : Z) (rq : receipt_req) (d : db) : nat * tx_end db :=
  match payments d !! id with
  | None => (404%nat, Unchanged d)
  | Some existing =>
      let currentStatus := pay_status existing in
      let target_is_paid :=
        if truthy (rr_status rq) then strict_eq_str (rr_status rq) "PAID"
        else String.eqb currentStatus "PAID" in
      if String.eqb currentStatus "PAID" then (400%nat, Unchanged d)
      else if match given (rr_receipt_number rq) with
              | Some n => number_taken n (Some id) (payments d)
              | None => false
              end
      then (400%nat, Unchanged d)
      else
        match rr_applications rq with
        | Some (app :: apps) =>
            if String.eqb currentStatus "DRAFT" && target_is_paid
            then
              let d1 := set_payments (alter (update_receipt_header rq true) id) d in
              let d2 := set_applications (filter (fun r => app_parent r <> id)) d1 in
              match promote_receipt_applications id (app :: apps) d2 0 with
              | (d3, Ok totalApplied) =>
                  (200%nat, Committed (set_amount_applied id totalApplied d3))
              | (d3, _) => (500%nat, Unchanged (keep_sequences d d3))
              end
            else (200%nat,
                  Committed (set_payments (alter (update_receipt_header rq false) id) d))
        | _ => (200%nat,
                Committed (set_payments (alter (update_receipt_header rq false) id) d))
        end
  end.

End AR.

(** *** Statement vocabulary *)

(** The sum of the [applied_amount] of application rows. *)
Definition rows_total (rows : list application) : Z :=
  fold_right Z.add 0 (map applied_amount rows).

(** No invoice is paid beyond its total. *)
Definition within_totals (d : db) : Prop :=
  forall i inv, invoices d !! i = Some inv -> amount_paid inv <= total_amount inv.

End SettlementOps.

(** ** Purchase orders: cancelling, and receipts one after another *)

Module RollupOps.
Import Rollup.

(** DELETE /purchase-orders/:id (procurement.js 2104-2136) on the tables of
    the rollup: the order's status becomes CANCELLED. *)
Definition cancel_purchase_order (id : Z) (d : po_db) : nat * po_db :=
  match po_headers d !! id with
  | None => (404%nat, d)
  | Some _ =>
      (200%nat, PoDb (<[id := "CANCELLED"]> (po_headers d)) (po_lines d) (po_receipt_lines d))
  end.

(** Requests POST /receipts served one after another, each with the
    [header_id] and the [lines] of its body. *)
Definition post_receipts (posts : list (Z * list grn_line)) (d : po_db) : po_db :=
  fold_left (fun d post => post_receipt post.1 post.2 d) posts d.

(** *** Statement vocabulary *)

Definition lines_of (d : po_db) (headerId : Z) : list po_line :=
  filter (fun pl => header_id pl = headerId) (po_lines d).

(** The receipt lines entered against the lines of an order, and the
    quantities accepted and received on them, each receipt line counted
    once. *)
Definition receipt_lines_of (d : po_db) (headerId : Z) : list po_receipt_line :=
  filter (fun r => Exists (fun pl => prl_line_id r = Some (line_id pl)) (lines_of d headerId))
         (po_receipt_lines d).

Definition accepted_quantity (d : po_db) (headerId : Z) : Z :=
  sum (map (fun r => default 0 (quantity_accepted r)) (receipt_lines_of d headerId)).

Definition received_quantity (d : po_db) (headerId : Z) : Z :=
  sum (map (fun r => default 0 (quantity_received r)) (receipt_lines_of d headerId)).

Definition received_at_most_once (d : po_db) (headerId : Z) : Prop :=
  Forall (fun pl =>
            (length (filter (fun r => prl_line_id r = Some (line_id pl))
                            (po_receipt_lines d)) <= 1)%nat)
         (lines_of d headerId).

End RollupOps.

(** ** Inventory: a whole receipt *)

Module InventoryOps.
Import Inventory.
Local Open Scope Q_scope.

(** A row of po_receipt_lines with the [packet_quantity] of its order line,
    as the first SELECT of [updateInventoryFromGRN] joins them
    (procurement.js 1232-1244); [gi_item_code] is [None] for NULL. *)
Record grn_item_line : Type := GrnItemLine {
  gi_item_code : option string;
  gi_quantity_accepted : Q;
  gi_po_packet_quantity : Q
}.

(** [prl.item_code IS NOT NULL AND prl.item_code != '' AND
    prl.quantity_accepted > 0] *)
Definition selected (l : grn_item_line) : bool :=
  match gi_item_code l with
  | Some c => negb (String.eqb c "") && negb (Qle_bool (gi_quantity_accepted l) 0)
  | None => false
  end.

(** The loop (1273-1327): one update per selected line whose item has an
    active inventory row, computed from the row as it was read. *)
Definition grn_updates (isReversal : bool) (lines : list grn_item_line)
    (inventoryMap : gmap string detail) : list (string * detail) :=
  omap (fun line =>
          match gi_item_code line with
          | Some itemCode =>
              match inventoryMap !! itemCode with
              | Some d =>
                  Some (itemCode,
                        updateInventoryFromGRN isReversal (gi_quantity_accepted line)
                          (gi_po_packet_quantity line) d)
              | None => None
              end
          | None => None
          end)
       (filter (fun l => selected l = true) lines).

(** [CASE id WHEN ? THEN ? WHEN ? THEN ? .. END]: the first branch whose
    key is the row's. *)
Definition case_when {A} (branches : list (string * A)) (key : string) : option A :=
  snd <$> head (filter (fun u => u.1 = key) branches).

(** [updateInventoryFromGRN] (procurement.js 1229-1371) on the active
    inventory rows, keyed by item code: the two batch UPDATEs write, for
    each row named by an update, the values of the first update naming
    it. *)
Definition updateInventoryFromGRN_receipt (isReversal : bool) (lines : list grn_item_line)
    (inventoryMap : gmap string detail) : gmap string detail :=
  let updates := grn_updates isReversal lines inventoryMap in
  map_imap (fun itemCode d => Some (default d (case_when updates itemCode))) inventoryMap.

End InventoryOps.

(** ** Counters: several allocations by one caller *)

Module SequenceOps.
Import Sequence.

(** The loop of POST /receipts over the lines of the body (procurement.js
    2287-2289): one [getNextSequenceValue] for each, on the same counter. *)
Fixpoint allocate (k : nat) (tables : sequences) (sequenceName : string)
    : outcome (list Z * sequences) :=
  match k with
  | O => Ok ([], tables)
  | S k' =>
      '(v, tables) ← getNextSequenceValue tables sequenceName;
      '(vs, tables) ← allocate k' tables sequenceName;
      Ok (v :: vs, tables)
  end.

(** *** Statement vocabulary *)

(** The row of a counter, in the table its name selects. *)
Definition counter (tables : sequences) (sequenceName : string) : option Z :=
  (if startsWith sequenceName "AP_" then ap_sequences tables else ar_sequences tables)
    !! sequenceName.

(** [n] consecutive values from [v], the earliest first. *)
Definition consecutive (v : Z) (n : nat) : list Z :=
  map (fun i => v + Z.of_nat i) (seq 0 n).

End SequenceOps.

(** ** Connections: the other handlers of procurement.js *)

Module PoolOps.
Import Pool.

(** [try { body } finally { finalizer }]: the finalizer runs however the
    body ends, and what it throws replaces the body's result. *)
Definition try_finally {A} (body : M A) (finalizer : M unit) : M A := fun s =>
  match body s with
  | (s', r) =>
      match finalizer s' with
      | (s'', Ok _) => (s'', r)
      | (s'', Throw e) => (s'', Throw e)
      | (s'', Return c rb) => (s'', Return c rb)
      end
  end.

(** [try { body } catch (error) { handler(error) }] *)
Definition try_catch_with {A} (body : M A) (handler : string -> M A) : M A := fun s =>
  match body s with
  | (s', Throw e) => handler e s'
  | r => r
  end.

(** POST /agreements/:agreementId/lines (procurement.js 204-242). *)
Definition post_agreement_lines : M nat :=
  try_finally
    (try_catch
       (beginTransaction ;; getNextSequenceValue ;; execute ;; commit ;; ret 201%nat)
       (rollback ;; ret 500%nat))
    release.

(** POST / of the inventory items (procurement.js 2996-3079); [named]:
    [item_code] and [item_name] are truthy. *)
Definition post_inventory_item (named : bool) : M nat :=
  try_finally
    (try_catch
       (if negb named then ret 400%nat
        else beginTransaction ;; execute ;; execute ;; commit ;; ret 201%nat)
       (rollback ;; ret 500%nat))
    release.

(** What PUT /:id of the inventory items (procurement.js 3082-3235)
    branches on. *)
Record item_req : Type := ItemReq {
  ir_named : bool;            (* [item_code] and [item_name] are truthy *)
  ir_found : bool;            (* the UPDATE of the header matched a row *)
  ir_current : bool;          (* the item has an active detail row *)
  ir_differs : bool           (* a compared column differs from the body *)
}.

Definition put_inventory_item (rq : item_req) : M nat :=
  try_finally
    (try_catch
       (if negb (ir_named rq) then ret 400%nat
        else
          beginTransaction ;;
          execute ;;
          if negb (ir_found rq) then rollback ;; ret 404%nat
          else
            execute ;;
            let detailChanged := negb (ir_current rq) || ir_differs rq in
            (if detailChanged && ir_current rq then execute else ret tt) ;;
            execute ;;
            commit ;;
            ret 200%nat)
       (rollback ;; ret 500%nat))
    release.

(** What POST /purchase-orders (procurement.js 1529-1821) branches on.  The
    row of PO_LINE_ID_SEQ is taken to exist. *)
Record po_req : Type := PoReq {
  pr_sequence_found : bool;   (* PO_HEADER_ID_SEQ has a row *)
  pr_supplied : bool;         (* [po_number && po_number.trim() !== ''] *)
  pr_config_found : bool;     (* an active PURCHASE_ORDER configuration *)
  pr_lines : nat;             (* 0 also for a missing [lines] *)
  pr_user : bool;             (* [req.user] carries an id *)
  pr_constraint : bool        (* database errors carry ER_NO_REFERENCED_ROW_2
                                 or ER_DUP_ENTRY *)
}.

Definition post_purchase_orders (rq : po_req) : M nat :=
  try_finally
    (try_catch_with
       (beginTransaction ;;
        execute ;;
        (if pr_sequence_found rq then ret tt
         else throw "Sequence PO_HEADER_ID_SEQ not found") ;;
        execute ;;
        (if pr_supplied rq then ret tt
         else execute ;;
              if pr_config_found rq then ret tt
              else throw "Document number configuration not found for PURCHASE_ORDER") ;;
        (if (pr_lines rq =? 0)%nat then throw "At least one line item is required"
         else ret tt) ;;
        (if pr_user rq then ret tt
         else throw "User not authenticated or user ID missing") ;;
        execute ;;
        (if pr_supplied rq then ret tt else execute) ;;
        times (pr_lines rq) (execute ;; execute ;; execute) ;;
        commit ;;
        ret 201%nat)
       (fun e =>
          swallowed rollback ;;
          ret (if pr_constraint rq && String.eqb e "database error"
               then 400%nat else 500%nat)))
    (swallowed release).

(** [generateDocumentNumber]: the SELECT, a throw when no configuration is
    active, the UPDATE. *)
Definition generateDocumentNumber (config_found : bool) : M unit :=
  execute ;;
  (if config_found then ret tt else throw "Document number configuration not found") ;;
  execute.

(** What POST /receipts (procurement.js 2241-2389) branches on. *)
Record grn_req : Type := GrnReq {
  gr_config_found : bool;
  gr_lines : option nat;          (* [None]: the body has no [lines] array *)
  gr_po_line_updates : bool;      (* a line has a line id and a received quantity *)
  gr_status_changes : bool;       (* the rollup yields a status *)
  gr_item_lines : bool;
  gr_inventory_updates : nat
}.

Definition post_receipts (rq : grn_req) : M nat :=
  try_catch
    (beginTransaction ;;
     getNextSequenceValue ;;
     generateDocumentNumber (gr_config_found rq) ;;
     match gr_lines rq with
     | None => throw "TypeError: Cannot read properties of undefined (reading 'reduce')"
     | Some n =>
         execute ;;
         (if (0 <? n)%nat
          then times n getNextSequenceValue ;;
               execute ;;
               (if gr_po_line_updates rq then execute else ret tt)
          else ret tt) ;;
         execute ;;
         updatePOStatusFromReceipts (gr_status_changes rq) ;;
         swallowed (updateInventoryFromGRN (gr_item_lines rq) (gr_inventory_updates rq)) ;;
         logAuditTrail ;;
         release ;;
         ret 201%nat
     end)
    (rollback ;; release ;; ret 500%nat).

(** DELETE /purchase-orders/:id (procurement.js 2104-2136) and DELETE
    /receipts/:id (2603-2643); [found]: the row exists. *)
Definition delete_purchase_order (found : bool) : M nat :=
  try_catch
    (execute ;;
     if negb found then release ;; ret 404%nat
     else execute ;; logAuditTrail ;; release ;; ret 200%nat)
    (ret 500%nat).

Definition delete_receipt (found item_lines : bool) (inventory_updates : nat) : M nat :=
  try_catch
    (execute ;;
     if negb found then release ;; ret 404%nat
     else
       swallowed (updateInventoryFromGRN item_lines inventory_updates) ;;
       execute ;;
       logAuditTrail ;;
       release ;;
       ret 200%nat)
    (ret 500%nat).

(** *** Statement vocabulary *)

(** A computation that does not give the connection back, and ends by
    falling through or by throwing. *)
Definition quiet {A} (m : M A) : Prop :=
  forall s s' r, m s = (s', r) ->
    releases (conn s') = releases (conn s) /\ (forall c rb, r <> Return c rb).

(** A computation that leaves an open transaction open. *)
Definition keeps_open {A} (m : M A) : Prop :=
  forall s s' r, m s = (s', r) ->
    in_transaction (conn s) = true -> in_transaction (conn s') = true.

(** The tail of a handler: it answers with a status other than 500 having
    given the connection back once, or throws having kept it. *)
Definition releases_on_answer (m : M nat) : Prop :=
  forall s s' r, m s = (s', r) ->
    (exists c, r = Ok c /\ c <> 500%nat /\ releases (conn s') = S (releases (conn s))) \/
    (exists e, r = Throw e /\ releases (conn s') = releases (conn s)).

(** Within an open transaction, an answer accepted by [ok] is given with
    the transaction still open. *)
Definition open_on (ok : nat -> bool) (m : M nat) : Prop :=
  forall s s' c, in_transaction (conn s) = true -> m s = (s', Ok c) -> ok c = true ->
    in_transaction (conn s') = true.

(** What PUT /purchase-orders/:id (procurement.js 1824-2015) branches on. *)
Record po_put_req : Type := PoPutReq {
  pp_found : bool;            (* the order exists *)
  pp_lines : nat;             (* 0 also for a missing or non-array [lines] *)
  pp_amounts_fit : bool       (* the totals are within DECIMAL(15,2) *)
}.

Definition put_purchase_orders (rq : po_put_req) : M nat :=
  try_finally
    (try_catch
       (beginTransaction ;;
        execute ;;
        if negb (pp_found rq) then rollback ;; release ;; ret 404%nat
        else if (pp_lines rq =? 0)%nat then rollback ;; release ;; ret 400%nat
        else if negb (pp_amounts_fit rq) then rollback ;; release ;; ret 400%nat
        else
          execute ;;
          execute ;;
          times (pp_lines rq) getNextSequenceValue ;;
          execute ;;
          logAuditTrail ;;
          commit ;;
          ret 200%nat)
       (swallowed rollback ;; ret 500%nat))
    (swallowed release).

(** A computation that has given the connection back [early c] times when
    it answers [c], and not at all when it throws. *)
Definition counted (early : nat -> nat) (m : M nat) : Prop :=
  forall s s' r, m s = (s', r) ->
    (exists c, r = Ok c /\ releases (conn s') = (early c + releases (conn s))%nat) \/
    (exists e, r = Throw e /\ releases (conn s') = releases (conn s)).

End PoolOps.

(** ** Document numbers: the next free purchase-order number *)

Module DocNumberOps.
Import DocNumber.

(** The loop [for (let i = 1; i <= maxNumber + 1; i++)] of GET
    /generate-po-number (procurement.js 2824-2829), from [i] with [count]
    iterations left: the first [i] that [allUsedNumbers] does not
    include. *)
Fixpoint first_unused (allUsedNumbers : list Z) (i : Z) (count : nat) : option Z :=
  match count with
  | O => None
  | S count' =>
      if bool_decide (i ∈ allUsedNumbers) then first_unused allUsedNumbers (i + 1) count'
      else Some i
  end.

(** [nextNumber] of GET /generate-po-number (procurement.js 2803-2829).
    [parsed_headers] and [parsed_tracking] are the numbers the handler
    reads off the po numbers of po_headers and of po_numbers that carry the
    year's prefix, 0 for one without digits; sorting them does not change
    what the loop finds. *)
Definition nextNumber (parsed_headers parsed_tracking : list Z) : Z :=
  let usedNumbers := filter (fun num => 0 < num) parsed_headers in
  let trackingUsedNumbers := filter (fun num => 0 < num) parsed_tracking in
  let allUsedNumbers := remove_dups (usedNumbers ++ trackingUsedNumbers) in
  let maxNumber := fold_right Z.max 0 allUsedNumbers in
  default 1 (first_unused allUsedNumbers 1 (Z.to_nat (maxNumber + 1))).

(** *** Statement vocabulary *)

(** The number a string of decimal digits denotes. *)
Definition value (s : string) : option Z :=
  Z.of_uint <$> NilEmpty.uint_of_string s.

End DocNumberOps.

(** ** Customer invoices (the invoice routes of receipts.js) *)

Module ArInvoice.
Import Inventory.

(** The columns of ar_invoices these handlers read and write; an amount is
    an integer count of hundredths, [None] for NULL. *)
Record invoice_row : Type := InvoiceRow {
  amount_due : option Z;
  row_status : string;
  row_approval_status : string
}.

(** *** The read repair of GET /:id and GET / (receipts.js 1044-1159) *)

(** The status the handler leaves in the row:
    [Number(invoice.amount_due) || 0] against 0.01. *)
Definition repaired_status (row : invoice_row) : string :=
  let amountDue := default 0 (amount_due row) in
  let currentStatus := row_status row in
  if negb (String.eqb currentStatus "DRAFT") && negb (String.eqb currentStatus "CANCELLED")
     && negb (String.eqb currentStatus "VOID")
  then
    if (amountDue <=? 1) && negb (String.eqb currentStatus "PAID") then "PAID"
    else if (1 <? amountDue) && String.eqb currentStatus "PAID" then "OPEN"
    else currentStatus
  else currentStatus.

Definition repair (row : invoice_row) : invoice_row :=
  InvoiceRow (amount_due row) (repaired_status row) (row_approval_status row).

(** GET /:id; the customer and the site of the invoice are taken to
    exist, so that the joins keep the row. *)
Definition get_invoice (id : Z) (rows : gmap Z invoice_row) : nat * gmap Z invoice_row :=
  match rows !! id with
  | None => (404%nat, rows)
  | Some _ => (200%nat, alter repair id rows)
  end.

(** GET /: the loop over all rows. *)
Definition list_invoices (rows : gmap Z invoice_row) : gmap Z invoice_row :=
  repair <$> rows.

(** *** Stock sold on an invoice *)

Local Open Scope Q_scope.

(** A row of ar_invoice_lines: [item_code] ([None] for NULL) and
    [quantity]. *)
Record invoice_line : Type := InvoiceLine {
  il_item_code : option string;
  il_quantity : Q
}.

(** [item_code IS NOT NULL AND item_code != '' AND quantity > 0] *)
Definition sold (l : invoice_line) : bool :=
  match il_item_code l with
  | Some c => negb (String.eqb c "") && negb (Qle_bool (il_quantity l) 0)
  | None => false
  end.

(** The body of the loop of [updateInventoryFromARInvoice] (receipts.js
    815-881) on the active inventory row of the line's item. *)
Definition ar_line_update (isReversal : bool) (quantitySold : Q) (d : detail) : detail :=
  if Qle_bool quantitySold 0 then d
  else
    let currentBoxQty := box_quantity d in
    let packetsPerBox := if Qle_bool (packet_quantity d) 0 then 1 else packet_quantity d in
    let totalUnits := currentBoxQty * packetsPerBox in
    let newTotalUnits :=
      if isReversal then totalUnits + quantitySold
      else Math_max 0 (totalUnits - quantitySold) in
    let newBoxQty := newTotalUnits / packetsPerBox in
    let newBoxQtyRounded := round2 newBoxQty in
    {| box_quantity := newBoxQtyRounded; packet_quantity := packetsPerBox |}.

(** [updateInventoryFromARInvoice] (receipts.js 805-886) on the active
    inventory rows, keyed by item code: each line reads the row and writes
    it before the next line is looked at; a line whose item has no row is
    skipped. *)
Definition updateInventoryFromARInvoice (isReversal : bool) (lines : list invoice_line)
    (stock : gmap string detail) : gmap string detail :=
  fold_left
    (fun stock line =>
       match il_item_code line with
       | Some itemCode => alter (ar_line_update isReversal (il_quantity line)) itemCode stock
       | None => stock
       end)
    (filter (fun l => sold l = true) lines) stock.

(** The reversal of one old line in PUT /:id (receipts.js 1223-1254): it
    writes [box_quantity] only. *)
Definition reverse_old_invoice_line (oldQuantitySold : Q) (d : detail) : detail :=
  if Qle_bool oldQuantitySold 0 then d
  else
    let currentBoxQty := box_quantity d in
    let currentPacketQty := packet_quantity d in
    let packetsPerBox := if Qle_bool currentPacketQty 0 then 1 else currentPacketQty in
    let totalUnits := currentBoxQty * packetsPerBox in
    let newTotalUnits := totalUnits + oldQuantitySold in
    let newBoxQty := round2 (newTotalUnits / packetsPerBox) in
    {| box_quantity := newBoxQty; packet_quantity := currentPacketQty |}.

(** The stock after PUT /:id (receipts.js 1162-1301): the old lines are
    given back, the lines are replaced, and the new lines (as stored) are
    sold. *)
Definition put_invoice_stock (old_lines new_lines : list invoice_line)
    (stock : gmap string detail) : gmap string detail :=
  let stock :=
    fold_left
      (fun stock oldLine =>
         match il_item_code oldLine with
         | Some itemCode =>
             alter (reverse_old_invoice_line (il_quantity oldLine)) itemCode stock
         | None => stock
         end)
      (filter (fun l => sold l = true) old_lines) stock in
  updateInventoryFromARInvoice false new_lines stock.

Local Close Scope Q_scope.

(** *** PATCH /:id/status (receipts.js 1304-1421) *)

Record ar_db : Type := ArDb {
  ar_invoices : gmap Z invoice_row;
  ar_invoice_lines : gmap Z (list invoice_line);
  inventory : gmap string detail
}.

Definition validStatuses : list string := ["DRAFT"; "OPEN"; "PAID"; "CANCELLED"; "VOID"].

Definition cancelled_or_void (s : string) : bool :=
  String.eqb s "CANCELLED" || String.eqb s "VOID".

Definition patch_invoice_status (id : Z) (status approval_status : jsval) (d : ar_db)
    : nat * ar_db :=
  match ar_invoices d !! id with
  | None => (404%nat, d)
  | Some existing =>
      if PoStatus.provided status
         && negb (PoStatus.includes validStatuses (PoStatus.normalize status))
      then (400%nat, d)
      else if PoStatus.provided approval_status
              && negb (PoStatus.includes PoStatus.validApprovalStatuses
                         (PoStatus.normalize approval_status))
      then (400%nat, d)
      else if negb (PoStatus.provided status) && negb (PoStatus.provided approval_status)
      then (400%nat, d)
      else
        let oldStatus := row_status existing in
        let newStatus := if truthy status then PoStatus.normalize status else oldStatus in
        let row :=
          InvoiceRow (amount_due existing)
            (if PoStatus.provided status then PoStatus.normalize status else oldStatus)
            (if PoStatus.provided approval_status then PoStatus.normalize approval_status
             else row_approval_status existing) in
        let lines := default [] (ar_invoice_lines d !! id) in
        let inventory' :=
          if truthy status && negb (String.eqb newStatus oldStatus)
          then
            if cancelled_or_void newStatus && negb (cancelled_or_void oldStatus)
            then updateInventoryFromARInvoice true lines (inventory d)
            else if cancelled_or_void oldStatus && negb (cancelled_or_void newStatus)
            then updateInventoryFromARInvoice false lines (inventory d)
            else inventory d
          else inventory d in
        (200%nat, ArDb (<[id := row]> (ar_invoices d)) (ar_invoice_lines d) inventory')
  end.

(** *** Statement vocabulary *)

(** The quantities of the lines of an invoice that sell an item, in the
    order of the lines. *)
Definition quantities_of (itemCode : string) (lines : list invoice_line) : list Q :=
  map il_quantity
      (filter (fun l => sold l = true /\ il_item_code l = Some itemCode) lines).

End ArInvoice.

(** ** Inventory items: the versions of an item's details *)

Module InventoryItems.

(** The columns of inventory_item_details that PUT /:id compares, as the
    handler normalises them ([parseFloat(_) || 0], [_ || null]); a number is
    an integer count of hundredths. *)
Record detail_values : Type := DetailValues {
  item_purchase_rate : Z;
  item_sell_price : Z;
  tax_status : option string;
  uom_type : option string;
  box_quantity : Z;
  packet_quantity : Z;
  uom_type_detail : Z;
  income_account_segment_id : option Z;
  cogs_account_segment_id : option Z;
  inventory_account_segment_id : option Z
}.

#[global] Instance detail_values_eq_dec : EqDecision detail_values.
Proof. solve_decision. Defined.

(** A row of inventory_item_details of one item. *)
Record item_detail : Type := ItemDetail {
  detail_id : Z;
  version : Z;
  is_active : bool;
  values : detail_values
}.

(** [.. WHERE inventory_item_id = ? AND is_active = 1 LIMIT 1] *)
Definition currentDetail (rows : list item_detail) : option item_detail :=
  head (filter (fun r => is_active r = true) rows).

(** The UPDATE of the branch without a new version: it writes the columns
    other than the two prices. *)
Definition with_columns (incoming : detail_values) (r : item_detail) : item_detail :=
  ItemDetail (detail_id r) (version r) (is_active r)
    (DetailValues (item_purchase_rate (values r)) (item_sell_price (values r))
       (tax_status incoming) (uom_type incoming) (box_quantity incoming)
       (packet_quantity incoming) (uom_type_detail incoming)
       (income_account_segment_id incoming) (cogs_account_segment_id incoming)
       (inventory_account_segment_id incoming)).

Definition deactivate (r : item_detail) : item_detail :=
  ItemDetail (detail_id r) (version r) false (values r).

(** The detail rows of the item after PUT /:id (procurement.js 3131-3224),
    once the header was found; [insertId] is the id the INSERT is given. *)
Definition put_item_details (incoming : detail_values) (insertId : Z)
    (rows : list item_detail) : list item_detail :=
  match currentDetail rows with
  | None => rows ++ [ItemDetail insertId 1 true incoming]
  | Some current =>
      let detailChanged := negb (bool_decide (values current = incoming)) in
      let nextVersion := (if version current =? 0 then 1 else version current) + 1 in
      if detailChanged
      then
        map (fun r => if detail_id r =? detail_id current then deactivate r else r) rows
        ++ [ItemDetail insertId nextVersion true incoming]
      else
        map (fun r => if is_active r then with_columns incoming r else r) rows
  end.

(** The detail row POST / creates (procurement.js 3046-3068). *)
Definition post_item_details (incoming : detail_values) (insertId : Z) : list item_detail :=
  [ItemDetail insertId 1 true incoming].

End InventoryItems.

(** * Properties *)

(** ** Settlement *)

Module SettlementFacts.
Import Settlement.

Lemma process_application_Ok sem commit parent d t app d' t' :
  process_application sem commit parent (d, t) app = Ok (d', t') ->
  exists invoiceId a inv,
    rq_invoice_id app = Some invoiceId /\ rq_applied_amount app = Some a /\
    0 < invoiceId /\ 0 < a /\ invoices d !! invoiceId = Some inv /\
    application_seq d <> 0 /\
    t' = t + a /\ d' = after_line sem commit parent invoiceId a inv d.
Proof.
  unfold process_application, after_line.
  destruct app as [[invoiceId|] [a|]]; simpl; try discriminate.
  destruct (0 <? invoiceId) eqn:Hid; simpl; [|discriminate].
  destruct (0 <? a) eqn:Ha; simpl; [|discriminate].
  destruct (invoices d !! invoiceId) as [inv|] eqn:Hinv; simpl; [|discriminate].
  unfold getNextPaymentApplicationId.
  destruct (application_seq d =? 0) eqn:Hseq; simpl; [discriminate|].
  intros [= <- <-].
  exists invoiceId, a, inv.
  repeat split; try lia; try done.
  destruct commit; reflexivity.
Qed.

Lemma process_application_accepts sem commit parent d t invoiceId a inv :
  0 < invoiceId -> 0 < a -> invoices d !! invoiceId = Some inv ->
  application_seq d <> 0 ->
  process_application sem commit parent (d, t) (AppReq (Some invoiceId) (Some a))
  = Ok (after_line sem commit parent invoiceId a inv d, t + a).
Proof.
  intros Hid Ha Hinv Hseq.
  unfold process_application, after_line; simpl.
  apply Z.ltb_lt in Hid, Ha. rewrite Hid, Ha; simpl.
  rewrite Hinv; simpl.
  unfold getNextPaymentApplicationId.
  apply Z.eqb_neq in Hseq. rewrite Hseq; simpl.
  destruct commit; reflexivity.
Qed.

Lemma update_invoice_sql_status sem a i :
  inv_status (update_invoice_sql sem a i) = "PAID" \/
  inv_status (update_invoice_sql sem a i) = "OPEN".
Proof. unfold update_invoice_sql; simpl. case (_ <=? _); auto. Qed.

Lemma update_invoice_verified_spec sem a i :
  update_invoice_verified sem a i = update_invoice_sql OldRow a i.
Proof.
  unfold update_invoice_verified, newStatus, update_invoice_sql; simpl.
  destruct sem; simpl.
  - rewrite String.eqb_refl. reflexivity.
  - destruct (String.eqb _ _) eqn:E; [|reflexivity].
    apply String.eqb_eq in E. rewrite E. reflexivity.
Qed.

Lemma process_receipt_application_accepts sem increment_by commit receiptId d invoiceId a inv :
  invoiceId <> 0 -> 0 < a -> a <= currentAmountDue inv ->
  invoices d !! invoiceId = Some inv ->
  process_receipt_application sem increment_by commit receiptId d
    (ArAppReq (Some invoiceId) (Some a) None)
  = (after_receipt_line sem increment_by commit receiptId invoiceId a inv d, Ok a).
Proof.
  intros Hid Ha Hdue Hinv.
  unfold process_receipt_application, after_receipt_line; simpl.
  assert ((a =? 0) = false) as -> by (apply Z.eqb_neq; lia).
  apply Z.eqb_neq in Hid. rewrite Hid, Hinv.
  assert ((a <=? 0) = false) as -> by (apply Z.leb_gt; lia).
  assert ((currentAmountDue inv <? a) = false) as -> by (apply Z.ltb_ge; lia).
  destruct commit; reflexivity.
Qed.

(** What the application loop does to the tables, for either value of
    [commit]. *)
Lemma after_line_invoices sem commit parent invoiceId a inv d i :
  invoices d !! invoiceId = Some inv ->
  invoices (after_line sem commit parent invoiceId a inv d) !! i =
  (fun x => if commit && bool_decide (i = invoiceId)
            then update_invoice_sql sem a x else x) <$> invoices d !! i.
Proof.
  intros Hinv. unfold after_line; simpl. destruct commit; simpl.
  - case_bool_decide as Hi.
    + subst i. by rewrite lookup_alter_eq.
    + rewrite lookup_alter_ne by done. by destruct (invoices d !! i).
  - by destruct (invoices d !! i).
Qed.

Lemma applied_to_cons i app apps :
  applied_to i (app :: apps) =
  (if bool_decide (rq_invoice_id app = Some i) then default 0 (rq_applied_amount app) else 0)
  + applied_to i apps.
Proof. unfold applied_to; simpl. case_bool_decide; lia. Qed.

Lemma loop_spec sem commit parent apps : forall d t d' t',
  for_each (process_application sem commit parent) apps (d, t) = Ok (d', t') ->
  payments d' = payments d /\
  payment_seq d' = payment_seq d /\
  (commit = false -> invoices d' = invoices d) /\
  (forall i inv, invoices d !! i = Some inv ->
     exists inv', invoices d' !! i = Some inv' /\
       total_amount inv' = total_amount inv /\
       amount_paid inv' = amount_paid inv + (if commit then applied_to i apps else 0)) /\
  (forall i, invoices d !! i = None -> invoices d' !! i = None) /\
  exists rows,
    applications d' = applications d ++ rows /\
    map (fun r => (Some (app_invoice r), Some (applied_amount r))) rows
      = map (fun app => (rq_invoice_id app, rq_applied_amount app)) apps /\
    Forall (fun r => app_parent r = parent /\ app_status r = "ACTIVE") rows /\
    (forall k r, rows !! k = Some r ->
       exists inv, invoices d !! app_invoice r = Some inv /\
         unapplied_amount r =
         Z.max 0 (total_amount inv
                  - (amount_paid inv
                     + (if commit then applied_to (app_invoice r) (take k apps) else 0))
                  - applied_amount r)).
Proof.
  induction apps as [|app apps IH]; intros d t d' t' Hrun.
  - injection Hrun as <- <-.
    split; [done|]. split; [done|]. split; [done|].
    split.
    { intros i inv Hi. exists inv. destruct commit; simpl; (split; [done|split; lia]). }
    split; [done|].
    exists []. rewrite app_nil_r.
    split; [done|]. split; [done|]. split; [constructor|].
    intros k r Hk. by rewrite lookup_nil in Hk.
  - cbn [for_each] in Hrun.
    destruct (process_application sem commit parent (d, t) app) as [[d1 t1]| |] eqn:Hstep;
      try discriminate.
    change (for_each (process_application sem commit parent) apps (d1, t1) = Ok (d', t'))
      in Hrun.
    apply process_application_Ok in Hstep
      as (invoiceId & a & inv0 & Hrid & Hramt & Hid & Ha & Hinv0 & Hseq & -> & ->).
    apply IH in Hrun
      as (Hpay & Hpseq & Hframe & Hinvs & Hnone & rows & Happs & Hmap & Hall & Hsnap).
    split; [exact Hpay|]. split; [exact Hpseq|].
    split; [intros ->; by rewrite Hframe|].
    split.
    { intros i inv Hi.
      pose proof (after_line_invoices sem commit parent invoiceId a inv0 d i Hinv0) as Hl.
      rewrite Hi in Hl; simpl in Hl.
      apply Hinvs in Hl as (inv' & Hl' & Htot & Hp).
      exists inv'. split; [exact Hl'|].
      rewrite applied_to_cons, Hrid, Hramt; simpl.
      destruct commit; simpl in *.
      - case_bool_decide as Hi1; case_bool_decide as Hi2; try congruence; simpl in *;
          split; lia.
      - split; lia. }
    split.
    { intros i Hi. apply Hnone.
      rewrite (after_line_invoices sem commit parent invoiceId a inv0 d i Hinv0), Hi.
      reflexivity. }
    exists (Application (application_seq d) parent invoiceId a
              (Z.max 0 (currentAmountDue inv0 - a)) "ACTIVE" :: rows).
    split; [rewrite Happs; simpl; by rewrite <- app_assoc|].
    split; [simpl; by rewrite Hmap, Hrid, Hramt|].
    split; [constructor; [done|exact Hall]|].
    intros [|k] r Hk; simpl in Hk.
    + injection Hk as <-. exists inv0. simpl.
      split; [exact Hinv0|]. unfold currentAmountDue.
      destruct commit; simpl; f_equal; lia.
    + apply Hsnap in Hk as (inv1 & Hl1 & Hun).
      rewrite (after_line_invoices sem commit parent invoiceId a inv0 d _ Hinv0) in Hl1.
      destruct (invoices d !! app_invoice r) as [inv|] eqn:Hi; [|discriminate].
      exists inv. split; [reflexivity|].
      rewrite Hun. simpl in Hl1. injection Hl1 as <-.
      change (take (S k) (app :: apps)) with (app :: take k apps).
      rewrite applied_to_cons, Hrid, Hramt; simpl.
      destruct commit; simpl.
      * case_bool_decide as Hi1; case_bool_decide as Hi2; try congruence; simpl;
          f_equal; lia.
      * f_equal; lia.
Qed.

Lemma create_payment_tx_Ok sem gen rq d pid d' :
  create_payment_tx sem gen rq d = Ok (pid, d') ->
  pid = payment_seq d /\ payments d !! pid = None /\
  exists number amount,
    let d2 := Db (invoices d)
                 (<[pid := Payment (Some number) amount 0 (paymentStatus (rq_status rq))]>
                    (payments d))
                 (applications d) (pid + 1) (application_seq d) in
    (d' = d2 /\ (rq_applications rq = None \/ rq_applications rq = Some [])) \/
    (exists apps d3 t,
       rq_applications rq = Some apps /\ apps <> [] /\
       for_each (process_application sem
                   (String.eqb (paymentStatus (rq_status rq)) "PAID") pid) apps (d2, 0)
         = Ok (d3, t) /\
       d' = set_amount_applied pid t d3).
Proof.
  unfold create_payment_tx, getNextPaymentId.
  destruct (payment_seq d =? 0); cbn [mbind outcome_bind guard negb]; [discriminate|].
  match goal with |- context [guard (negb (String.eqb ?n "")) _] => set (number := n) end.
  destruct (String.eqb number ""); cbn [mbind outcome_bind guard negb]; [discriminate|].
  destruct (nonzero (rq_supplier_id rq)); cbn [mbind outcome_bind guard negb]; [|discriminate].
  destruct (rq_payment_date rq); cbn [mbind outcome_bind guard negb]; [|discriminate].
  match goal with |- context [guard (0 <? ?n) _] => set (amount := n) end.
  destruct (0 <? amount); cbn [mbind outcome_bind guard negb]; [|discriminate].
  case_bool_decide as Hfresh; cbn [mbind outcome_bind guard negb]; [|discriminate].
  destruct (rq_applications rq) as [[|app apps]|] eqn:Happs.
  - intros [= <- <-]. split; [done|]. split; [exact Hfresh|].
    exists number, amount. left. split; [reflexivity|auto].
  - destruct (for_each _ _ _) as [[d3 t]| |] eqn:Hloop;
      cbn [mbind outcome_bind]; try discriminate.
    intros [= <- <-]. split; [done|]. split; [exact Hfresh|].
    exists number, amount. right. exists (app :: apps), d3, t.
    split; [done|]. split; [done|]. split; [exact Hloop|reflexivity].
  - intros [= <- <-]. split; [done|]. split; [exact Hfresh|].
    exists number, amount. left. split; [reflexivity|auto].
Qed.

Lemma process_receipt_application_frame sem increment_by commit receiptId d app d' r :
  process_receipt_application sem increment_by commit receiptId d app = (d', r) ->
  payments d' = payments d /\ (commit = false -> invoices d' = invoices d).
Proof.
  unfold process_receipt_application, getNextReceiptApplicationId.
  destruct (ra_invoice_id app) as [invoiceId|]; [|by intros [= <- _]].
  destruct (num_or _ _) as [a|]; [|by intros [= <- _]].
  destruct (invoiceId =? 0); [by intros [= <- _]|].
  destruct (invoices d !! invoiceId) as [inv|]; [|by intros [= <- _]].
  destruct (a <=? 0); [by intros [= <- _]|].
  destruct (currentAmountDue inv <? a); [by intros [= <- _]|].
  intros [= <- _]. destruct commit; simpl; split; (done || discriminate).
Qed.

Lemma receipt_applications_frame sem increment_by commit receiptId apps : forall d t d' r,
  receipt_applications sem increment_by commit receiptId apps d t = (d', r) ->
  payments d' = payments d /\ (commit = false -> invoices d' = invoices d).
Proof.
  induction apps as [|app apps IH]; intros d t d' r Hrun; cbn [receipt_applications] in Hrun.
  - by injection Hrun as <- _.
  - destruct (process_receipt_application sem increment_by commit receiptId d app)
      as [d1 o] eqn:Hstep.
    apply process_receipt_application_frame in Hstep as [Hp Hi].
    destruct o as [a| |].
    + apply IH in Hrun as [Hp' Hi']. split; [congruence|].
      intros Hc. rewrite (Hi' Hc). auto.
    + by injection Hrun as <- _.
    + by injection Hrun as <- _.
Qed.


Lemma promote_payment_tx_Ok sem id rq apps d d' :
  promote_payment_tx sem id rq apps d = Ok d' ->
  exists d3 t,
    for_each (process_application sem true id) apps
      (Db (invoices d) (alter (update_header rq true) id (payments d))
          (filter (fun r => app_parent r <> id) (applications d))
          (payment_seq d) (application_seq d), 0) = Ok (d3, t) /\
    d' = set_amount_applied id t d3.
Proof.
  unfold promote_payment_tx.
  destruct (for_each _ _ _) as [[d3 t]| |] eqn:Hloop; cbn [mbind outcome_bind];
    try discriminate.
  intros [= <-]. exists d3, t. split; reflexivity.
Qed.






(** C3 at its failing inputs.  POST / accepts an application of 200.00
    from a payment of 50.00 to an invoice on which 100.00 is due, and
    records 200.00 as paid; POST /:id/applications accepts an application
    of -30.00, and records -30.00 as paid. *)
Theorem C3_over_application_accepted :
  (exists d',
     create_payment OldRow sample_payment_number
       (PaymentReq (Some 3) None true None (Some 5000) (JStr "PAID")
                   (Some [AppReq (Some 1) (Some 20000)])) open_invoice_ledger
     = (201%nat, Committed d') /\
     invoices d' !! 1 = Some (Invoice 10000 20000 "PAID") /\
     payments d' !! 7 = Some (Payment (Some "PAY-7") 5000 20000 "PAID")) /\
  (exists d',
     add_application OldRow 7 (Some 1) (Some (-3000)) paid_payment_ledger = (201%nat, Committed d') /\
     invoices d' !! 1 = Some (Invoice 10000 (-3000) "OPEN") /\
     payments d' !! 7 = Some (Payment (Some "PAY-7") 5000 (-3000) "PAID")).
Proof.
  split; eexists; (split; [vm_compute; reflexivity|]); split; reflexivity.
Qed.

(** What POST /:id/applications does check: an amount above what remains of
    the payment, or above what is due on the invoice, is answered 400 and
    nothing is written. *)
Lemma add_application_rejects_excess sem id invoiceId a d pay inv :
  payments d !! id = Some pay -> invoices d !! invoiceId = Some inv ->
  payment_amount pay - amount_applied pay < a \/ currentAmountDue inv < a ->
  add_application sem id (Some invoiceId) (Some a) d = (400%nat, Unchanged d).
Proof.
  intros Hpay Hinv Hexcess. unfold add_application. rewrite Hpay. simpl. rewrite Hinv. simpl.
  destruct (Z.ltb_spec (payment_amount pay - amount_applied pay) a) as [|Hle]; [done|].
  destruct (Z.ltb_spec (total_amount inv - amount_paid inv) a) as [|Hle']; [done|].
  unfold currentAmountDue in Hexcess. lia.
Qed.

(** What POST / does check: an amount that is not positive makes the
    request fail with nothing written. *)
Lemma process_application_rejects_nonpositive sem commit parent st invoiceId a :
  a <= 0 ->
  process_application sem commit parent st (AppReq (Some invoiceId) (Some a))
  = Throw "Application invalid applied_amount" \/
  process_application sem commit parent st (AppReq (Some invoiceId) (Some a))
  = Throw "Application invalid invoice_id".
Proof.
  intros Ha. destruct st as [d t]. unfold process_application; simpl.
  destruct (0 <? invoiceId); simpl; [|by right].
  assert ((0 <? a) = false) as -> by (apply Z.ltb_ge; lia). by left.
Qed.




End SettlementFacts.

(** ** Inventory *)

Module InventoryFacts.
Import Inventory.
Local Open Scope Q_scope.

Lemma div_100 (z : Q) : z / 100 == z * (1 # 100).
Proof. field. Qed.

(** [round2] is within half a hundredth of its argument. *)
Lemma round2_bounds (x y : Q) :
  x == y -> y - (1 # 200) < round2 x /\ round2 x <= y + (1 # 200).
Proof.
  intros Hxy. unfold round2, Math_round.
  pose proof (Qfloor_le (x * 100 + (1 # 2))) as Hle.
  pose proof (Qlt_floor (x * 100 + (1 # 2))) as Hlt.
  rewrite inject_Z_plus in Hlt. change (inject_Z 1) with 1 in Hlt.
  rewrite div_100. split; lra.
Qed.

Lemma Qle_bool_false (x y : Q) : Qle_bool x y = false <-> y < x.
Proof.
  split; intros H.
  - apply Qnot_le_lt. intros Hle. apply Qle_bool_iff in Hle. congruence.
  - destruct (Qle_bool x y) eqn:E; [|reflexivity].
    apply Qle_bool_iff in E. lra.
Qed.

(** Receiving [q] units through [updateInventoryFromGRN] and reversing the
    same [q] units through it brings a non-negative [box_quantity] back to
    within 0.01 of where it was, and leaves [packet_quantity] alone. *)
Lemma grn_reversal_round_trip (b p q po po' : Q) :
  0 < p -> 0 <= b -> 0 < q ->
  let d := Detail b p in
  let d' := updateInventoryFromGRN true q po' (updateInventoryFromGRN false q po d) in
  Qabs (box_quantity d' - b) <= 1 # 100 /\ packet_quantity d' = p.
Proof.
  intros Hp Hb Hq. cbv zeta. unfold updateInventoryFromGRN.
  assert (Qle_bool q 0 = false) as Hq0 by (apply Qle_bool_false; lra).
  assert (Qle_bool p 0 = false) as Hp0 by (apply Qle_bool_false; lra).
  rewrite Hq0. cbn [box_quantity packet_quantity]. rewrite Hp0.
  cbn [box_quantity packet_quantity]. rewrite Hp0.
  split; [|reflexivity].
  set (box1 := round2 ((b * p + q) / p)).
  assert ((b * p + q) / p == b + q / p) as Hx1 by (field; lra).
  pose proof (round2_bounds _ _ Hx1) as [Hlo1 Hhi1]. fold box1 in Hlo1, Hhi1.
  apply Qabs_Qle_condition.
  unfold Math_max. destruct (Qle_bool 0 (box1 * p - q)) eqn:Hclamp.
  - assert ((box1 * p - q) / p == box1 - q / p) as Hx2 by (field; lra).
    pose proof (round2_bounds _ _ Hx2) as [Hlo2 Hhi2]. split; lra.
  - apply Qle_bool_false in Hclamp.
    assert (0 / p == 0) as Hx2 by (field; lra).
    pose proof (round2_bounds _ _ Hx2) as [Hlo2 Hhi2].
    assert (box1 - q / p < 0) as Hneg.
    { assert (box1 - q / p == (box1 * p - q) / p) as -> by (field; lra).
      apply Qlt_shift_div_r; lra. }
    split; lra.
Qed.

(** C5 at its failing input.  An item holds 1.5 boxes of 10 packets.
    Receiving 7 units stores 2.2 boxes.  Editing that receipt reverses the
    7 units through the loop of PUT /receipts/:id, which stores 1 box and
    overwrites the packets per box by the remainder 5: the box quantity is
    0.5 away from the 1.5 it started from. *)
Theorem C5_put_reversal_truncates :
  let start := Detail (3 # 2) 10 in
  let received := updateInventoryFromGRN false 7 0 start in
  let reversed := reverse_old_line 7 received in
  box_quantity received == 22 # 10 /\
  box_quantity reversed == 1 /\
  packet_quantity reversed == 5 /\
  ~ Qabs (box_quantity reversed - box_quantity start) <= 1 # 100.
Proof.
  cbv zeta. split; [reflexivity|]. split; [reflexivity|]. split; [reflexivity|].
  vm_compute. intros H. apply H. reflexivity.
Qed.

End InventoryFacts.

(** ** Purchase-order status rollup *)

Module RollupFacts.
Import Rollup.

Lemma sum_app (l1 l2 : list Z) : sum (l1 ++ l2) = sum l1 + sum l2.
Proof. induction l1 as [|x l1 IH]; simpl; lia. Qed.

(** The rollup touches no header but the one it is given, and leaves a
    CANCELLED one alone. *)
Lemma rollup_other_headers d headerId k :
  k <> headerId ->
  po_headers (updatePOStatusFromReceipts d headerId) !! k = po_headers d !! k.
Proof.
  intros Hk. unfold updatePOStatusFromReceipts.
  destruct (rollup_status _ _ _); simpl; [|done]. by rewrite lookup_alter_ne.
Qed.

Lemma rollup_keeps_cancelled d headerId :
  po_headers d !! headerId = Some "CANCELLED" ->
  po_headers (updatePOStatusFromReceipts d headerId) !! headerId = Some "CANCELLED".
Proof.
  intros Hc. unfold updatePOStatusFromReceipts.
  destruct (rollup_status _ _ _); simpl; [|done].
  by rewrite lookup_alter_eq, Hc.
Qed.

(** The decision the rollup takes on the three sums it computed. *)
Lemma rollup_decision d headerId old :
  po_headers d !! headerId = Some old -> old <> "CANCELLED" ->
  let rows := joined_rows d headerId in
  po_headers (updatePOStatusFromReceipts d headerId) !! headerId =
  Some (if total_quantity rows <=? 0 then old
        else if total_quantity rows <=? total_accepted rows then "CLOSED"
        else if 0 <? total_received rows then "RECEIVED"
        else old).
Proof.
  intros Hold Hnc. cbv zeta. unfold updatePOStatusFromReceipts, rollup_status.
  destruct (_ <=? 0); [done|].
  destruct (total_quantity _ <=? total_accepted _); simpl.
  - rewrite lookup_alter_eq, Hold. simpl. unfold set_status_unless_cancelled.
    destruct (String.eqb_spec old "CANCELLED"); done.
  - destruct (0 <? _); simpl; [|done].
    rewrite lookup_alter_eq, Hold. simpl. unfold set_status_unless_cancelled.
    destruct (String.eqb_spec old "CANCELLED"); done.
Qed.

(** The join repeats an order line once for each of its receipt lines, so
    [SUM(pl.quantity)] counts the line's quantity that many times. *)
Lemma total_quantity_join_line receipts pl :
  total_quantity (join_line receipts pl) =
  quantity pl *
  Z.of_nat (Nat.max 1 (length (filter (fun r => prl_line_id r = Some (line_id pl)) receipts))).
Proof.
  unfold join_line, total_quantity.
  assert (forall l : list po_receipt_line,
            sum (map (fun r0 : joined_row => r0.1.1)
                   (map (fun r0 => (quantity pl, quantity_accepted r0, quantity_received r0)) l))
            = quantity pl * Z.of_nat (length l)) as Hsum.
  { induction l as [|x l IH].
    - cbn. lia.
    - cbn [map sum fold_right length fst]. unfold sum in IH. rewrite IH. lia. }
  destruct (filter _ receipts) as [|r rs].
  - cbn. lia.
  - rewrite Hsum. reflexivity.
Qed.

(** When no order line of the order has more than one receipt line, the
    sum is the ordered quantity. *)
Lemma total_quantity_single_receipts d headerId :
  Forall (fun pl =>
            (length (filter (fun r => prl_line_id r = Some (line_id pl))
                            (po_receipt_lines d)) <= 1)%nat)
         (filter (fun pl => header_id pl = headerId) (po_lines d)) ->
  total_quantity (joined_rows d headerId) = ordered_quantity d headerId.
Proof.
  unfold joined_rows, ordered_quantity.
  generalize (filter (fun pl => header_id pl = headerId) (po_lines d)) as lines.
  induction lines as [|pl lines IH]; intros Hall; [reflexivity|].
  apply Forall_cons in Hall as [Hpl Hall]. specialize (IH Hall).
  change (flat_map (join_line (po_receipt_lines d)) (pl :: lines))
    with (join_line (po_receipt_lines d) pl ++ flat_map (join_line (po_receipt_lines d)) lines).
  unfold total_quantity in *. rewrite map_app, sum_app.
  change (sum (map quantity (pl :: lines))) with (quantity pl + sum (map quantity lines)).
  f_equal; [|exact IH].
  pose proof (total_quantity_join_line (po_receipt_lines d) pl) as Hj.
  unfold total_quantity in Hj. etransitivity; [exact Hj|].
  replace (Nat.max 1 _) with 1%nat by lia. lia.
Qed.

(** C4 at its failing input.  After the first receipt (7 of 10 accepted)
    the order is RECEIVED.  After the second (the remaining 3) the join
    yields two rows for the one order line: the rollup sums 20 ordered
    against 10 accepted, and the order stays RECEIVED where all 10 ordered
    units have been accepted. *)
Theorem C4_second_receipt_not_closed :
  po_headers after_first_receipt !! 1 = Some "RECEIVED" /\
  ordered_quantity after_second_receipt 1 = 10 /\
  total_quantity (joined_rows after_second_receipt 1) = 20 /\
  total_accepted (joined_rows after_second_receipt 1) = 10 /\
  po_headers after_second_receipt !! 1 = Some "RECEIVED".
Proof. repeat split; vm_compute; reflexivity. Qed.

End RollupFacts.

(** ** Sequence allocation *)

Module SequenceFacts.
Import Sequence.

(** One caller after another: each call hands out the counter and leaves it
    one higher, so the next call hands out a greater value. *)
Lemma getNextSequenceValue_twice tables name v tables1 :
  getNextSequenceValue tables name = Ok (v, tables1) ->
  exists tables2, getNextSequenceValue tables1 name = Ok (v + 1, tables2).
Proof.
  unfold getNextSequenceValue.
  destruct (startsWith name "AP_").
  - destruct (ap_sequences tables !! name) as [cur|]; [|discriminate].
    intros [= <- <-]. simpl. rewrite lookup_insert_eq. eauto.
  - destruct (ar_sequences tables !! name) as [cur|]; [|discriminate].
    intros [= <- <-]. simpl. rewrite lookup_insert_eq. eauto.
Qed.

Lemma lock_free_for_spec t w :
  lock_free_for t w = true <-> lock w = None \/ lock w = Some t.
Proof.
  unfold lock_free_for. destruct (lock w) as [t'|].
  - case_bool_decide as Ht'; split; intros H; try discriminate.
    + right. by rewrite Ht'.
    + reflexivity.
    + destruct H as [H|H]; congruence.
  - split; auto.
Qed.

Lemma lookup_updated_session (l : list session) t s t' s' s0 :
  l !! t = Some s0 ->
  <[t := s]> l !! t' = Some s' ->
  (t' = t /\ s' = s) \/ (t' <> t /\ l !! t' = Some s').
Proof.
  intros Ht Hl. destruct (decide (t' = t)) as [->|Hne].
  - left. split; [done|].
    rewrite list_lookup_insert_eq in Hl by (by eapply lookup_lt_Some).
    congruence.
  - right. split; [done|]. by rewrite list_lookup_insert_ne in Hl.
Qed.

Lemma locked_allocations_head k c rest :
  locked_allocations k = c :: rest ->
  (c = Commit /\ rest = [] /\ k = O) \/
  (c = SelectForUpdate /\ exists k', k = S k' /\ rest = UpdateIncr :: locked_allocations k').
Proof.
  destruct k as [|k']; simpl; intros Heq.
  - left. by injection Heq as <- <-.
  - right. injection Heq as <- <-. eauto.
Qed.

Lemma locked_invariant_step w t w' :
  locked_invariant w -> step t w = Some w' -> locked_invariant w'.
Proof.
  intros (Hbelow & Hsorted & Hsessions) Hstep. unfold step in Hstep.
  destruct (sessions w !! t) as [[c r]|] eqn:Ht; [|discriminate].
  pose proof (Hsessions t _ Ht) as Hshape. simpl in Hshape.
  destruct c as [|[| | |] rest]; [discriminate| | | |].
  - (* SELECT .. FOR UPDATE *)
    destruct (lock_free_for t w) eqn:Hfree; [|discriminate].
    injection Hstep as <-. apply lock_free_for_spec in Hfree.
    destruct Hshape as [[k Hk]|[Hk|(k & Hk & _)]]; try discriminate.
    symmetry in Hk.
    apply locked_allocations_head in Hk as [(? & _)|(_ & k' & -> & ->)]; [discriminate|].
    split; [exact Hbelow|]. split; [exact Hsorted|]. simpl.
    intros t' s' Hl.
    eapply lookup_updated_session in Hl as [[-> ->]|[Hne Hl]]; [| |exact Ht].
    + right; right. exists k'. simpl. auto.
    + destruct (Hsessions t' s' Hl) as [?|[?|(k & ? & Hlock & ?)]]; [auto|auto|].
      destruct Hfree; congruence.
  - (* plain SELECT: not a statement of these sessions *)
    destruct Hshape as [[k Hk]|[Hk|(k & Hk & _)]]; try discriminate.
    symmetry in Hk; apply locked_allocations_head in Hk as [(? & _)|(? & _)]; discriminate.
  - (* UPDATE *)
    destruct Hshape as [[k Hk]|[Hk|(k & Hk & Hlock & Hval)]]; try discriminate.
    { symmetry in Hk; apply locked_allocations_head in Hk as [(? & _)|(? & _)]; discriminate. }
    injection Hk as ->. simpl in Hval. subst r.
    assert (lock_free_for t w = true) as Hfree by (apply lock_free_for_spec; auto).
    rewrite Hfree in Hstep. injection Hstep as <-.
    unfold locked_invariant, strictly_increasing in *. simpl.
    split; [|split].
    + constructor; [lia|]. eapply Forall_impl; [exact Hbelow|]. simpl. intros; lia.
    + constructor; [exact Hsorted|exact Hbelow].
    + intros t' s' Hl.
      eapply lookup_updated_session in Hl as [[-> ->]|[Hne Hl]]; [| |exact Ht].
      * left. exists k. reflexivity.
      * destruct (Hsessions t' s' Hl) as [?|[?|(k0 & ? & Hlock' & ?)]]; [auto|auto|].
        congruence.
  - (* COMMIT *)
    injection Hstep as <-.
    destruct Hshape as [[k Hk]|[Hk|(k & Hk & _)]]; try discriminate.
    symmetry in Hk; apply locked_allocations_head in Hk as [(_ & -> & _)|(? & _)]; [|discriminate].
    split; [exact Hbelow|]. split; [exact Hsorted|]. simpl.
    intros t' s' Hl.
    eapply lookup_updated_session in Hl as [[-> ->]|[Hne Hl]]; [| |exact Ht].
    + right; left. reflexivity.
    + destruct (Hsessions t' s' Hl) as [?|[?|(k0 & ? & Hlock' & ?)]]; [auto|auto|].
      right; right. exists k0. split; [done|]. split; [|done].
      unfold lock_free_for. rewrite Hlock'. case_bool_decide; [congruence|done].
Qed.

Lemma locked_invariant_start v programs :
  Forall (fun p => exists k, p = locked_allocations k) programs ->
  locked_invariant (start v programs).
Proof.
  intros Hprogs. split; [constructor|]. split; [constructor|].
  intros t s Hl. unfold start in Hl. simpl in Hl.
  rewrite list_lookup_fmap in Hl.
  destruct (programs !! t) as [p|] eqn:Hp; [|discriminate].
  injection Hl as <-. simpl. left.
  eapply Forall_lookup_1 in Hprogs; eauto.
Qed.

(** Under any interleaving of any number of transactions that allocate
    through [getNextSequenceValue], the values handed out are strictly
    increasing, hence pairwise distinct. *)
Lemma locked_allocations_increase v programs w :
  Forall (fun p => exists k, p = locked_allocations k) programs ->
  reachable (start v programs) w ->
  strictly_increasing (issued w).
Proof.
  intros Hprogs Hreach.
  assert (locked_invariant w) as (_ & Hsorted & _); [|exact Hsorted].
  induction Hreach as [|w t w' _ IH Hstep].
  - by apply locked_invariant_start.
  - eapply locked_invariant_step; eauto.
Qed.

(** C6 at its failing input.  Two requests POST /purchase-orders read
    PO_HEADER_ID_SEQ with a plain SELECT before either of them runs its
    UPDATE: both are handed header id 100. *)
Theorem C6_header_id_issued_twice :
  exists w,
    run reads_before_writes two_po_requests = Some w /\
    issued w = [100; 100] /\
    ~ strictly_increasing (issued w).
Proof.
  eexists. split; [vm_compute; reflexivity|]. split; [reflexivity|].
  intros Hs. inversion Hs as [|? ? _ Hall]; subst.
  inversion Hall as [|? ? Hlt _]; subst. lia.
Qed.

End SequenceFacts.

(** ** Document numbers *)

Module DocNumberFacts.
Import DocNumber.

Lemma repeat_char_length c n : String.length (repeat_char c n) = n.
Proof. induction n as [|n IH]; simpl; [reflexivity|by rewrite IH]. Qed.

Lemma string_app_length (s1 s2 : string) :
  String.length (s1 ++ s2)%string = (String.length s1 + String.length s2)%nat.
Proof. induction s1 as [|c s1 IH]; simpl; [reflexivity|by rewrite IH]. Qed.

(** [padStart] pads to the width and never cuts. *)
Lemma padStart_length s n c :
  String.length (padStart s n c) = Nat.max n (String.length s).
Proof. unfold padStart. rewrite string_app_length, repeat_char_length. lia. Qed.

Lemma advance_lookup documentType configs i :
  advance documentType configs !! i =
  (fun c => if String.eqb (document_type c) documentType
            then DocConfig (document_type c) (prefix c) (suffix c) (next_number c + 1)
                           (number_format c) (is_active c)
            else c) <$> configs !! i.
Proof. unfold advance. apply list_lookup_fmap. Qed.

Lemma active_config_type configs documentType config :
  active_config configs documentType = Some config ->
  document_type config = documentType /\ is_active config = true /\ config ∈ configs.
Proof.
  unfold active_config. intros Hhead.
  assert (config ∈ filter (fun c => active_for documentType c = true) configs) as Hin.
  { destruct (filter _ configs) as [|c l]; [discriminate|].
    injection Hhead as ->. apply list_elem_of_here. }
  apply list_elem_of_filter in Hin as [Hact Hin].
  unfold active_for in Hact. apply andb_true_iff in Hact as [Ht Ha].
  apply String.eqb_eq in Ht. auto.
Qed.

Lemma trim_empty : trim "" = "".
Proof. reflexivity. Qed.

(** C7, as the code has it.  A successful generation, by
    [generateDocumentNumber] or inside POST /purchase-orders, returns the
    prefix, then the decimal digits of [next_number] padded on the left
    with zeros to the length of [number_format], then the suffix, all of
    the first active configuration of the type, and raises by exactly 1 the
    [next_number] of the configurations of that type, leaving the others as
    they were.  When the body of POST /purchase-orders carries a
    [po_number] that is not blank (not empty after trimming white space),
    the order gets that number trimmed and no configuration changes; a
    blank [po_number] counts as none. *)
Theorem C7_document_numbers :
  (forall configs documentType number configs',
     generateDocumentNumber configs documentType = Ok (number, configs') ->
     exists config,
       active_config configs documentType = Some config /\
       number = (prefix config
                 ++ (repeat_char "0" (String.length (number_format config)
                                      - String.length (toString (next_number config)))
                     ++ toString (next_number config))
                 ++ suffix config)%string /\
       forall i c, configs !! i = Some c ->
         exists c', configs' !! i = Some c' /\
           next_number c' = (if String.eqb (document_type c) documentType
                             then next_number c + 1 else next_number c)) /\
  (forall n lines t code t',
     trim n <> "" ->
     create_purchase_order (Some n) lines t = (code, Committed t') ->
     exists headerId,
       PO_HEADER_ID_SEQ t = Some headerId /\
       po_numbers t' !! headerId = Some (trim n) /\
       po_document_numbers t' = po_document_numbers t) /\
  (forall po_number lines t code t',
     trim (default "" po_number) = "" ->
     create_purchase_order po_number lines t = (code, Committed t') ->
     exists headerId config,
       PO_HEADER_ID_SEQ t = Some headerId /\
       active_config (po_document_numbers t) "PURCHASE_ORDER" = Some config /\
       po_numbers t' !! headerId = Some (format_number config) /\
       po_document_numbers t' = advance "PURCHASE_ORDER" (po_document_numbers t)).
Proof.
  split; [|split].
  - intros configs documentType number configs'. unfold generateDocumentNumber.
    destruct (filter _ configs) as [|config rest] eqn:Hf; [discriminate|].
    intros [= <- <-]. exists config.
    split; [unfold active_config; by rewrite Hf|]. split; [reflexivity|].
    intros i c Hc. rewrite advance_lookup, Hc. simpl. eexists. split; [reflexivity|].
    destruct (String.eqb _ _); reflexivity.
  - intros n lines t code t' Hn. unfold create_purchase_order, create_purchase_order_tx.
    destruct (PO_HEADER_ID_SEQ t) as [headerId|]; [|discriminate].
    cbn [require mbind outcome_bind default].
    assert (negb (String.eqb n "") && negb (String.eqb (trim n) "") = true) as ->.
    { apply andb_true_iff. split; apply negb_true_iff, String.eqb_neq; [|done].
      intros ->. by apply Hn. }
    cbn [mbind outcome_bind].
    destruct (negb (lines =? 0)%nat); cbn [guard mbind outcome_bind]; [|discriminate].
    case_bool_decide; cbn [guard mbind outcome_bind]; [|discriminate].
    intros [= <- <-]. exists headerId. simpl. by rewrite lookup_insert_eq.
  - intros po_number lines t code t' Hblank.
    unfold create_purchase_order, create_purchase_order_tx.
    destruct (PO_HEADER_ID_SEQ t) as [headerId|]; [|discriminate].
    cbn [require mbind outcome_bind].
    assert (match po_number with
            | Some n => negb (String.eqb n "") && negb (String.eqb (trim n) "")
            | None => false
            end = false) as ->.
    { destruct po_number as [n|]; [|done]. simpl in Hblank. rewrite Hblank.
      rewrite String.eqb_refl. apply andb_false_r. }
    destruct (filter _ (po_document_numbers t)) as [|config rest] eqn:Hf;
      cbn [mbind outcome_bind]; [discriminate|].
    destruct (negb (lines =? 0)%nat); cbn [guard mbind outcome_bind]; [|discriminate].
    case_bool_decide; cbn [guard mbind outcome_bind]; [|discriminate].
    intros [= <- <-]. exists headerId, config. simpl.
    split; [done|]. split; [unfold active_config; by rewrite Hf|].
    by rewrite lookup_insert_eq.
Qed.

Lemma C7_document_numbers_witness :
  trim " PO-7 " <> "" /\
  exists t' headerId,
    create_purchase_order (Some " PO-7 ") 1 sample_po_tables = (201%nat, Committed t') /\
    PO_HEADER_ID_SEQ sample_po_tables = Some headerId /\
    po_numbers t' !! headerId = Some "PO-7" /\
    po_document_numbers t' = po_document_numbers sample_po_tables.
Proof.
  split; [discriminate|].
  destruct (create_purchase_order (Some " PO-7 ") 1 sample_po_tables) as [code [t'|t'|t0 t']] eqn:Hrun;
    try (vm_compute in Hrun; discriminate).
  destruct (proj1 (proj2 C7_document_numbers) " PO-7 " 1%nat sample_po_tables code t')
    as (headerId & Hseq & Hnum & Hconf); [discriminate | exact Hrun |].
  exists t', headerId.
  split; [vm_compute in Hrun; injection Hrun as <- _; reflexivity|].
  split; [exact Hseq|]. split; [exact Hnum|exact Hconf].
Defined.

(** C7 as stated fails on a [po_number] that is not empty but blank, and on
    one with white space around it: for " " the order gets the generated
    PO-000042 and [next_number] moves from 42 to 43; for " PO-7 " the order
    gets "PO-7", not the number as supplied. *)
Lemma C7_blank_number_is_generated :
  (exists t',
     create_purchase_order (Some " ") 1 sample_po_tables = (201%nat, Committed t') /\
     po_numbers t' !! 100 = Some "PO-000042" /\
     next_number <$> po_document_numbers sample_po_tables = [42] /\
     next_number <$> po_document_numbers t' = [43]) /\
  (exists t',
     create_purchase_order (Some " PO-7 ") 1 sample_po_tables = (201%nat, Committed t') /\
     po_numbers t' !! 100 = Some "PO-7" /\
     "PO-7" <> " PO-7 ").
Proof.
  split; eexists; (split; [vm_compute; reflexivity|]); repeat split; discriminate.
Qed.

End DocNumberFacts.

(** ** Status-only update of a purchase order *)

Module PoStatusFacts.
Import PoStatus.

(** C8 at its failing inputs, which are all of them.  The handler opens its
    connection with [mysql.createConnection(dbConfig)], and procurement.js
    binds neither [mysql] nor [dbConfig]: every request that carries a
    status field is answered 500 from the catch block, with no row changed.
    A valid request setting approval_status to APPROVED stamps nothing. *)
Theorem C8_status_patch_never_updates user now id rq_status rq_approval_status headers :
  patch_status module_scope user now id rq_status rq_approval_status headers =
  (if negb (provided rq_status) && negb (provided rq_approval_status)
   then 400%nat else 500%nat, headers).
Proof.
  unfold patch_status.
  destruct (negb (provided rq_status) && negb (provided rq_approval_status)); reflexivity.
Qed.

Section Bound.

(** What the handler would do in a module that binds both names, given a
    connection that works. *)
Variable scope : list string.
Hypothesis mysql_bound : existsb (String.eqb "mysql") scope = true.
Hypothesis dbConfig_bound : existsb (String.eqb "dbConfig") scope = true.

Lemma patch_status_bound user now id rq_status rq_approval_status headers :
  patch_status scope user now id rq_status rq_approval_status headers =
  if negb (provided rq_status) && negb (provided rq_approval_status)
  then (400%nat, headers)
  else match headers !! id with
       | None => (404%nat, headers)
       | Some _ =>
           if provided rq_status && negb (includes validStatuses (normalize rq_status))
           then (400%nat, headers)
           else if provided rq_approval_status
                   && negb (includes validApprovalStatuses (normalize rq_approval_status))
           then (400%nat, headers)
           else (200%nat,
                 alter (apply_fields rq_status rq_approval_status user now) id headers)
       end.
Proof.
  unfold patch_status, resolve. rewrite mysql_bound, dbConfig_bound. reflexivity.
Qed.

(** A value whose upper-cased, trimmed form is not in the list is answered
    400 with no row changed. *)
Lemma patch_status_rejects_unknown user now id rq_status rq_approval_status headers h :
  headers !! id = Some h ->
  provided rq_status = true ->
  includes validStatuses (normalize rq_status) = false ->
  patch_status scope user now id rq_status rq_approval_status headers = (400%nat, headers).
Proof.
  intros Hh Hp Hinv. rewrite patch_status_bound, Hh, Hp, Hinv. reflexivity.
Qed.

(** Approval alone: APPROVED stamps the approver and the time, the other
    two values clear both. *)
Lemma patch_status_approval user now id rq_approval_status headers h :
  headers !! id = Some h ->
  provided rq_approval_status = true ->
  includes validApprovalStatuses (normalize rq_approval_status) = true ->
  exists headers' h',
    patch_status scope user now id JUndefined rq_approval_status headers = (200%nat, headers') /\
    headers' !! id = Some h' /\
    status h' = status h /\
    approval_status h' = normalize rq_approval_status /\
    (normalize rq_approval_status = "APPROVED" ->
     approved_by h' = user /\ approved_at h' = Some now) /\
    (normalize rq_approval_status <> "APPROVED" ->
     approved_by h' = None /\ approved_at h' = None).
Proof.
  intros Hh Hp Hv. rewrite patch_status_bound, Hh, Hp, Hv. simpl.
  eexists _, _. split; [reflexivity|].
  split; [by rewrite lookup_alter_eq, Hh|].
  unfold apply_fields. simpl. rewrite Hp.
  destruct (String.eqb_spec (normalize rq_approval_status) "APPROVED") as [He|He]; simpl;
    repeat split; try done.
Qed.

End Bound.

(** Values are compared after upper-casing and trimming: ' closed ' is in
    the list. *)
Lemma normalize_closed : normalize (JStr " closed ") = "CLOSED".
Proof. reflexivity. Qed.

End PoStatusFacts.

(** ** Connections *)

Module PoolFacts.
Import Pool.

Lemma times_execute_no_fault n c :
  times n execute (RunState [] c) = (RunState [] c, Ok tt).
Proof.
  induction n as [|n IH]; [reflexivity|].
  cbn [times]. unfold bind at 1. cbn [execute faults]. exact IH.
Qed.

(** POST /agreements gives its connection back exactly once when no
    statement throws (with the transaction it began still open: the
    handler neither commits nor, on this path, rolls back). *)
Lemma post_agreements_no_fault rq :
  exists code tx,
    post_agreements rq (fresh []) = (RunState [] (Connection 1 tx), Ok code).
Proof.
  destruct rq as [[|] [|] [|] n]; unfold post_agreements, try_catch, fresh;
    try (eexists _, _; reflexivity).
  cbn. unfold bind at 1. rewrite times_execute_no_fault. eexists _, _. reflexivity.
Qed.

(** C9 at its failing inputs.  In POST /agreements the INSERT of the header
    throws (third awaited statement): the catch block answers 500 and the
    handler ends with the connection never released and its transaction
    open.  In PUT /receipts/:id the same happens when the UPDATE of the
    receipt throws (third awaited statement), and, with no database fault
    at all, when the body has no [lines] array. *)
Theorem C9_connection_not_released :
  post_agreements (AgreementReq true true true 2) (fresh [false; false; true])
    = (RunState [] (Connection 0 true), Ok 500%nat) /\
  put_receipt (ReceiptReq true (Some 1%nat) false false true true true 1)
              (fresh [false; false; true])
    = (RunState [] (Connection 0 true), Ok 500%nat) /\
  put_receipt (ReceiptReq true None false false true true true 1) (fresh [])
    = (RunState [] (Connection 0 true), Ok 500%nat) /\
  held (RunState [] (Connection 0 true)) = true.
Proof. repeat split. Qed.

(** Whatever the request, a handler whose first statement throws keeps the
    connection. *)
Lemma first_fault_leaks :
  (forall rq, held (post_agreements rq (fresh [true])).1 = true) /\
  (forall rq, held (put_receipt rq (fresh [true])).1 = true).
Proof. split; intros rq; reflexivity. Qed.

End PoolFacts.

(** ** Settlement: further properties *)

Module SettlementExtras.
Import Settlement SettlementOps SettlementFacts.

Lemma filter_all {A} (P : A -> Prop) `{forall x, Decision (P x)} (l : list A) :
  Forall P l -> filter P l = l.
Proof.
  induction 1 as [|x l Hx _ IH]; [reflexivity|].
  rewrite filter_cons_True by done. by rewrite IH.
Qed.

Lemma filter_none {A} (P : A -> Prop) `{forall x, Decision (P x)} (l : list A) :
  Forall (fun x => ~ P x) l -> filter P l = [].
Proof.
  induction 1 as [|x l Hx _ IH]; [reflexivity|].
  by rewrite filter_cons_False.
Qed.

Lemma rows_total_app rows1 rows2 :
  rows_total (rows1 ++ rows2) = rows_total rows1 + rows_total rows2.
Proof.
  unfold rows_total. induction rows1 as [|r rows1 IH]; simpl; [reflexivity|].
  rewrite IH. lia.
Qed.

(** The running total of the application loop is the sum of the rows it
    wrote, and every row holds a positive amount and a non-negative amount
    left due. *)
Lemma loop_totals sem commit parent apps : forall d t d' t',
  for_each (process_application sem commit parent) apps (d, t) = Ok (d', t') ->
  exists rows,
    applications d' = applications d ++ rows /\
    length rows = length apps /\
    t' = t + rows_total rows /\
    Forall (fun r => app_parent r = parent /\ app_status r = "ACTIVE" /\
                     0 < applied_amount r /\ 0 <= unapplied_amount r) rows.
Proof.
  induction apps as [|app apps IH]; intros d t d' t' Hrun.
  - injection Hrun as <- <-. exists []. rewrite app_nil_r.
    split; [done|]. split; [done|]. split; [unfold rows_total; simpl; lia|constructor].
  - cbn [for_each] in Hrun.
    destruct (process_application sem commit parent (d, t) app) as [[d1 t1]| |] eqn:Hstep;
      try discriminate.
    change (for_each (process_application sem commit parent) apps (d1, t1) = Ok (d', t'))
      in Hrun.
    apply process_application_Ok in Hstep
      as (invoiceId & a & inv0 & _ & _ & _ & Ha & _ & _ & -> & ->).
    apply IH in Hrun as (rows & Happs & Hlen & -> & Hall).
    eexists (_ :: rows). split; [rewrite Happs; simpl; by rewrite <- app_assoc|].
    split; [simpl; by rewrite Hlen|].
    split; [unfold rows_total; simpl; unfold rows_total; lia|].
    constructor; [|exact Hall]. simpl. repeat split; try done. lia.
Qed.

(** X1.  A payment that POST / persists carries as [amount_applied] the sum
    of the application rows written for it; each of those rows is ACTIVE,
    belongs to the payment, and holds a positive [applied_amount] and a
    non-negative [unapplied_amount].  After a successful promotion by PUT
    /:id the same holds of all the rows the payment has. *)
Theorem payment_amount_applied_is_sum sem gen :
  (forall rq d code d',
     create_payment sem gen rq d = (code, Committed d') ->
     exists p rows,
       payments d' !! payment_seq d = Some p /\
       applications d' = applications d ++ rows /\
       amount_applied p = rows_total rows /\
       Forall (fun r => app_parent r = payment_seq d /\ app_status r = "ACTIVE" /\
                        0 < applied_amount r /\ 0 <= unapplied_amount r) rows) /\
  (forall id rq d p apps code d',
     payments d !! id = Some p -> pay_status p = "DRAFT" ->
     rq_status rq = JStr "PAID" ->
     rq_applications rq = Some apps -> apps <> [] ->
     update_payment sem id rq d = (code, Committed d') ->
     exists p',
       payments d' !! id = Some p' /\
       amount_applied p' = rows_total (active_applications id d') /\
       Forall (fun r => 0 < applied_amount r /\ 0 <= unapplied_amount r)
              (active_applications id d')).
Proof.
  split.
  - intros rq d code d' Hrun. unfold create_payment in Hrun.
    destruct (negb _); [discriminate|].
    destruct (match given _ with Some _ => _ | None => _ end); [discriminate|].
    destruct (create_payment_tx sem gen rq d) as [[pid d1]| |] eqn:Htx; try discriminate.
    injection Hrun as <- <-.
    apply create_payment_tx_Ok in Htx as (-> & Hfresh & number & amount & Hd').
    destruct Hd' as [[-> _]|(apps & d3 & t & _ & _ & Hloop & ->)]; simpl.
    + rewrite lookup_insert_eq. eexists _, []. rewrite app_nil_r.
      repeat split; constructor.
    + pose proof Hloop as Hspec.
      apply loop_spec in Hspec as (Hpay & _).
      apply loop_totals in Hloop as (rows & Happs & _ & -> & Hall).
      simpl in Hpay, Happs. rewrite lookup_alter_eq, Hpay, lookup_insert_eq. simpl.
      eexists _, rows. split; [reflexivity|]. split; [exact Happs|].
      split; [simpl; lia|exact Hall].
  - intros id rq d p apps code d' Hp Hdraft Hst Happs Hne Hrun.
    unfold update_payment in Hrun.
    rewrite Hp, Hdraft, Hst, Happs in Hrun.
    change (String.eqb "DRAFT" "PAID") with false in Hrun. cbv iota in Hrun.
    destruct (match given _ with Some _ => _ | None => _ end); [discriminate|].
    destruct apps as [|app apps]; [done|].
    cbv zeta in Hrun. simpl truthy in Hrun. simpl strict_eq_str in Hrun.
    change (String.eqb "DRAFT" "DRAFT" && true) with true in Hrun. cbv iota in Hrun.
    destruct (promote_payment_tx sem id rq (app :: apps) d) as [d1| |] eqn:Htx;
      try discriminate.
    injection Hrun as <- <-.
    apply promote_payment_tx_Ok in Htx as (d3 & t & Hloop & ->).
    pose proof Hloop as Hspec.
    apply loop_spec in Hspec as (Hpay & _).
    apply loop_totals in Hloop as (rows & Hrows & _ & -> & Hall).
    simpl in Hpay, Hrows.
    assert (active_applications id (set_amount_applied id (0 + rows_total rows) d3) = rows)
      as Hactive.
    { unfold active_applications. simpl. rewrite Hrows, filter_app.
      rewrite (filter_none _ (filter _ _)).
      - simpl. apply filter_all.
        eapply Forall_impl; [exact Hall|]. simpl. intros r (? & ? & _). auto.
      - apply Forall_forall. intros r Hr [Hpar _].
        apply list_elem_of_filter in Hr as [Hne' _]. done. }
    rewrite Hactive. simpl.
    rewrite lookup_alter_eq, Hpay, lookup_alter_eq, Hp. simpl.
    eexists. split; [reflexivity|]. split; [simpl; lia|].
    eapply Forall_impl; [exact Hall|]. simpl. intros r (_ & _ & ? & ?). auto.
Qed.

Lemma payment_amount_applied_is_sum_witness :
  exists d' p rows,
    create_payment OldRow sample_payment_number draft_of_40 open_invoice_ledger
      = (201%nat, Committed d') /\
    payments d' !! 7 = Some p /\
    applications d' = applications open_invoice_ledger ++ rows /\
    amount_applied p = rows_total rows /\
    rows_total rows = 4000.
Proof.
  destruct (create_payment OldRow sample_payment_number draft_of_40 open_invoice_ledger)
    as [code [d'|d'|d0 d']] eqn:Hrun; try (vm_compute in Hrun; discriminate).
  destruct (proj1 (payment_amount_applied_is_sum OldRow sample_payment_number) _ _ _ _ Hrun)
    as (p & rows & Hp & Hrows & Hsum & _).
  exists d', p, rows.
  split; [vm_compute in Hrun; injection Hrun as <- _; reflexivity|].
  split; [exact Hp|]. split; [exact Hrows|]. split; [exact Hsum|].
  rewrite <- Hsum. vm_compute in Hrun. injection Hrun as _ <-.
  vm_compute in Hp. injection Hp as <-. reflexivity.
Defined.

Lemma update_payment_paid_refused sem id rq d p :
  payments d !! id = Some p -> pay_status p = "PAID" ->
  update_payment sem id rq d = (400%nat, Unchanged d).
Proof. intros Hp Hpaid. unfold update_payment. by rewrite Hp, Hpaid. Qed.





Lemma alter_verified sem a i (m : gmap Z invoice) :
  alter (update_invoice_verified sem a) i m = alter (update_invoice_sql OldRow a) i m.
Proof. apply alter_ext. intros x _. apply update_invoice_verified_spec. Qed.

Lemma process_receipt_application_sem sem sem' increment_by commit receiptId d app :
  process_receipt_application sem increment_by commit receiptId d app =
  process_receipt_application sem' increment_by commit receiptId d app.
Proof.
  unfold process_receipt_application.
  destruct (ra_invoice_id app) as [invoiceId|]; [|reflexivity].
  destruct (num_or _ _) as [a|]; [|reflexivity].
  destruct (invoiceId =? 0); [reflexivity|].
  destruct (invoices d !! invoiceId) as [inv|]; [|reflexivity].
  destruct (a <=? 0); [reflexivity|].
  destruct (currentAmountDue inv <? a); [reflexivity|].
  destruct commit; [|reflexivity].
  cbv zeta. unfold getNextReceiptApplicationId, set_invoices, set_applications. simpl.
  by rewrite (alter_verified sem), (alter_verified sem').
Qed.

Lemma receipt_applications_sem sem sem' increment_by commit receiptId apps : forall d t,
  receipt_applications sem increment_by commit receiptId apps d t =
  receipt_applications sem' increment_by commit receiptId apps d t.
Proof.
  induction apps as [|app apps IH]; intros d t; [reflexivity|].
  cbn [receipt_applications].
  rewrite (process_receipt_application_sem sem sem').
  destruct (process_receipt_application sem' increment_by commit receiptId d app)
    as [d1 [a| |]]; [apply IH|reflexivity|reflexivity].
Qed.

(** X4.  What POST / and POST /:receiptId/apply of receipts.js store does
    not depend on the order in which the server evaluates the SET clauses of
    the invoice UPDATE: the row is read back and the status computed before
    the UPDATE is forced onto it. *)
Theorem receipts_ignore_set_order sem sem' customers increment_by default_status :
  (forall rq d,
     create_receipt sem customers increment_by rq d =
     create_receipt sem' customers increment_by rq d) /\
  (forall receiptId invoice_id applied_amount d,
     apply_receipt sem increment_by default_status receiptId invoice_id applied_amount d =
     apply_receipt sem' increment_by default_status receiptId invoice_id applied_amount d).
Proof.
  split.
  - intros rq d. unfold create_receipt.
    destruct (negb _); [reflexivity|].
    destruct (match given _ with Some _ => _ | None => _ end); [reflexivity|].
    destruct (resolve_customer customers rq); [|reflexivity].
    cbv zeta. destruct (getNextReceiptId increment_by d) as [receiptId d1].
    destruct (payments d1 !! receiptId); [reflexivity|].
    destruct (rr_applications rq) as [[|app apps]|]; try reflexivity.
    by rewrite (receipt_applications_sem sem sem').
  - intros receiptId invoice_id applied_amount d. unfold apply_receipt.
    destruct invoice_id as [invoiceId|]; [|reflexivity].
    destruct (payments d !! receiptId) as [receipt|]; [|reflexivity].
    destruct (invoices d !! invoiceId) as [inv|]; [|reflexivity].
    destruct applied_amount as [a|]; [|reflexivity].
    destruct (_ <? a); [reflexivity|]. destruct (_ <? a); [reflexivity|].
    cbv zeta. unfold getNextReceiptApplicationId, set_invoices. simpl.
    by rewrite (alter_verified sem), (alter_verified sem').
Qed.

Lemma within_totals_alter (f : invoice -> invoice) i d inv :
  within_totals d -> invoices d !! i = Some inv ->
  amount_paid (f inv) <= total_amount (f inv) ->
  within_totals (set_invoices (alter f i) d).
Proof.
  intros Hw Hinv Hf k x Hk. simpl in Hk.
  destruct (decide (k = i)) as [->|Hne].
  - rewrite lookup_alter_eq, Hinv in Hk. injection Hk as <-. exact Hf.
  - rewrite lookup_alter_ne in Hk by done. by eapply Hw.
Qed.

Lemma process_receipt_application_within sem increment_by commit receiptId d app d' r :
  within_totals d ->
  process_receipt_application sem increment_by commit receiptId d app = (d', r) ->
  within_totals d'.
Proof.
  intros Hw. unfold process_receipt_application, getNextReceiptApplicationId.
  destruct (ra_invoice_id app) as [invoiceId|]; [|by intros [= <- _]].
  destruct (num_or _ _) as [a|]; [|by intros [= <- _]].
  destruct (invoiceId =? 0); [by intros [= <- _]|].
  destruct (invoices d !! invoiceId) as [inv|] eqn:Hinv; [|by intros [= <- _]].
  destruct (a <=? 0); [by intros [= <- _]|].
  destruct (Z.ltb_spec (currentAmountDue inv) a) as [|Hdue]; [by intros [= <- _]|].
  intros [= <- _]. destruct commit; [|exact Hw].
  apply (within_totals_alter _ _
           (set_applications _ (Db (invoices d) (payments d) (applications d)
                                   (payment_seq d) (application_seq d + increment_by))) inv);
    [exact Hw | exact Hinv |].
  rewrite update_invoice_verified_spec. unfold currentAmountDue in Hdue. simpl. lia.
Qed.

Lemma receipt_applications_within sem increment_by commit receiptId apps : forall d t d' r,
  within_totals d ->
  receipt_applications sem increment_by commit receiptId apps d t = (d', r) ->
  within_totals d'.
Proof.
  induction apps as [|app apps IH]; intros d t d' r Hw Hrun;
    cbn [receipt_applications] in Hrun.
  - by injection Hrun as <- _.
  - destruct (process_receipt_application sem increment_by commit receiptId d app)
      as [d1 o] eqn:Hstep.
    apply process_receipt_application_within in Hstep; [|exact Hw].
    destruct o as [a| |]; [by eapply IH|by injection Hrun as <- _..].
Qed.

Lemma promote_receipt_application_within increment_by default_status receiptId d app d' r :
  within_totals d ->
  promote_receipt_application increment_by default_status receiptId d app = (d', r) ->
  within_totals d'.
Proof.
  intros Hw. unfold promote_receipt_application, getNextReceiptApplicationId.
  destruct (ra_invoice_id app) as [invoiceId|]; [|by intros [= <- _]].
  destruct (ra_application_amount app) as [a|]; [|by intros [= <- _]].
  destruct (_ || _); [by intros [= <- _]|].
  destruct (invoices d !! invoiceId) as [inv|] eqn:Hinv; [|by intros [= <- _]].
  destruct (Z.ltb_spec (currentAmountDue inv) a) as [|Hdue]; [by intros [= <- _]|].
  intros [= <- _].
  apply (within_totals_alter _ _
           (set_applications _ (Db (invoices d) (payments d) (applications d)
                                   (payment_seq d) (application_seq d + increment_by))) inv);
    [exact Hw | exact Hinv |].
  unfold currentAmountDue in Hdue. simpl. lia.
Qed.

Lemma promote_receipt_applications_within increment_by default_status receiptId apps :
  forall d t d' r,
  within_totals d ->
  promote_receipt_applications increment_by default_status receiptId apps d t = (d', r) ->
  within_totals d'.
Proof.
  induction apps as [|app apps IH]; intros d t d' r Hw Hrun;
    cbn [promote_receipt_applications] in Hrun.
  - by injection Hrun as <- _.
  - destruct (promote_receipt_application increment_by default_status receiptId d app)
      as [d1 o] eqn:Hstep.
    apply promote_receipt_application_within in Hstep; [|exact Hw].
    destruct o as [a| |]; [by eapply IH|by injection Hrun as <- _..].
Qed.

(** X5.  The three routes of receipts.js that apply a receipt to invoices
    (POST /, PUT /:id and POST /:receiptId/apply) never pay an invoice
    beyond its total: if no invoice has [amount_paid] above [total_amount]
    before the request, none has after it, whatever the request and however
    it ends. *)
Theorem receipts_never_overpay sem customers increment_by default_status d :
  within_totals d ->
  (forall rq code e,
     create_receipt sem customers increment_by rq d = (code, e) ->
     within_totals (final e)) /\
  (forall id rq code e,
     update_receipt increment_by default_status id rq d = (code, e) ->
     within_totals (final e)) /\
  (forall receiptId invoice_id applied_amount code e,
     apply_receipt sem increment_by default_status receiptId invoice_id applied_amount d
       = (code, e) ->
     within_totals (final e)).
Proof.
  intros Hw. split; [|split].
  - intros rq code e Hrun. unfold create_receipt in Hrun.
    destruct (negb _); [by injection Hrun as <- <-|].
    destruct (match given _ with Some _ => _ | None => _ end); [by injection Hrun as <- <-|].
    destruct (resolve_customer customers rq); [|by injection Hrun as <- <-].
    unfold getNextReceiptId in Hrun. cbv zeta in Hrun.
    destruct (payments _ !! _); [by injection Hrun as <- <-|].
    destruct (rr_applications rq) as [[|app apps]|]; try by injection Hrun as <- <-.
    destruct (receipt_applications _ _ _ _ _ _ _) as [d3 r] eqn:Hloop.
    apply receipt_applications_within in Hloop; [|exact Hw].
    destruct r as [t| |c [|]]; injection Hrun as <- <-; simpl; done.
  - intros id rq code e Hrun. unfold update_receipt in Hrun.
    destruct (payments d !! id) as [existing|]; [|by injection Hrun as <- <-].
    cbv zeta in Hrun.
    destruct (String.eqb (pay_status existing) "PAID"); [by injection Hrun as <- <-|].
    destruct (match given _ with Some _ => _ | None => _ end); [by injection Hrun as <- <-|].
    destruct (rr_applications rq) as [[|app apps]|]; try by injection Hrun as <- <-.
    destruct (_ && _); [|by injection Hrun as <- <-].
    destruct (promote_receipt_applications _ _ _ _ _ _) as [d3 r] eqn:Hloop.
    apply promote_receipt_applications_within in Hloop; [|exact Hw].
    destruct r as [t| |c b]; injection Hrun as <- <-; simpl; done.
  - intros receiptId invoice_id applied_amount code e Hrun. unfold apply_receipt in Hrun.
    destruct invoice_id as [invoiceId|]; [|by injection Hrun as <- <-].
    destruct (payments d !! receiptId) as [receipt|]; [|by injection Hrun as <- <-].
    destruct (invoices d !! invoiceId) as [inv|] eqn:Hinv; [|by injection Hrun as <- <-].
    destruct applied_amount as [a|]; [|by injection Hrun as <- <-].
    destruct (_ <? a); [by injection Hrun as <- <-|].
    destruct (Z.ltb_spec (currentAmountDue inv) a) as [|Hdue]; [by injection Hrun as <- <-|].
    injection Hrun as <- <-. simpl. intros k x Hk. simpl in Hk.
    destruct (decide (k = invoiceId)) as [->|Hne].
    + rewrite lookup_alter_eq, Hinv in Hk. injection Hk as <-.
      rewrite update_invoice_verified_spec. unfold currentAmountDue in Hdue. simpl. lia.
    + rewrite lookup_alter_ne in Hk by done. by eapply Hw.
Qed.

Lemma receipts_never_overpay_witness :
  within_totals open_invoice_ledger /\
  within_totals
    (final (create_receipt OldRow {[ 9 := "acme" ]} 1
              (ReceiptReq None true (Some 9) None None (Some 20000) (JStr "PAID")
                 (Some [ArAppReq (Some 1) (Some 6000) None;
                        ArAppReq (Some 1) (Some 5000) None])) open_invoice_ledger).2).
Proof.
  assert (within_totals open_invoice_ledger) as Hw.
  { intros i inv Hi. unfold open_invoice_ledger in Hi. simpl in Hi.
    apply lookup_singleton_Some in Hi as [_ <-]. simpl. lia. }
  split; [exact Hw|].
  destruct (create_receipt _ _ _ _ _) as [code e] eqn:Hrun.
  exact (proj1 (receipts_never_overpay OldRow {[ 9 := "acme" ]} 1 "ACTIVE"
                  open_invoice_ledger Hw) _ _ _ Hrun).
Defined.

(** X6.  DELETE /:id of apPayments.js answers 400 and writes nothing while
    the payment has an ACTIVE application.  Otherwise it answers 200 and the
    only change is that the payment, if there is one with that id, gets
    status DRAFT.  A payment that POST / created with applications
    therefore cannot be deleted. *)
Theorem delete_payment_needs_no_active_application sem gen :
  (forall id d,
     active_applications id d <> [] ->
     delete_payment id d = (400%nat, Unchanged d)) /\
  (forall id d,
     active_applications id d = [] ->
     exists d',
       delete_payment id d = (200%nat, Committed d') /\
       invoices d' = invoices d /\ applications d' = applications d /\
       (forall k, k <> id -> payments d' !! k = payments d !! k) /\
       payments d' !! id =
         (fun p => Payment (payment_number p) (payment_amount p) (amount_applied p) "DRAFT")
           <$> payments d !! id) /\
  (forall rq d code d' apps,
     rq_applications rq = Some apps -> apps <> [] ->
     create_payment sem gen rq d = (code, Committed d') ->
     delete_payment (payment_seq d) d' = (400%nat, Unchanged d')).
Proof.
  assert (forall id d, active_applications id d <> [] ->
                       delete_payment id d = (400%nat, Unchanged d)) as Hrefuse.
  { intros id d Hne. unfold delete_payment.
    destruct (active_applications id d); [done|reflexivity]. }
  split; [exact Hrefuse|]. split.
  - intros id d Hnil. unfold delete_payment. rewrite Hnil. simpl.
    eexists. split; [reflexivity|]. simpl. split; [done|]. split; [done|].
    split; [intros k Hk; by rewrite lookup_alter_ne|by rewrite lookup_alter_eq].
  - intros rq d code d' apps Happs Hne Hrun. apply Hrefuse.
    unfold create_payment in Hrun.
    destruct (negb _); [discriminate|].
    destruct (match given _ with Some _ => _ | None => _ end); [discriminate|].
    destruct (create_payment_tx sem gen rq d) as [[pid d1]| |] eqn:Htx; try discriminate.
    injection Hrun as <- <-.
    apply create_payment_tx_Ok in Htx as (-> & Hfresh & number & amount & Hd').
    destruct Hd' as [[_ [Hn|Hn]]|(apps' & d3 & t & Happs' & _ & Hloop & ->)];
      [congruence | congruence |].
    rewrite Happs in Happs'. injection Happs' as <-.
    apply loop_totals in Hloop as (rows & Hrows & Hlen & _ & Hall).
    unfold active_applications. simpl. simpl in Hrows. rewrite Hrows, filter_app.
    destruct rows as [|r rows]; [destruct apps; [done|discriminate]|].
    apply Forall_cons in Hall as [(Hpar & Hact & _) _].
    rewrite (filter_cons_True _ r) by done.
    intros Heq. by apply app_eq_nil in Heq as [_ ?].
Qed.

Lemma delete_payment_needs_no_active_application_witness :
  create_payment OldRow sample_payment_number draft_of_40 open_invoice_ledger
    = (201%nat, Committed ledger_after_draft) /\
  delete_payment (payment_seq open_invoice_ledger) ledger_after_draft
    = (400%nat, Unchanged ledger_after_draft).
Proof.
  assert (create_payment OldRow sample_payment_number draft_of_40 open_invoice_ledger
          = (201%nat, Committed ledger_after_draft)) as Hrun.
  { unfold ledger_after_draft.
    destruct (create_payment OldRow sample_payment_number draft_of_40 open_invoice_ledger)
      as [code [d'|d'|d0 d']] eqn:Hrun; try (vm_compute in Hrun; discriminate).
    simpl. f_equal. vm_compute in Hrun. by injection Hrun as <- _. }
  split; [exact Hrun|].
  eapply (proj2 (proj2 (delete_payment_needs_no_active_application
                          OldRow sample_payment_number)) draft_of_40);
    [reflexivity | discriminate | exact Hrun].
Defined.

(** X7.  POST /check-draft-conflicts reports an invoice against a payment
    exactly while that payment is a draft: after POST / created a DRAFT
    payment applying to invoice [i], the pair is in the answer for [i];
    a payment whose status is not DRAFT (after its promotion, say) is in no
    answer, and the payment named by [exclude_payment_id] is in none
    either. *)
Theorem draft_conflicts_follow_status sem gen :
  (forall rq d code d' apps i a,
     rq_status rq = JStr "DRAFT" -> rq_applications rq = Some apps ->
     AppReq (Some i) (Some a) ∈ apps ->
     create_payment sem gen rq d = (code, Committed d') ->
     (i, payment_seq d) ∈ check_draft_conflicts (Some [i]) None d') /\
  (forall invoice_ids exclude d i id p,
     payments d !! id = Some p -> pay_status p <> "DRAFT" ->
     (i, id) ∉ check_draft_conflicts invoice_ids exclude d) /\
  (forall invoice_ids d i id,
     id <> 0 -> (i, id) ∉ check_draft_conflicts invoice_ids (Some id) d).
Proof.
  split; [|split].
  - intros rq d code d' apps i a Hst Happs Hin Hrun. unfold create_payment in Hrun.
    destruct (negb _); [discriminate|].
    destruct (match given _ with Some _ => _ | None => _ end); [discriminate|].
    destruct (create_payment_tx sem gen rq d) as [[pid d1]| |] eqn:Htx; try discriminate.
    injection Hrun as <- <-.
    apply create_payment_tx_Ok in Htx as (-> & Hfresh & number & amount & Hd').
    rewrite Hst in Hd'.
    change (String.eqb (paymentStatus (JStr "DRAFT")) "PAID") with false in Hd'.
    destruct Hd' as [[_ [Hn|Hn]]|(apps' & d3 & t & Happs' & _ & Hloop & ->)];
      [congruence | rewrite Hn in Happs; injection Happs as <-; by apply elem_of_nil in Hin |].
    rewrite Happs in Happs'. injection Happs' as <-.
    apply loop_spec in Hloop
      as (Hpay & _ & Hframe & _ & _ & rows & Hrows & Hmap & Hall & Hsnap).
    specialize (Hframe eq_refl). simpl in Hpay, Hframe, Hrows, Hsnap.
    assert (exists r, r ∈ rows /\ app_invoice r = i) as (r & Hr & Hri).
    { assert ((Some i, Some a) ∈ map (fun app => (rq_invoice_id app, rq_applied_amount app)) apps)
        as Hin'.
      { apply list_elem_of_fmap. exists (AppReq (Some i) (Some a)). auto. }
      rewrite <- Hmap in Hin'. apply list_elem_of_fmap in Hin' as (r & Heq & Hr).
      exists r. split; [exact Hr|]. by injection Heq. }
    eapply Forall_forall in Hall as [Hpar _]; [|exact Hr].
    apply list_elem_of_lookup_1 in Hr as Hk. destruct Hk as [k Hk].
    apply Hsnap in Hk as (inv & Hinv & _). rewrite Hri in Hinv.
    unfold check_draft_conflicts. apply elem_of_remove_dups.
    apply list_elem_of_fmap. exists r. split; [by rewrite Hri, Hpar|].
    apply list_elem_of_filter. split.
    + unfold in_draft_conflict. simpl.
      rewrite Hpar, lookup_alter_eq, Hpay, lookup_insert_eq. simpl.
      rewrite Hri, Hframe, Hinv. simpl.
      rewrite bool_decide_eq_true_2 by apply list_elem_of_here. reflexivity.
    + simpl. rewrite Hrows. apply elem_of_app. by right.
  - intros invoice_ids exclude d i id p Hp Hst.
    unfold check_draft_conflicts. destruct invoice_ids as [[|i0 ids]|];
      try apply not_elem_of_nil.
    rewrite elem_of_remove_dups. intros Hin.
    apply list_elem_of_fmap in Hin as (r & Heq & Hr).
    apply list_elem_of_filter in Hr as [Hc _]. injection Heq as -> ->.
    unfold in_draft_conflict in Hc. rewrite Hp in Hc.
    destruct (invoices d !! app_invoice r); [|discriminate].
    destruct (String.eqb_spec (pay_status p) "DRAFT"); [done|discriminate].
  - intros invoice_ids d i id Hid.
    unfold check_draft_conflicts. destruct invoice_ids as [[|i0 ids]|];
      try apply not_elem_of_nil.
    rewrite elem_of_remove_dups. intros Hin.
    apply list_elem_of_fmap in Hin as (r & Heq & Hr).
    apply list_elem_of_filter in Hr as [Hc _]. injection Heq as -> ->.
    unfold in_draft_conflict in Hc.
    destruct (payments d !! app_parent r); [|discriminate].
    destruct (invoices d !! app_invoice r); [|discriminate].
    unfold nonzero in Hc. simpl in Hc. apply Z.eqb_neq in Hid. rewrite Hid in Hc.
    rewrite (bool_decide_eq_true_2 (Some (app_parent r) = Some (app_parent r))) in Hc by done.
    simpl in Hc. by rewrite andb_false_r in Hc.
Qed.

Lemma draft_conflicts_follow_status_witness :
  (1, 7) ∈ check_draft_conflicts (Some [1]) None ledger_after_draft /\
  (1, 7) ∉ check_draft_conflicts (Some [1]) None promotion_of_40d.
Proof.
  pose proof (draft_conflicts_follow_status OldRow sample_payment_number)
    as (Hdraft & Hpaid & _).
  split.
  - apply (Hdraft draft_of_40 open_invoice_ledger 201%nat ledger_after_draft
             [AppReq (Some 1) (Some 4000)] 1 4000);
      [reflexivity | reflexivity | apply list_elem_of_here |].
    unfold ledger_after_draft.
    destruct (create_payment OldRow sample_payment_number draft_of_40 open_invoice_ledger)
      as [code [d'|d'|d0 d']] eqn:Hrun; try (vm_compute in Hrun; discriminate).
    simpl. f_equal. vm_compute in Hrun. by injection Hrun as <- _.
  - apply (Hpaid (Some [1]) None promotion_of_40d 1 7
             (Payment (Some "PAY-7") 5000 4000 "PAID"));
      [vm_compute; reflexivity | discriminate].
Defined.

Lemma lookup_list_payments listed apps rows id :
  list_payments listed apps rows !! id
  = (fun row => if listed id && needs_update (calculated_applied id apps) row
                then corrected (calculated_applied id apps) row else row)
      <$> rows !! id.
Proof.
  unfold list_payments. rewrite map_lookup_imap. by destruct (rows !! id).
Qed.

(** X8.  The read repair of GET / (apPayments.js): after the list, the
    stored amount_applied of every listed payment is within 0.01 of the sum
    of its ACTIVE applications, and a row the repair wrote has
    unapplied_amount = payment_amount - amount_applied; payments outside
    the filter are not written; listing again writes nothing. *)
Theorem list_payments_repairs listed apps rows :
  (forall id row', list_payments listed apps rows !! id = Some row' ->
     listed id = true ->
     Z.abs (calculated_applied id apps - row_amount_applied row') <= 1 /\
     (rows !! id <> Some row' ->
      row_unapplied_amount row' = row_payment_amount row' - row_amount_applied row')) /\
  (forall id, listed id = false ->
     list_payments listed apps rows !! id = rows !! id) /\
  list_payments listed apps (list_payments listed apps rows)
  = list_payments listed apps rows.
Proof.
  assert (forall id row,
            needs_update (calculated_applied id apps)
              (corrected (calculated_applied id apps) row) = false) as Hfix.
  { intros. unfold needs_update, corrected. simpl. apply Z.ltb_ge. lia. }
  split; [|split].
  - intros id row' Hrow' Hl. rewrite lookup_list_payments, Hl in Hrow'.
    destruct (rows !! id) as [row|]; [|discriminate]. simpl in Hrow'.
    injection Hrow' as <-.
    destruct (needs_update _ row) eqn:Hn.
    + split; [|reflexivity]. simpl. lia.
    + split; [|congruence]. unfold needs_update in Hn. apply Z.ltb_ge in Hn. exact Hn.
  - intros id Hl. rewrite lookup_list_payments, Hl. simpl. by destruct (rows !! id).
  - apply map_eq. intros id. rewrite !lookup_list_payments.
    destruct (rows !! id) as [row|]; [|reflexivity]. simpl. f_equal.
    destruct (listed id); [|reflexivity]. simpl.
    destruct (needs_update _ row) eqn:Hn; [by rewrite Hfix | by rewrite Hn].
Qed.

Lemma list_payments_repairs_witness :
  list_payments (fun _ => true)
    [Application 1 7 1 4000 6000 "ACTIVE"; Application 2 7 2 500 0 "REVERSED"]
    {[ 7 := PaymentRow 5000 4500 500 ]} !! 7 = Some (PaymentRow 5000 4000 1000) /\
  Z.abs (calculated_applied 7
           [Application 1 7 1 4000 6000 "ACTIVE"; Application 2 7 2 500 0 "REVERSED"]
         - 4000) <= 1.
Proof.
  assert (list_payments (fun _ => true)
            [Application 1 7 1 4000 6000 "ACTIVE"; Application 2 7 2 500 0 "REVERSED"]
            {[ 7 := PaymentRow 5000 4500 500 ]} !! 7 = Some (PaymentRow 5000 4000 1000))
    as Hrow by (vm_compute; reflexivity).
  split; [exact Hrow|].
  exact (proj1 (proj1 (list_payments_repairs _ _ _) 7 (PaymentRow 5000 4000 1000)
                  Hrow eq_refl)).
Defined.

End SettlementExtras.

Module RollupExtras.
Import Rollup RollupOps RollupFacts.

Lemma rollup_tables d headerId :
  po_lines (updatePOStatusFromReceipts d headerId) = po_lines d /\
  po_receipt_lines (updatePOStatusFromReceipts d headerId) = po_receipt_lines d.
Proof.
  unfold updatePOStatusFromReceipts. by destruct (rollup_status _ _ _).
Qed.

Lemma rollup_rows d h k :
  joined_rows (updatePOStatusFromReceipts d h) k = joined_rows d k.
Proof.
  unfold joined_rows. by destruct (rollup_tables d h) as [-> ->].
Qed.

Lemma rollup_after_rollup d h h' :
  updatePOStatusFromReceipts (updatePOStatusFromReceipts d h) h' =
  match rollup_status (total_quantity (joined_rows d h')) (total_accepted (joined_rows d h'))
                      (total_received (joined_rows d h')) with
  | None => updatePOStatusFromReceipts d h
  | Some s =>
      PoDb (alter (set_status_unless_cancelled s) h'
                  (po_headers (updatePOStatusFromReceipts d h)))
           (po_lines d) (po_receipt_lines d)
  end.
Proof.
  unfold updatePOStatusFromReceipts at 1. rewrite rollup_rows.
  by destruct (rollup_tables d h) as [-> ->].
Qed.

Lemma set_status_twice s old :
  set_status_unless_cancelled s (set_status_unless_cancelled s old)
  = set_status_unless_cancelled s old.
Proof.
  unfold set_status_unless_cancelled.
  destruct (String.eqb old "CANCELLED") eqn:Hold; [by rewrite Hold|].
  by destruct (String.eqb s "CANCELLED").
Qed.

(** X9.  The rollup reads only the lines and the receipt lines and writes
    only the status of the one order: running it again changes nothing, and
    the rollups of two orders give the same tables in either order. *)
Theorem rollup_is_idempotent d h :
  po_lines (updatePOStatusFromReceipts d h) = po_lines d /\
  po_receipt_lines (updatePOStatusFromReceipts d h) = po_receipt_lines d /\
  (forall k, k <> h ->
     po_headers (updatePOStatusFromReceipts d h) !! k = po_headers d !! k) /\
  updatePOStatusFromReceipts (updatePOStatusFromReceipts d h) h
  = updatePOStatusFromReceipts d h /\
  (forall h',
     updatePOStatusFromReceipts (updatePOStatusFromReceipts d h) h'
     = updatePOStatusFromReceipts (updatePOStatusFromReceipts d h') h).
Proof.
  destruct (rollup_tables d h) as [Hl Hr].
  split; [exact Hl|]. split; [exact Hr|].
  split; [intros k Hk; by apply rollup_other_headers|].
  split.
  - rewrite rollup_after_rollup. unfold updatePOStatusFromReceipts.
    destruct (rollup_status _ _ _) as [s|]; [|reflexivity].
    simpl. f_equal. rewrite alter_alter_eq. apply alter_ext.
    intros old _. apply set_status_twice.
  - intros h'. destruct (decide (h = h')) as [<-|Hne]; [reflexivity|].
    rewrite !rollup_after_rollup. unfold updatePOStatusFromReceipts.
    destruct (rollup_status (total_quantity (joined_rows d h')) _ _) as [s'|];
      destruct (rollup_status (total_quantity (joined_rows d h)) _ _) as [s|];
      simpl; try reflexivity.
    f_equal. apply alter_alter_ne. congruence.
Qed.

Section Totals.

Variable sel : joined_row -> option Z.
Variable col : po_receipt_line -> option Z.
Hypothesis sel_matched :
  forall q r, sel (q, quantity_accepted r, quantity_received r) = col r.
Hypothesis sel_unmatched : forall q, sel (q, None, None) = None.

Let total (rows : list joined_row) : Z := sum (map (fun row => default 0 (sel row)) rows).
Let over (rs : list po_receipt_line) : Z := sum (map (fun r => default 0 (col r)) rs).

Lemma total_join_line rs pl :
  total (join_line rs pl) = over (filter (fun r => prl_line_id r = Some (line_id pl)) rs).
Proof.
  unfold total, over, join_line.
  destruct (filter _ rs) as [|r l]; [simpl; by rewrite sel_unmatched|].
  rewrite map_map. f_equal. apply map_ext. intros r0. by rewrite sel_matched.
Qed.

Lemma over_split rs pl lines :
  line_id pl ∉ map line_id lines ->
  over (filter (fun r => Exists (fun pl0 => prl_line_id r = Some (line_id pl0)) (pl :: lines)) rs)
  = over (filter (fun r => prl_line_id r = Some (line_id pl)) rs)
    + over (filter (fun r => Exists (fun pl0 => prl_line_id r = Some (line_id pl0)) lines) rs).
Proof.
  intros Hfresh. unfold over. induction rs as [|r rs IH]; [reflexivity|].
  rewrite !filter_cons.
  destruct (decide (prl_line_id r = Some (line_id pl))) as [Heq|Hne].
  - rewrite decide_True by (by apply Exists_cons_hd).
    rewrite decide_False; [simpl; lia|].
    intros Hex. apply Exists_exists in Hex as (pl0 & Hin & Hid).
    apply Hfresh. apply list_elem_of_fmap. exists pl0. split; [congruence|exact Hin].
  - destruct (decide (Exists (fun pl0 => prl_line_id r = Some (line_id pl0)) lines))
      as [Hex|Hnex].
    + rewrite decide_True by (by apply Exists_cons_tl). simpl. lia.
    + rewrite decide_False; [exact IH|].
      intros Hex. apply Exists_cons in Hex as [?|?]; done.
Qed.

Lemma total_flat_map rs lines :
  NoDup (map line_id lines) ->
  total (flat_map (join_line rs) lines)
  = over (filter (fun r => Exists (fun pl => prl_line_id r = Some (line_id pl)) lines) rs).
Proof.
  induction lines as [|pl lines IH]; intros Hnd.
  - simpl. unfold over. rewrite SettlementExtras.filter_none; [reflexivity|].
    apply Forall_forall. intros r _ Hex. by apply Exists_nil in Hex.
  - change (map line_id (pl :: lines)) with (line_id pl :: map line_id lines) in Hnd.
    apply NoDup_cons in Hnd as [Hfresh Hnd].
    change (flat_map (join_line rs) (pl :: lines))
      with (join_line rs pl ++ flat_map (join_line rs) lines).
    rewrite over_split by exact Hfresh.
    rewrite <- IH by exact Hnd. rewrite <- total_join_line.
    unfold total. by rewrite map_app, sum_app.
Qed.

End Totals.

Lemma total_accepted_once d h :
  NoDup (map line_id (lines_of d h)) ->
  total_accepted (joined_rows d h) = accepted_quantity d h.
Proof.
  intros Hnd. unfold total_accepted, joined_rows, accepted_quantity, receipt_lines_of.
  by apply (total_flat_map (fun row => row.1.2) quantity_accepted).
Qed.

Lemma total_received_once d h :
  NoDup (map line_id (lines_of d h)) ->
  total_received (joined_rows d h) = received_quantity d h.
Proof.
  intros Hnd. unfold total_received, joined_rows, received_quantity, receipt_lines_of.
  by apply (total_flat_map (fun row => row.2) quantity_received).
Qed.

(** X10.  While no line of an order has more than one receipt line, the
    rollup does what its comment says: a live order with a positive ordered
    quantity becomes CLOSED when the quantity accepted on its receipts
    reaches the quantity ordered, RECEIVED when that is not so and
    something was received, and keeps its status otherwise. *)
Theorem rollup_closes_fully_accepted_order d h old :
  po_headers d !! h = Some old -> old <> "CANCELLED" ->
  NoDup (map line_id (lines_of d h)) ->
  received_at_most_once d h ->
  0 < ordered_quantity d h ->
  po_headers (updatePOStatusFromReceipts d h) !! h =
  Some (if ordered_quantity d h <=? accepted_quantity d h then "CLOSED"
        else if 0 <? received_quantity d h then "RECEIVED"
        else old).
Proof.
  intros Hh Hold Hnd Honce Hpos.
  rewrite (rollup_decision d h old Hh Hold). cbv zeta.
  rewrite (total_quantity_single_receipts d h Honce).
  rewrite (total_accepted_once d h Hnd), (total_received_once d h Hnd).
  apply Z.leb_gt in Hpos. by rewrite Hpos.
Qed.

Lemma rollup_closes_fully_accepted_order_witness :
  po_headers (post_receipt 1 [GrnLine (Some 11) (Some 10) (Some 10)] order_of_10) !! 1
  = Some "CLOSED".
Proof.
  unfold post_receipt. cbv zeta.
  rewrite (rollup_closes_fully_accepted_order _ 1 "RELEASED");
    [reflexivity | reflexivity | discriminate | | | reflexivity].
  - repeat constructor. apply not_elem_of_nil.
  - repeat constructor.
Defined.

Lemma post_receipt_keeps_cancelled h lines d id :
  po_headers d !! id = Some "CANCELLED" ->
  po_headers (post_receipt h lines d) !! id = Some "CANCELLED".
Proof.
  intros Hc. unfold post_receipt. cbv zeta.
  destruct (decide (id = h)) as [->|Hne].
  - by apply rollup_keeps_cancelled.
  - by rewrite rollup_other_headers.
Qed.

(** X11.  Once DELETE /purchase-orders/:id has cancelled an order, no goods
    receipt brings it back: after any sequence of POST /receipts requests,
    for this order or for others, its status is still CANCELLED. *)
Theorem cancelled_order_stays_cancelled id d d1 posts :
  cancel_purchase_order id d = (200%nat, d1) ->
  po_headers (post_receipts posts d1) !! id = Some "CANCELLED".
Proof.
  intros Hrun. unfold cancel_purchase_order in Hrun.
  destruct (po_headers d !! id); [|discriminate]. injection Hrun as <-.
  assert (forall d0, po_headers d0 !! id = Some "CANCELLED" ->
                     po_headers (post_receipts posts d0) !! id = Some "CANCELLED") as Hall.
  { unfold post_receipts. induction posts as [|post posts IH]; intros d0 Hc; [exact Hc|].
    simpl. apply IH. by apply post_receipt_keeps_cancelled. }
  apply Hall. simpl. apply lookup_insert_eq.
Qed.

Lemma cancelled_order_stays_cancelled_witness :
  po_headers
    (post_receipts [(1, [GrnLine (Some 11) (Some 10) (Some 10)])]
       (cancel_purchase_order 1 order_of_10).2) !! 1
  = Some "CANCELLED".
Proof.
  apply (cancelled_order_stays_cancelled 1 order_of_10). reflexivity.
Defined.

End RollupExtras.

Module InventoryExtras.
Import Inventory InventoryOps InventoryFacts.
Local Open Scope Q_scope.

Lemma round2_nonneg (x : Q) : 0 <= x -> 0 <= round2 x.
Proof.
  intros Hx. unfold round2, Math_round. rewrite div_100.
  assert (0 <= Qfloor (x * 100 + (1 # 2)))%Z as Hfloor.
  { change 0%Z with (Qfloor 0). apply Qfloor_resp_le. lra. }
  assert (0 <= inject_Z (Qfloor (x * 100 + (1 # 2)))) as Hq.
  { change 0 with (inject_Z 0). by rewrite <- Zle_Qle. }
  nra.
Qed.

Lemma Math_max_0 (x : Q) : 0 <= Math_max 0 x /\ (0 <= x -> Math_max 0 x = x).
Proof.
  unfold Math_max. destruct (Qle_bool 0 x) eqn:Hle.
  - apply Qle_bool_iff in Hle. done.
  - apply Qle_bool_false in Hle. split; [lra|]. intros. lra.
Qed.

(** X12.  [updateInventoryFromGRN] on an item whose packets per box [p]
    are positive: a receipt of [q] units leaves [p] alone and stores a box
    quantity within half a hundredth of [b + q / p]; a reversal leaves [p]
    alone and stores a box quantity that is not negative; and a reversal
    after a receipt of the same units returns a non-negative box quantity to
    within 0.01.  Whatever the row held, the packets per box are positive
    after a receipt or a reversal of a positive quantity. *)
Theorem grn_keeps_units (b p q po : Q) :
  0 < q ->
  0 < packet_quantity (updateInventoryFromGRN false q po (Detail b p)) /\
  0 < packet_quantity (updateInventoryFromGRN true q po (Detail b p)) /\
  (0 < p ->
   packet_quantity (updateInventoryFromGRN false q po (Detail b p)) = p /\
   Qabs (box_quantity (updateInventoryFromGRN false q po (Detail b p)) - (b + q / p))
     <= 1 # 200 /\
   packet_quantity (updateInventoryFromGRN true q po (Detail b p)) = p /\
   0 <= box_quantity (updateInventoryFromGRN true q po (Detail b p)) /\
   (0 <= b ->
    forall po',
      Qabs (box_quantity (updateInventoryFromGRN true q po'
                            (updateInventoryFromGRN false q po (Detail b p))) - b)
        <= 1 # 100)).
Proof.
  intros Hq.
  assert (Qle_bool q 0 = false) as Hq0 by (apply Qle_bool_false; lra).
  assert (forall rev, 0 < packet_quantity (updateInventoryFromGRN rev q po (Detail b p)))
    as Hpos.
  { intros rev. unfold updateInventoryFromGRN. rewrite Hq0.
    cbn [box_quantity packet_quantity].
    destruct (Qle_bool p 0) eqn:Hp.
    - destruct (Qle_bool po 0) eqn:Hpo; [reflexivity|]. by apply Qle_bool_false in Hpo.
    - by apply Qle_bool_false in Hp. }
  split; [apply Hpos|]. split; [apply Hpos|]. intros Hp.
  assert (Qle_bool p 0 = false) as Hp0 by (apply Qle_bool_false; lra).
  split; [|split; [|split; [|split]]].
  - unfold updateInventoryFromGRN. rewrite Hq0. cbn [box_quantity packet_quantity].
    by rewrite Hp0.
  - unfold updateInventoryFromGRN. rewrite Hq0. cbn [box_quantity packet_quantity].
    rewrite Hp0.
    assert ((b * p + q) / p == b + q / p) as Hx by (field; lra).
    pose proof (round2_bounds _ _ Hx) as [Hlo Hhi].
    apply Qabs_Qle_condition. split; lra.
  - unfold updateInventoryFromGRN. rewrite Hq0. cbn [box_quantity packet_quantity].
    by rewrite Hp0.
  - unfold updateInventoryFromGRN. rewrite Hq0. cbn [box_quantity packet_quantity].
    rewrite Hp0. apply round2_nonneg.
    destruct (Math_max_0 (b * p - q)) as [Hmax _].
    apply Qle_shift_div_l; lra.
  - intros Hb po'. by apply (grn_reversal_round_trip b p q po po').
Qed.

Lemma grn_keeps_units_witness :
  Qabs (box_quantity (updateInventoryFromGRN false 7 0 (Detail (3 # 2) 10))
        - ((3 # 2) + 7 / 10)) <= 1 # 200 /\
  Qabs (box_quantity (updateInventoryFromGRN true 7 0
                        (updateInventoryFromGRN false 7 0 (Detail (3 # 2) 10)))
        - (3 # 2)) <= 1 # 100.
Proof.
  pose proof (grn_keeps_units (3 # 2) 10 7 0 eq_refl) as (_ & _ & H).
  destruct (H eq_refl) as (_ & Hreceipt & _ & _ & Hround).
  split; [exact Hreceipt|]. apply Hround. discriminate.
Defined.



Lemma lookup_receipt rev lines inv item :
  updateInventoryFromGRN_receipt rev lines inv !! item
  = (fun d => default d (case_when (grn_updates rev lines inv) item)) <$> inv !! item.
Proof.
  unfold updateInventoryFromGRN_receipt. cbv zeta. rewrite map_lookup_imap.
  by destruct (inv !! item).
Qed.

Lemma case_when_grn_updates rev lines inv item d :
  inv !! item = Some d ->
  case_when (grn_updates rev lines inv) item
  = (fun l => updateInventoryFromGRN rev (gi_quantity_accepted l) (gi_po_packet_quantity l) d)
      <$> head (filter (fun l => selected l = true /\ gi_item_code l = Some item) lines).
Proof.
  intros Hd. unfold case_when, grn_updates.
  induction lines as [|l lines IH]; [reflexivity|].
  rewrite !filter_cons.
  destruct (decide (selected l = true)) as [Hsel|Hsel].
  - destruct (gi_item_code l) as [c|] eqn:Hc; [|unfold selected in Hsel; rewrite Hc in Hsel; discriminate].
    cbn [omap list_omap]. rewrite Hc.
    destruct (decide (c = item)) as [->|Hne].
    + rewrite Hd. rewrite filter_cons_True by done.
      rewrite decide_True by done. reflexivity.
    + rewrite decide_False by (intros [_ ?]; congruence).
      destruct (inv !! c); [|exact IH].
      rewrite filter_cons_False by done. exact IH.
  - rewrite decide_False by (by intros [? _]). exact IH.
Qed.

(** X14.  [updateInventoryFromGRN] over a whole receipt.  An item no
    selected line names keeps its stock.  An item that selected lines name
    gets the stock computed from its first such line alone: every line is
    computed from the stock as it was read before the loop, and the batch
    UPDATE takes the first value given for a row, so further lines of the
    receipt for the same item are not added. *)
Theorem grn_counts_first_line_of_item rev lines inv item :
  ((forall l, l ∈ lines -> gi_item_code l = Some item -> selected l = false) ->
   updateInventoryFromGRN_receipt rev lines inv !! item = inv !! item) /\
  (forall before l after,
     lines = before ++ l :: after ->
     (forall l0, l0 ∈ before -> gi_item_code l0 = Some item -> selected l0 = false) ->
     gi_item_code l = Some item -> selected l = true ->
     updateInventoryFromGRN_receipt rev lines inv !! item
     = updateInventoryFromGRN rev (gi_quantity_accepted l) (gi_po_packet_quantity l)
         <$> inv !! item /\
     updateInventoryFromGRN_receipt rev lines inv !! item
     = updateInventoryFromGRN_receipt rev [l] inv !! item).
Proof.
  assert (forall ls,
            (forall l0, l0 ∈ ls -> gi_item_code l0 = Some item -> selected l0 = false) ->
            filter (fun l => selected l = true /\ gi_item_code l = Some item) ls = [])
    as Hnone.
  { intros ls Hls. apply SettlementExtras.filter_none. apply Forall_forall.
    intros l0 Hin [Hsel Hc]. rewrite (Hls l0 Hin Hc) in Hsel. discriminate. }
  assert (forall ls l,
            gi_item_code l = Some item -> selected l = true ->
            forall d, inv !! item = Some d ->
            head (filter (fun l => selected l = true /\ gi_item_code l = Some item) ls)
            = Some l ->
            updateInventoryFromGRN_receipt rev ls inv !! item
            = Some (updateInventoryFromGRN rev (gi_quantity_accepted l)
                      (gi_po_packet_quantity l) d)) as Hfirst.
  { intros ls l Hc Hsel d Hd Hhead.
    rewrite lookup_receipt, Hd. simpl.
    by rewrite (case_when_grn_updates rev ls inv item d Hd), Hhead. }
  split.
  - intros Hls. rewrite lookup_receipt.
    destruct (inv !! item) as [d|] eqn:Hd; [|reflexivity]. simpl.
    by rewrite (case_when_grn_updates rev lines inv item d Hd), (Hnone _ Hls).
  - intros before l after -> Hbefore Hc Hsel.
    destruct (inv !! item) as [d|] eqn:Hd.
    + rewrite (Hfirst (before ++ l :: after) l Hc Hsel d eq_refl).
      * split; [reflexivity|]. symmetry. apply (Hfirst [l] l Hc Hsel d eq_refl).
        rewrite filter_cons_True by done. reflexivity.
      * rewrite filter_app, (Hnone _ Hbefore). simpl.
        rewrite filter_cons_True by done. reflexivity.
    + rewrite !lookup_receipt, Hd. done.
Qed.

Lemma grn_counts_first_line_of_item_witness :
  updateInventoryFromGRN_receipt false
    [GrnItemLine (Some "A1") 7 0; GrnItemLine (Some "A1") 5 0]
    {[ "A1" := Detail (3 # 2) 10 ]} !! "A1"
  = Some (updateInventoryFromGRN false 7 0 (Detail (3 # 2) 10)).
Proof.
  destruct (proj2 (grn_counts_first_line_of_item false
                     [GrnItemLine (Some "A1") 7 0; GrnItemLine (Some "A1") 5 0]
                     {[ "A1" := Detail (3 # 2) 10 ]} "A1")
              [] (GrnItemLine (Some "A1") 7 0) [GrnItemLine (Some "A1") 5 0]
              eq_refl) as [H _];
    [intros l0 Hin; by apply elem_of_nil in Hin | reflexivity | reflexivity |].
  rewrite H. reflexivity.
Defined.

End InventoryExtras.

Module SequenceExtras.
Import Sequence SequenceOps SequenceFacts.

Lemma run_reachable schedule w0 w w' :
  reachable w0 w -> run schedule w = Some w' -> reachable w0 w'.
Proof.
  revert w. induction schedule as [|t schedule IH]; intros w Hreach Hrun.
  - injection Hrun as <-. exact Hreach.
  - simpl in Hrun. destruct (step t w) as [w1|] eqn:Hstep; [|discriminate].
    simpl in Hrun. eapply IH; [|exact Hrun]. eapply reach_step; eauto.
Qed.

(** What one step does to the counter and to the values handed out, for
    sessions that allocate under the row lock. *)
Lemma locked_step_issues w t w' :
  locked_invariant w -> step t w = Some w' ->
  (current_value w' = current_value w /\ issued w' = issued w) \/
  (current_value w' = current_value w + 1 /\ issued w' = current_value w :: issued w).
Proof.
  intros (_ & _ & Hsessions) Hstep. unfold step in Hstep.
  destruct (sessions w !! t) as [[c r]|] eqn:Ht; [|discriminate].
  pose proof (Hsessions t _ Ht) as Hshape. simpl in Hshape.
  destruct c as [|[| | |] rest]; [discriminate| | | |].
  - destruct (lock_free_for t w); [|discriminate]. injection Hstep as <-. by left.
  - injection Hstep as <-. by left.
  - destruct Hshape as [[k Hk]|[Hk|(k & Hk & Hlock & Hval)]]; try discriminate.
    { symmetry in Hk; apply locked_allocations_head in Hk as [(? & _)|(? & _)]; discriminate. }
    simpl in Hval. subst r.
    destruct (lock_free_for t w); [|discriminate]. injection Hstep as <-. by right.
  - injection Hstep as <-. by left.
Qed.

Lemma strictly_increasing_NoDup (l : list Z) : strictly_increasing l -> NoDup l.
Proof.
  induction 1 as [|x l _ IH Hall]; [constructor|].
  apply NoDup_cons. split; [|exact IH].
  intros Hin. eapply Forall_forall in Hall; [|exact Hin]. lia.
Qed.



Lemma counter_after tables name v tables' :
  getNextSequenceValue tables name = Ok (v, tables') ->
  counter tables name = Some v /\
  counter tables' name = Some (v + 1) /\
  (forall other, other <> name -> counter tables' other = counter tables other).
Proof.
  unfold getNextSequenceValue, counter. cbv zeta.
  destruct (startsWith name "AP_") eqn:Hap.
  - destruct (ap_sequences tables !! name) as [c|] eqn:Hc; [|discriminate].
    intros H. injection H as <- <-. simpl.
    split; [reflexivity|]. split; [apply lookup_insert_eq|].
    intros other Hne. destruct (startsWith other "AP_"); [|reflexivity].
    by apply lookup_insert_ne.
  - destruct (ar_sequences tables !! name) as [c|] eqn:Hc; [|discriminate].
    intros H. injection H as <- <-. simpl.
    split; [reflexivity|]. split; [apply lookup_insert_eq|].
    intros other Hne. destruct (startsWith other "AP_"); [reflexivity|].
    by apply lookup_insert_ne.
Qed.

Lemma getNextSequenceValue_found tables name v :
  counter tables name = Some v ->
  exists tables', getNextSequenceValue tables name = Ok (v, tables').
Proof.
  unfold getNextSequenceValue, counter. cbv zeta.
  destruct (startsWith name "AP_"); intros ->; eexists; reflexivity.
Qed.

(** X16.  One caller allocating [k] times on a counter that stands at [v]
    is handed [v, v + 1, .., v + k - 1] and leaves the counter at [v + k];
    no other counter moves.  On a counter that has no row the first
    allocation throws. *)
Theorem allocations_are_consecutive tables name k :
  (forall v, counter tables name = Some v ->
     exists tables',
       allocate k tables name = Ok (consecutive v k, tables') /\
       counter tables' name = Some (v + Z.of_nat k) /\
       (forall other, other <> name -> counter tables' other = counter tables other)) /\
  (counter tables name = None ->
     allocate (S k) tables name = Throw "Sequence not found").
Proof.
  split.
  - revert tables. induction k as [|k IH]; intros tables v Hv.
    + exists tables. split; [reflexivity|]. split; [|done]. rewrite Hv. f_equal. lia.
    + destruct (getNextSequenceValue_found tables name v Hv) as [t1 Hrun].
      destruct (counter_after _ _ _ _ Hrun) as (_ & Hnext & Hframe).
      destruct (IH t1 (v + 1) Hnext) as (t2 & Hrest & Hcount & Hframe2).
      exists t2. split; [|split].
      * cbn [allocate]. rewrite Hrun. cbn [mbind outcome_bind]. rewrite Hrest.
        cbn [mbind outcome_bind]. f_equal. f_equal. unfold consecutive.
        change (seq 0 (S k)) with (0%nat :: seq 1 k). cbn [map]. f_equal; [lia|].
        rewrite <- seq_shift, map_map. apply map_ext. intros i. lia.
      * rewrite Hcount. f_equal. lia.
      * intros other Hne. rewrite Hframe2 by done. by apply Hframe.
  - intros Hnone. cbn [allocate]. unfold getNextSequenceValue, counter in *. cbv zeta.
    destruct (startsWith name "AP_"); by rewrite Hnone.
Qed.

Lemma allocations_are_consecutive_witness :
  exists tables',
    allocate 3 (Sequences ∅ {[ "PO_RECEIPT_LINE_ID_SEQ" := 40 ]}) "PO_RECEIPT_LINE_ID_SEQ"
    = Ok ([40; 41; 42], tables') /\
    counter tables' "PO_RECEIPT_LINE_ID_SEQ" = Some 43.
Proof.
  assert (counter (Sequences ∅ {[ "PO_RECEIPT_LINE_ID_SEQ" := 40 ]})
            "PO_RECEIPT_LINE_ID_SEQ" = Some 40) as Hv by (vm_compute; reflexivity).
  destruct (proj1 (allocations_are_consecutive _ _ 3) 40 Hv)
    as (tables' & Hrun & Hcount & _).
  exists tables'. split; [exact Hrun | exact Hcount].
Defined.

End SequenceExtras.

Module PoolExtras.
Import Pool PoolOps PoolFacts.

Create HintDb pool.

Lemma quiet_ret {A} (a : A) : quiet (ret a).
Proof. intros s s' r H. injection H as <- <-. done. Qed.

Lemma quiet_throw {A} e : quiet (@throw A e).
Proof. intros s s' r H. injection H as <- <-. done. Qed.

Lemma quiet_execute : quiet execute.
Proof.
  intros s s' r H. unfold execute in H.
  destruct (faults s) as [|[|] rest]; injection H as <- <-; done.
Qed.

Lemma quiet_set_transaction b : quiet (set_transaction b).
Proof. intros s s' r H. injection H as <- <-. done. Qed.

Lemma quiet_bind {A B} (m : M A) (k : A -> M B) :
  quiet m -> (forall a, quiet (k a)) -> quiet (bind m k).
Proof.
  intros Hm Hk s s' r H. unfold bind in H.
  destruct (m s) as [s1 [a|e|c rb]] eqn:Hms; destruct (Hm _ _ _ Hms) as [Hrel Hret].
  - destruct (Hk a _ _ _ H) as [Hrel' Hret']. split; [congruence|exact Hret'].
  - injection H as <- <-. done.
  - by destruct (Hret c rb).
Qed.

Lemma quiet_try_catch {A} (body handler : M A) :
  quiet body -> quiet handler -> quiet (try_catch body handler).
Proof.
  intros Hb Hh s s' r H. unfold try_catch in H.
  destruct (body s) as [s1 [a|e|c rb]] eqn:Hbs; destruct (Hb _ _ _ Hbs) as [Hrel Hret].
  - injection H as <- <-. done.
  - destruct (Hh _ _ _ H) as [Hrel' Hret']. split; [congruence|exact Hret'].
  - by destruct (Hret c rb).
Qed.

Lemma quiet_try_catch_with {A} (body : M A) (handler : string -> M A) :
  quiet body -> (forall e, quiet (handler e)) -> quiet (try_catch_with body handler).
Proof.
  intros Hb Hh s s' r H. unfold try_catch_with in H.
  destruct (body s) as [s1 [a|e|c rb]] eqn:Hbs; destruct (Hb _ _ _ Hbs) as [Hrel Hret].
  - injection H as <- <-. done.
  - destruct (Hh e _ _ _ H) as [Hrel' Hret']. split; [congruence|exact Hret'].
  - by destruct (Hret c rb).
Qed.

Lemma quiet_times n (m : M unit) : quiet m -> quiet (times n m).
Proof.
  intros Hm. induction n as [|n IH]; [apply quiet_ret|].
  cbn [times]. apply quiet_bind; [exact Hm|intros _; exact IH].
Qed.

Lemma quiet_if {A} (b : bool) (m1 m2 : M A) :
  quiet m1 -> quiet m2 -> quiet (if b then m1 else m2).
Proof. by destruct b. Qed.

#[local] Hint Resolve quiet_ret quiet_throw quiet_execute quiet_set_transaction
  quiet_bind quiet_try_catch quiet_try_catch_with quiet_times quiet_if : pool.
#[local] Hint Unfold beginTransaction rollback commit swallowed Pool.getNextSequenceValue
  Pool.updatePOStatusFromReceipts Pool.updateInventoryFromGRN logAuditTrail
  generateDocumentNumber : pool.

Ltac quiet := autounfold with pool; auto 30 with pool.

Lemma keeps_open_ret {A} (a : A) : keeps_open (ret a).
Proof. intros s s' r H. by injection H as <- <-. Qed.

Lemma keeps_open_throw {A} e : keeps_open (@throw A e).
Proof. intros s s' r H. by injection H as <- <-. Qed.

Lemma keeps_open_execute : keeps_open execute.
Proof.
  intros s s' r H. unfold execute in H.
  destruct (faults s) as [|[|] rest]; by injection H as <- <-.
Qed.

Lemma keeps_open_release : keeps_open release.
Proof. intros s s' r H. by injection H as <- <-. Qed.

Lemma keeps_open_bind {A B} (m : M A) (k : A -> M B) :
  keeps_open m -> (forall a, keeps_open (k a)) -> keeps_open (bind m k).
Proof.
  intros Hm Hk s s' r H Hopen. unfold bind in H.
  destruct (m s) as [s1 [a|e|c rb]] eqn:Hms; pose proof (Hm _ _ _ Hms Hopen) as Hopen1.
  - exact (Hk a _ _ _ H Hopen1).
  - by injection H as <- <-.
  - by injection H as <- <-.
Qed.

Lemma keeps_open_try_catch {A} (body handler : M A) :
  keeps_open body -> keeps_open handler -> keeps_open (try_catch body handler).
Proof.
  intros Hb Hh s s' r H Hopen. unfold try_catch in H.
  destruct (body s) as [s1 [a|e|c rb]] eqn:Hbs; pose proof (Hb _ _ _ Hbs Hopen) as Hopen1.
  - by injection H as <- <-.
  - exact (Hh _ _ _ H Hopen1).
  - by injection H as <- <-.
Qed.

Lemma keeps_open_times n (m : M unit) : keeps_open m -> keeps_open (times n m).
Proof.
  intros Hm. induction n as [|n IH]; [apply keeps_open_ret|].
  cbn [times]. apply keeps_open_bind; [exact Hm|intros _; exact IH].
Qed.

Lemma keeps_open_if {A} (b : bool) (m1 m2 : M A) :
  keeps_open m1 -> keeps_open m2 -> keeps_open (if b then m1 else m2).
Proof. by destruct b. Qed.

#[local] Hint Resolve keeps_open_ret keeps_open_throw keeps_open_execute keeps_open_release
  keeps_open_bind keeps_open_try_catch keeps_open_times keeps_open_if : pool.

Lemma releases_on_answer_bind {A} (m : M A) (k : A -> M nat) :
  quiet m -> (forall a, releases_on_answer (k a)) -> releases_on_answer (bind m k).
Proof.
  intros Hm Hk s s' r H. unfold bind in H.
  destruct (m s) as [s1 [a|e|c rb]] eqn:Hms; destruct (Hm _ _ _ Hms) as [Hrel Hret].
  - destruct (Hk a _ _ _ H) as [(c & -> & Hc & Hr)|(e & -> & Hr)].
    + left. exists c. split; [done|]. split; [done|]. congruence.
    + right. exists e. split; [done|]. congruence.
  - injection H as <- <-. right. by exists e.
  - by destruct (Hret c rb).
Qed.

Lemma releases_on_answer_release c :
  c <> 500%nat -> releases_on_answer (release ;; ret c).
Proof.
  intros Hc s s' r H. injection H as <- <-. left. by exists c.
Qed.

Lemma releases_on_answer_throw e : releases_on_answer (throw e).
Proof. intros s s' r H. injection H as <- <-. right. by exists e. Qed.

Lemma releases_on_answer_if (b : bool) (m1 m2 : M nat) :
  releases_on_answer m1 -> releases_on_answer m2 ->
  releases_on_answer (if b then m1 else m2).
Proof. by destruct b. Qed.

#[local] Hint Resolve releases_on_answer_bind releases_on_answer_release
  releases_on_answer_throw releases_on_answer_if : pool.

(** A handler whose catch block answers 500 and does nothing else. *)
Lemma catch_answers_500 (body : M nat) fs :
  releases_on_answer body ->
  exists s' code,
    try_catch body (ret 500%nat) (fresh fs) = (s', Ok code) /\
    releases (conn s') = (if (code =? 500)%nat then 0 else 1)%nat.
Proof.
  intros Hbody. unfold try_catch.
  destruct (body (fresh fs)) as [s1 r] eqn:Hrun.
  destruct (Hbody _ _ _ Hrun) as [(c & -> & Hc & Hr)|(e & -> & Hr)].
  - exists s1, c. split; [reflexivity|].
    apply Nat.eqb_neq in Hc. rewrite Hc. exact Hr.
  - exists s1, 500%nat. split; [reflexivity|]. exact Hr.
Qed.

Lemma releases_on_answer_post_agreements rq :
  releases_on_answer
    (beginTransaction ;;
     if negb (supplier_id rq) then rollback ;; release ;; ret 400%nat
     else if negb (agreement_number rq) then rollback ;; release ;; ret 400%nat
     else
       execute ;;
       if negb (supplier_found rq) then rollback ;; release ;; ret 400%nat
       else
         execute ;;
         times (lines rq) execute ;;
         release ;;
         ret 201%nat).
Proof.
  repeat first
    [ apply releases_on_answer_release; discriminate
    | apply releases_on_answer_throw
    | apply releases_on_answer_if
    | apply releases_on_answer_bind; [quiet | intros _] ].
Qed.


Lemma finally_release {A} (body : M A) s :
  quiet body ->
  releases (conn (try_finally body release s).1) = S (releases (conn s)) /\
  releases (conn (try_finally body (swallowed release) s).1) = S (releases (conn s)).
Proof.
  intros Hbody. unfold try_finally, swallowed, try_catch, release.
  destruct (body s) as [s1 r] eqn:Hrun. destruct (Hbody _ _ _ Hrun) as [Hrel _].
  simpl. by rewrite Hrel.
Qed.

(** X18.  The handlers of procurement.js that release in a [finally] block
    (POST /agreements/:agreementId/lines, POST / and PUT /:id of the
    inventory items, POST /purchase-orders) give the connection back exactly
    once, whatever the request, wherever the database fails, and also when
    the rollback of the catch block fails. *)
Theorem finally_releases_exactly_once fs :
  releases (conn (post_agreement_lines (fresh fs)).1) = 1%nat /\
  (forall named, releases (conn (post_inventory_item named (fresh fs)).1) = 1%nat) /\
  (forall rq, releases (conn (put_inventory_item rq (fresh fs)).1) = 1%nat) /\
  (forall rq, releases (conn (post_purchase_orders rq (fresh fs)).1) = 1%nat).
Proof.
  split; [|split; [|split]].
  - apply finally_release. quiet.
  - intros named. apply finally_release. quiet.
  - intros rq. apply finally_release. quiet.
  - intros rq. apply finally_release. quiet.
Qed.

Lemma open_on_bind {A} ok (m : M A) (k : A -> M nat) :
  keeps_open m -> (forall a, open_on ok (k a)) -> open_on ok (bind m k).
Proof.
  intros Hm Hk s s' c Hopen H Hok. unfold bind in H.
  destruct (m s) as [s1 [a|e|c0 rb]] eqn:Hms; [|discriminate|discriminate].
  exact (Hk a _ _ _ (Hm _ _ _ Hms Hopen) H Hok).
Qed.

Lemma open_on_release ok c : open_on ok (release ;; ret c).
Proof. intros s s' c' Hopen H _. by injection H as <- <-. Qed.

Lemma open_on_throw ok e : open_on ok (throw e).
Proof. intros s s' c' _ H. discriminate. Qed.

Lemma open_on_rollback ok c : ok c = false -> open_on ok (rollback ;; release ;; ret c).
Proof.
  intros Hc s s' c' _ H Hok. unfold rollback, bind, execute in H.
  destruct (faults s) as [|[|] rest]; simpl in H; try discriminate;
    injection H as <- <-; congruence.
Qed.

Lemma open_on_if ok (b : bool) (m1 m2 : M nat) :
  open_on ok m1 -> open_on ok m2 -> open_on ok (if b then m1 else m2).
Proof. by destruct b. Qed.

#[local] Hint Resolve open_on_bind open_on_release open_on_throw open_on_if : pool.

(** A handler that begins a transaction and whose catch block does not
    answer with a status accepted by [ok]. *)
Lemma begun_and_open ok (rest handler : M nat) s s' c :
  open_on ok rest ->
  (forall s0 s1 c0, handler s0 = (s1, Ok c0) -> ok c0 = false) ->
  try_catch (beginTransaction ;; rest) handler s = (s', Ok c) -> ok c = true ->
  in_transaction (conn s') = true.
Proof.
  intros Hrest Hhandler H Hok. unfold try_catch in H.
  destruct ((beginTransaction ;; rest) s) as [s1 [c1|e|c1 rb]] eqn:Hbody.
  - injection H as <- <-.
    unfold bind at 1 in Hbody. unfold beginTransaction, bind, execute in Hbody.
    destruct (faults s) as [|[|] fs']; simpl in Hbody; try discriminate;
      refine (Hrest _ _ _ _ Hbody Hok); reflexivity.
  - rewrite (Hhandler _ _ _ H) in Hok. discriminate.
  - discriminate.
Qed.

Lemma answers_500 s0 s1 c0 :
  ret 500%nat s0 = (s1, Ok c0) -> (c0 =? 201)%nat || (c0 =? 200)%nat = false.
Proof. intros H. by injection H as <- <-. Qed.

Lemma rolls_back_and_answers_500 s0 s1 c0 :
  (rollback ;; release ;; ret 500%nat) s0 = (s1, Ok c0) ->
  (c0 =? 201)%nat || (c0 =? 200)%nat = false.
Proof.
  intros H. unfold rollback, bind, execute in H.
  destruct (faults s0) as [|[|] rest]; simpl in H; try discriminate;
    by injection H as <- <-.
Qed.

Ltac open_on :=
  repeat first
    [ apply open_on_release
    | apply open_on_throw
    | apply open_on_rollback; reflexivity
    | apply open_on_if
    | apply open_on_bind; [autounfold with pool; auto 30 with pool | intros _] ].

(** X19.  POST /agreements, PUT /receipts/:id and POST /receipts begin a
    transaction and never commit it: whenever one of them answers 201 or
    200, whatever the request and the faults before, the connection goes
    back to the pool with the transaction still open. *)
Theorem success_leaves_transaction_open fs :
  (forall rq s' code,
     post_agreements rq (fresh fs) = (s', Ok code) ->
     (code =? 201)%nat || (code =? 200)%nat = true ->
     in_transaction (conn s') = true) /\
  (forall rq s' code,
     put_receipt rq (fresh fs) = (s', Ok code) ->
     (code =? 201)%nat || (code =? 200)%nat = true ->
     in_transaction (conn s') = true) /\
  (forall rq s' code,
     post_receipts rq (fresh fs) = (s', Ok code) ->
     (code =? 201)%nat || (code =? 200)%nat = true ->
     in_transaction (conn s') = true).
Proof.
  split; [|split].
  - intros rq s' code Hrun Hok.
    eapply (begun_and_open (fun c => (c =? 201)%nat || (c =? 200)%nat));
      [ | apply answers_500 | exact Hrun | exact Hok ].
    open_on.
  - intros rq s' code Hrun Hok.
    eapply (begun_and_open (fun c => (c =? 201)%nat || (c =? 200)%nat));
      [ | apply answers_500 | exact Hrun | exact Hok ].
    destruct (rq_lines rq); open_on.
  - intros rq s' code Hrun Hok.
    eapply (begun_and_open (fun c => (c =? 201)%nat || (c =? 200)%nat));
      [ | apply rolls_back_and_answers_500 | exact Hrun | exact Hok ].
    destruct (gr_lines rq); open_on.
Qed.

Lemma success_leaves_transaction_open_witness :
  post_agreements (AgreementReq true true true 2) (fresh [])
    = (RunState [] (Connection 1 true), Ok 201%nat) /\
  in_transaction (conn (RunState [] (Connection 1 true))) = true.
Proof.
  split; [reflexivity|].
  apply (proj1 (success_leaves_transaction_open [])
           (AgreementReq true true true 2) _ 201%nat); reflexivity.
Defined.

Lemma counted_bind {A} early (m : M A) (k : A -> M nat) :
  quiet m -> (forall a, counted early (k a)) -> counted early (bind m k).
Proof.
  intros Hm Hk s s' r H. unfold bind in H.
  destruct (m s) as [s1 [a|e|c rb]] eqn:Hms; destruct (Hm _ _ _ Hms) as [Hrel Hret].
  - destruct (Hk a _ _ _ H) as [(c & -> & Hr)|(e & -> & Hr)].
    + left. exists c. split; [done|]. congruence.
    + right. exists e. split; [done|]. congruence.
  - injection H as <- <-. right. by exists e.
  - by destruct (Hret c rb).
Qed.

Lemma counted_release early c : early c = 1%nat -> counted early (release ;; ret c).
Proof. intros Hc s s' r H. injection H as <- <-. left. exists c. by rewrite Hc. Qed.

Lemma counted_ret early c : early c = 0%nat -> counted early (ret c).
Proof. intros Hc s s' r H. injection H as <- <-. left. exists c. by rewrite Hc. Qed.

Lemma counted_if early (b : bool) (m1 m2 : M nat) :
  counted early m1 -> counted early m2 -> counted early (if b then m1 else m2).
Proof. by destruct b. Qed.

(** X28.  PUT /purchase-orders/:id releases its connection in the branches
    that answer 404 and 400 and again in its [finally] block: whatever the
    request and wherever the database fails, the request is answered, and
    the connection has been given back twice when the answer is 404 or 400,
    once when it is 200 or 500. *)
Theorem put_purchase_orders_releases_twice rq fs :
  exists s' code,
    put_purchase_orders rq (fresh fs) = (s', Ok code) /\
    releases (conn s') = (if (code =? 404)%nat || (code =? 400)%nat then 2 else 1)%nat /\
    (code = 404 \/ code = 400 \/ code = 200 \/ code = 500)%nat.
Proof.
  set (early := fun c : nat => if (c =? 404)%nat || (c =? 400)%nat then 1%nat else 0%nat).
  assert (counted early
            (beginTransaction ;;
             execute ;;
             if negb (pp_found rq) then rollback ;; release ;; ret 404%nat
             else if (pp_lines rq =? 0)%nat then rollback ;; release ;; ret 400%nat
             else if negb (pp_amounts_fit rq) then rollback ;; release ;; ret 400%nat
             else
               execute ;;
               execute ;;
               times (pp_lines rq) Pool.getNextSequenceValue ;;
               execute ;;
               logAuditTrail ;;
               commit ;;
               ret 200%nat)) as Hbody.
  { repeat first
      [ apply counted_release; reflexivity
      | apply counted_ret; reflexivity
      | apply counted_if
      | apply counted_bind; [quiet | intros _] ]. }
  unfold put_purchase_orders, try_finally, try_catch.
  match goal with
  | |- context [bind beginTransaction ?k (fresh fs)] =>
      destruct (bind beginTransaction k (fresh fs)) as [s1 r] eqn:Hrun
  end.
  destruct (Hbody _ _ _ Hrun) as [(c & -> & Hr)|(e & -> & Hr)].
  - exists (RunState (faults s1) (Connection (S (releases (conn s1))) (in_transaction (conn s1)))), c.
    split; [reflexivity|]. cbn [conn releases]. rewrite Hr. unfold early, fresh. cbn [conn releases].
    split; [by destruct ((c =? 404)%nat || (c =? 400)%nat)|].
    revert Hrun. clear. intros Hrun. unfold bind at 1 in Hrun.
    destruct (beginTransaction (fresh fs)) as [s0 [[]|e|c0 rb]]; try discriminate.
    unfold bind at 1 in Hrun.
    destruct (execute s0) as [s2 [[]|e|c0 rb]]; try discriminate.
    destruct (negb (pp_found rq)); [|destruct (pp_lines rq =? 0)%nat;
      [|destruct (negb (pp_amounts_fit rq))]].
    + unfold bind at 1 in Hrun. destruct (rollback s2) as [s3 [[]|e|c0 rb]]; try discriminate.
      injection Hrun as _ <-. auto.
    + unfold bind at 1 in Hrun. destruct (rollback s2) as [s3 [[]|e|c0 rb]]; try discriminate.
      injection Hrun as _ <-. auto.
    + unfold bind at 1 in Hrun. destruct (rollback s2) as [s3 [[]|e|c0 rb]]; try discriminate.
      injection Hrun as _ <-. auto.
    + repeat (unfold bind at 1 in Hrun;
              match type of Hrun with
              | context [match ?m ?s with _ => _ end] =>
                  destruct (m s) as [? [[]|?|? ?]]; try discriminate
              end).
      injection Hrun as _ <-. auto.
  - destruct (swallowed rollback s1) as [s2 r2] eqn:Hcatch.
    assert (r2 = Ok tt /\ releases (conn s2) = releases (conn s1)) as [-> Hr2].
    { unfold swallowed, try_catch, rollback, bind, execute in Hcatch.
      destruct (faults s1) as [|[|] rest]; injection Hcatch as <- <-; done. }
    exists (RunState (faults s2) (Connection (S (releases (conn s2))) (in_transaction (conn s2)))),
           500%nat.
    split.
    + unfold bind at 1. rewrite Hcatch. reflexivity.
    + cbn [conn releases]. split; [|auto]. rewrite Hr2, Hr. reflexivity.
Qed.

End PoolExtras.

Module DocNumberExtras.
Import DocNumber DocNumberOps DocNumberFacts.

Lemma value_zeros k (u : Decimal.uint) :
  value (repeat_char "0" k ++ NilEmpty.string_of_uint u) = Some (Z.of_uint u).
Proof.
  unfold value. induction k as [|k IH].
  - change (Z.of_uint <$> NilEmpty.uint_of_string (NilEmpty.string_of_uint u)
            = Some (Z.of_uint u)).
    by rewrite NilEmpty.usu.
  - change (repeat_char "0" (S k) ++ NilEmpty.string_of_uint u)%string
      with (String "0" (repeat_char "0" k ++ NilEmpty.string_of_uint u)).
    cbn [NilEmpty.uint_of_string].
    destruct (NilEmpty.uint_of_string (repeat_char "0" k ++ NilEmpty.string_of_uint u))
      as [d|]; [|discriminate].
    simpl in *. exact IH.
Qed.

(** The digits [format_number] writes denote [next_number]. *)
Lemma value_padStart n w :
  0 <= n -> value (padStart (toString n) w "0") = Some n.
Proof.
  intros Hn. unfold padStart, toString.
  pose proof (DecimalZ.of_to n) as Hof.
  destruct n as [|p|p]; [| |lia].
  - apply (value_zeros _ (Decimal.D0 Decimal.Nil)).
  - simpl Z.to_int in *. simpl Z.of_int in Hof.
    assert (NilZero.string_of_int (Decimal.Pos (Pos.to_uint p))
            = NilEmpty.string_of_uint (Pos.to_uint p)) as ->.
    { simpl. unfold NilZero.string_of_uint.
      destruct (Pos.to_uint p) eqn:Hu; try reflexivity.
      exfalso. revert Hu. apply DecimalPos.Unsigned.to_uint_nonnil. }
    rewrite value_zeros. by rewrite Hof.
Qed.

Lemma string_app_inv_head (p a b : string) : (p ++ a = p ++ b)%string -> a = b.
Proof. induction p as [|c p IH]; simpl; [done|]. intros H. injection H. exact IH. Qed.

Lemma string_app_inv_tail (a b s : string) : (a ++ s = b ++ s)%string -> a = b.
Proof.
  intros H.
  assert (String.length a = String.length b) as Hlen.
  { apply (f_equal String.length) in H. rewrite !string_app_length in H. lia. }
  revert b H Hlen. induction a as [|c a IH]; intros [|c' b] H Hlen; try discriminate.
  - reflexivity.
  - simpl in H. injection H as -> H. f_equal. apply IH; [exact H|]. simpl in Hlen. lia.
Qed.

Lemma filter_advance documentType configs :
  filter (fun c => active_for documentType c = true) (advance documentType configs)
  = advance documentType (filter (fun c => active_for documentType c = true) configs).
Proof.
  unfold advance. induction configs as [|c configs IH]; [reflexivity|].
  cbn [map]. rewrite !filter_cons.
  assert (active_for documentType
            (if String.eqb (document_type c) documentType
             then DocConfig (document_type c) (prefix c) (suffix c) (next_number c + 1)
                            (number_format c) (is_active c)
             else c) = active_for documentType c) as ->.
  { by destruct (String.eqb (document_type c) documentType). }
  destruct (decide (active_for documentType c = true)); [cbn [map]|]; by rewrite IH.
Qed.



Lemma first_unused_spec l i count :
  match first_unused l i count with
  | Some n => i <= n < i + Z.of_nat count /\ (n ∉ l) /\ forall j, i <= j < n -> j ∈ l
  | None => forall j, i <= j < i + Z.of_nat count -> j ∈ l
  end.
Proof.
  revert i. induction count as [|count IH]; intros i.
  - simpl. intros j Hj. lia.
  - cbn [first_unused]. case_bool_decide as Hin.
    + specialize (IH (i + 1)). destruct (first_unused l (i + 1) count) as [n|].
      * destruct IH as (Hrange & Hout & Hleast).
        split; [lia|]. split; [exact Hout|].
        intros j Hj. destruct (decide (j = i)) as [->|]; [exact Hin|]. apply Hleast. lia.
      * intros j Hj. destruct (decide (j = i)) as [->|]; [exact Hin|]. apply IH. lia.
    + split; [lia|]. split; [exact Hin|]. intros j Hj. lia.
Qed.

Lemma le_max (l : list Z) x : x ∈ l -> x <= fold_right Z.max 0 l.
Proof.
  induction l as [|y l IH]; intros Hin; [by apply elem_of_nil in Hin|].
  simpl. apply elem_of_cons in Hin as [->|Hin]; [lia|]. specialize (IH Hin). lia.
Qed.

(** X21.  GET /generate-po-number proposes the least positive number that
    no purchase order and no tracked number of the year carries: the number
    it picks is at least 1, is carried by none, and every smaller positive
    number is carried by one. *)
Theorem next_number_is_least_unused parsed_headers parsed_tracking :
  1 <= nextNumber parsed_headers parsed_tracking /\
  (nextNumber parsed_headers parsed_tracking ∉ parsed_headers) /\
  (nextNumber parsed_headers parsed_tracking ∉ parsed_tracking) /\
  (forall j, 1 <= j < nextNumber parsed_headers parsed_tracking ->
     j ∈ parsed_headers \/ j ∈ parsed_tracking).
Proof.
  unfold nextNumber. cbv zeta.
  set (all := remove_dups (filter (fun num => 0 < num) parsed_headers ++
                           filter (fun num => 0 < num) parsed_tracking)).
  assert (forall j, j ∈ all <-> 0 < j /\ (j ∈ parsed_headers \/ j ∈ parsed_tracking)) as Hall.
  { intros j. unfold all. rewrite elem_of_remove_dups, elem_of_app, !list_elem_of_filter.
    tauto. }
  assert (0 <= fold_right Z.max 0 all) as Hmax.
  { generalize all. intros l. induction l as [|y l IH]; simpl; lia. }
  pose proof (first_unused_spec all 1 (Z.to_nat (fold_right Z.max 0 all + 1))) as Hspec.
  destruct (first_unused all 1 _) as [n|]; simpl.
  - destruct Hspec as (Hrange & Hout & Hleast).
    split; [lia|]. rewrite Hall in Hout.
    split; [intros Hin; apply Hout; split; [lia|by left]|].
    split; [intros Hin; apply Hout; split; [lia|by right]|].
    intros j Hj. by apply Hall, Hleast.
  - exfalso.
    assert (fold_right Z.max 0 all + 1 ∈ all) as Hin by (apply Hspec; lia).
    apply le_max in Hin. lia.
Qed.

End DocNumberExtras.

Module ArInvoiceExtras.
Import Inventory InventoryFacts ArInvoice.

Ltac status_cases row :=
  destruct (String.eqb_spec (row_status row) "DRAFT");
  destruct (String.eqb_spec (row_status row) "CANCELLED");
  destruct (String.eqb_spec (row_status row) "VOID");
  destruct (String.eqb_spec (row_status row) "PAID");
  destruct (Z.leb_spec (default 0 (amount_due row)) 1);
  destruct (Z.ltb_spec 1 (default 0 (amount_due row)));
  try lia; try congruence.

Lemma repaired_status_spec row :
  (row_status row ∈ ["DRAFT"; "CANCELLED"; "VOID"] -> repaired_status row = row_status row) /\
  (row_status row ∉ ["DRAFT"; "CANCELLED"; "VOID"] ->
   (repaired_status row = "PAID" <-> default 0 (amount_due row) <= 1)).
Proof.
  assert (row_status row ∈ ["DRAFT"; "CANCELLED"; "VOID"] <->
          row_status row = "DRAFT" \/ row_status row = "CANCELLED" \/ row_status row = "VOID")
    as Hterm.
  { rewrite !elem_of_cons, elem_of_nil. tauto. }
  rewrite Hterm. unfold repaired_status. cbv zeta.
  status_cases row; cbn [negb andb]; (split; [intros; try reflexivity; tauto|]);
    intros; try tauto; split; intros; try done; try lia; try congruence.
Qed.

Lemma repaired_status_twice row : repaired_status (repair row) = repaired_status row.
Proof.
  unfold repair, repaired_status. cbn [row_status amount_due]. cbv zeta.
  status_cases row; cbn [negb andb]; try reflexivity;
    repeat match goal with
           | H : row_status row = _ |- _ => rewrite H
           end; cbn;
    repeat match goal with
           | |- context [String.eqb (row_status row) ?s] =>
               destruct (String.eqb_spec (row_status row) s); try congruence
           | |- context [?x <=? 1] => destruct (Z.leb_spec x 1); try lia
           | |- context [1 <? ?x] => destruct (Z.ltb_spec 1 x); try lia
           end; cbn; try reflexivity.
Qed.

(** X22.  The read repair of GET / and GET /:id of the invoices: it writes
    nothing but the status; an invoice that is DRAFT, CANCELLED or VOID
    keeps its status; every other invoice has status PAID afterwards exactly
    when its amount due (0 for NULL) is at most 0.01.  Repairing again
    changes nothing, and GET /:id does to its invoice what GET / does to
    each, leaving the others alone. *)
Theorem read_repair_ties_status_to_amount_due rows :
  (forall id row, rows !! id = Some row ->
     exists row', list_invoices rows !! id = Some row' /\
       amount_due row' = amount_due row /\
       row_approval_status row' = row_approval_status row /\
       (row_status row ∈ ["DRAFT"; "CANCELLED"; "VOID"] -> row_status row' = row_status row) /\
       (row_status row ∉ ["DRAFT"; "CANCELLED"; "VOID"] ->
        (row_status row' = "PAID" <-> default 0 (amount_due row) <= 1))) /\
  list_invoices (list_invoices rows) = list_invoices rows /\
  (forall id,
     (get_invoice id rows).2 !! id = list_invoices rows !! id /\
     (forall k, k <> id -> (get_invoice id rows).2 !! k = rows !! k)).
Proof.
  split; [|split].
  - intros id row Hrow. exists (repair row).
    split; [unfold list_invoices; by rewrite lookup_fmap, Hrow|].
    split; [reflexivity|]. split; [reflexivity|].
    exact (repaired_status_spec row).
  - unfold list_invoices. rewrite <- map_fmap_compose. apply map_fmap_ext.
    intros id row _. unfold compose, repair at 1. by rewrite repaired_status_twice.
  - intros id. unfold get_invoice, list_invoices.
    destruct (rows !! id) as [row|] eqn:Hrow; cbn [snd].
    + split; [by rewrite lookup_alter_eq, lookup_fmap|].
      intros k Hk. by rewrite lookup_alter_ne.
    + split; [by rewrite lookup_fmap, Hrow|done].
Qed.

Lemma read_repair_ties_status_to_amount_due_witness :
  row_status <$> list_invoices {[ 1 := InvoiceRow (Some 0) "OPEN" "APPROVED";
                                  2 := InvoiceRow (Some 0) "CANCELLED" "APPROVED" ]} !! 1
  = Some "PAID" /\
  row_status <$> list_invoices {[ 1 := InvoiceRow (Some 0) "OPEN" "APPROVED";
                                  2 := InvoiceRow (Some 0) "CANCELLED" "APPROVED" ]} !! 2
  = Some "CANCELLED".
Proof.
  pose proof (proj1 (read_repair_ties_status_to_amount_due
                       {[ 1 := InvoiceRow (Some 0) "OPEN" "APPROVED";
                          2 := InvoiceRow (Some 0) "CANCELLED" "APPROVED" ]})) as H.
  split.
  - destruct (H 1 (InvoiceRow (Some 0) "OPEN" "APPROVED") ltac:(vm_compute; reflexivity))
      as (row' & -> & _ & _ & _ & Hpaid).
    simpl. f_equal. apply Hpaid; [|simpl; lia].
    simpl. rewrite !elem_of_cons, elem_of_nil. intros [|[|[|]]]; done.
  - destruct (H 2 (InvoiceRow (Some 0) "CANCELLED" "APPROVED")
                ltac:(vm_compute; reflexivity))
      as (row' & -> & _ & _ & Hkeep & _).
    simpl. f_equal. apply Hkeep. simpl. rewrite !elem_of_cons. auto.
Defined.

Local Open Scope Q_scope.

Section PerLine.

Variable f : Q -> detail -> detail.

(** A loop that rewrites, line after line, the stock of the line's item. *)
Lemma line_by_line (lines : list invoice_line) (stock : gmap string detail) (c : string) :
  fold_left
    (fun stock line =>
       match il_item_code line with
       | Some itemCode => alter (f (il_quantity line)) itemCode stock
       | None => stock
       end)
    (filter (fun l => sold l = true) lines) stock !! c
  = fold_left (fun d q => f q d) (quantities_of c lines) <$> stock !! c.
Proof.
  unfold quantities_of. revert stock.
  induction lines as [|l lines IH]; intros stock.
  { rewrite !filter_nil. cbn [map fold_left]. by destruct (stock !! c). }
  rewrite !filter_cons. destruct (decide (sold l = true)) as [Hsold|Hsold].
  - cbn [fold_left]. rewrite IH.
    destruct (il_item_code l) as [code|] eqn:Hcode;
      [|unfold sold in Hsold; rewrite Hcode in Hsold; discriminate].
    destruct (decide (code = c)) as [->|Hne].
    + rewrite decide_True by done. cbn [map fold_left].
      rewrite lookup_alter_eq. by destruct (stock !! c).
    + rewrite decide_False by (intros [_ ?]; congruence).
      by rewrite lookup_alter_ne.
  - rewrite decide_False by (by intros [? _]). apply IH.
Qed.

End PerLine.

Lemma ar_line_update_as_grn isReversal q d :
  ar_line_update isReversal q d = updateInventoryFromGRN (negb isReversal) q 0 d.
Proof.
  unfold ar_line_update, updateInventoryFromGRN.
  destruct (Qle_bool q 0); [reflexivity|]. cbv zeta.
  change (Qle_bool 0 0) with true. cbv iota. by destruct isReversal.
Qed.

(** X23.  [updateInventoryFromARInvoice] counts every line of the invoice:
    the stock of an item afterwards is what its sold lines give one after
    another, each computed from the stock the line before left.  For one
    line it computes what [updateInventoryFromGRN] computes for a line of
    the opposite direction whose order line carries no packets per box. *)
Theorem invoice_lines_all_count isReversal :
  (forall lines stock itemCode,
     updateInventoryFromARInvoice isReversal lines stock !! itemCode
     = fold_left (fun d q => ar_line_update isReversal q d) (quantities_of itemCode lines)
         <$> stock !! itemCode) /\
  (forall q d,
     ar_line_update isReversal q d = updateInventoryFromGRN (negb isReversal) q 0 d).
Proof.
  split.
  - intros lines stock c. apply (line_by_line (ar_line_update isReversal)).
  - intros q d. apply ar_line_update_as_grn.
Qed.

Lemma round2_0 (x : Q) : x == 0 -> round2 x == 0.
Proof.
  intros Hx. unfold round2, Math_round.
  assert (x * 100 + (1 # 2) == 1 # 2) as -> by lra. reflexivity.
Qed.

(** X24.  A sale and its cancellation, on an item with [p > 0] packets per
    box and a non-negative box quantity [b]: the sale of [q] units leaves a
    box quantity that is not negative; when the stock covers the sale, the
    cancellation returns the box quantity to within 0.01 of [b]; when it
    does not, the sale leaves 0 and the cancellation leaves [q / p] (within
    half a hundredth), more than there was. *)
Theorem sale_then_cancellation (b p q : Q) :
  0 < p -> 0 < q -> 0 <= b ->
  packet_quantity (ar_line_update true q (ar_line_update false q (Detail b p))) = p /\
  0 <= box_quantity (ar_line_update false q (Detail b p)) /\
  (q <= b * p ->
   Qabs (box_quantity (ar_line_update true q (ar_line_update false q (Detail b p))) - b)
     <= 1 # 100) /\
  (b * p < q ->
   box_quantity (ar_line_update false q (Detail b p)) == 0 /\
   Qabs (box_quantity (ar_line_update true q (ar_line_update false q (Detail b p)))
         - q / p) <= 1 # 200).
Proof.
  intros Hp Hq Hb. unfold ar_line_update.
  assert (Qle_bool q 0 = false) as -> by (apply Qle_bool_false; lra).
  cbn [box_quantity packet_quantity].
  assert (Qle_bool p 0 = false) as Hp0 by (apply Qle_bool_false; lra).
  rewrite Hp0. cbn [box_quantity packet_quantity]. rewrite Hp0.
  split; [reflexivity|].
  set (box1 := round2 (Math_max 0 (b * p - q) / p)).
  assert (0 <= box1) as Hbox1.
  { apply InventoryExtras.round2_nonneg.
    destruct (InventoryExtras.Math_max_0 (b * p - q)) as [Hmax _].
    apply Qle_shift_div_l; lra. }
  split; [exact Hbox1|]. split.
  - intros Hcover.
    assert (Math_max 0 (b * p - q) / p == b - q / p) as Hx1.
    { destruct (InventoryExtras.Math_max_0 (b * p - q)) as [_ ->]; [field|]; lra. }
    pose proof (round2_bounds _ _ Hx1) as [Hlo1 Hhi1]. fold box1 in Hlo1, Hhi1.
    assert ((box1 * p + q) / p == box1 + q / p) as Hx2 by (field; lra).
    pose proof (round2_bounds _ _ Hx2) as [Hlo2 Hhi2].
    apply Qabs_Qle_condition. split; lra.
  - intros Hshort.
    assert (box1 == 0) as Hzero.
    { apply round2_0. unfold Math_max.
      assert (Qle_bool 0 (b * p - q) = false) as -> by (apply Qle_bool_false; lra).
      field. lra. }
    split; [exact Hzero|].
    assert ((box1 * p + q) / p == q / p) as Hx2 by (rewrite Hzero; field; lra).
    pose proof (round2_bounds _ _ Hx2) as [Hlo2 Hhi2].
    apply Qabs_Qle_condition. split; lra.
Qed.

Lemma sale_then_cancellation_witness :
  Qabs (box_quantity (ar_line_update true 7 (ar_line_update false 7 (Detail (3 # 2) 10)))
        - (3 # 2)) <= 1 # 100 /\
  box_quantity (ar_line_update false 70 (Detail (3 # 2) 10)) == 0.
Proof.
  split.
  - apply (sale_then_cancellation (3 # 2) 10 7); [reflexivity | reflexivity | discriminate |].
    discriminate.
  - apply (sale_then_cancellation (3 # 2) 10 70); [reflexivity | reflexivity | discriminate |].
    reflexivity.
Defined.

(** X25.  PUT /:id of an invoice gives back the old lines and sells the
    new ones, line after line; resubmitting an invoice whose only line for
    an item sells [q] units leaves the item's packets per box alone and its
    box quantity within 0.01 of what it was. *)
Theorem put_invoice_restocks_then_sells old_lines new_lines stock itemCode :
  put_invoice_stock old_lines new_lines stock !! itemCode
  = (fun d => fold_left (fun d q => ar_line_update false q d)
                (quantities_of itemCode new_lines)
                (fold_left (fun d q => reverse_old_invoice_line q d)
                   (quantities_of itemCode old_lines) d))
      <$> stock !! itemCode /\
  (forall b p q,
     0 < p -> 0 <= b -> 0 < q ->
     stock !! itemCode = Some (Detail b p) ->
     quantities_of itemCode old_lines = [q] ->
     quantities_of itemCode new_lines = [q] ->
     exists d',
       put_invoice_stock old_lines new_lines stock !! itemCode = Some d' /\
       packet_quantity d' = p /\
       Qabs (box_quantity d' - b) <= 1 # 100).
Proof.
  assert (put_invoice_stock old_lines new_lines stock !! itemCode
          = (fun d => fold_left (fun d q => ar_line_update false q d)
                        (quantities_of itemCode new_lines)
                        (fold_left (fun d q => reverse_old_invoice_line q d)
                           (quantities_of itemCode old_lines) d))
              <$> stock !! itemCode) as Hput.
  { unfold put_invoice_stock, updateInventoryFromARInvoice. cbv zeta.
    rewrite (line_by_line (ar_line_update false)).
    rewrite (line_by_line reverse_old_invoice_line).
    by destruct (stock !! itemCode). }
  split; [exact Hput|].
  intros b p q Hp Hb Hq Hstock Hold Hnew.
  rewrite Hput, Hstock, Hold, Hnew. cbn [fmap option_fmap option_map fold_left].
  eexists. split; [reflexivity|].
  assert (reverse_old_invoice_line q (Detail b p)
          = updateInventoryFromGRN false q 0 (Detail b p)) as ->.
  { unfold reverse_old_invoice_line, updateInventoryFromGRN.
    assert (Qle_bool q 0 = false) as -> by (apply Qle_bool_false; lra).
    cbn [box_quantity packet_quantity].
    by assert (Qle_bool p 0 = false) as -> by (apply Qle_bool_false; lra). }
  rewrite ar_line_update_as_grn. cbn [negb].
  pose proof (grn_reversal_round_trip b p q 0 0 Hp Hb Hq) as [Hbox Hpacket].
  split; [exact Hpacket | exact Hbox].
Qed.

Lemma put_invoice_restocks_then_sells_witness :
  exists d',
    put_invoice_stock [InvoiceLine (Some "A1") 7] [InvoiceLine (Some "A1") 7]
      {[ "A1" := Detail (3 # 2) 10 ]} !! "A1" = Some d' /\
    packet_quantity d' = 10 /\
    Qabs (box_quantity d' - (3 # 2)) <= 1 # 100.
Proof.
  apply (proj2 (put_invoice_restocks_then_sells
                  [InvoiceLine (Some "A1") 7] [InvoiceLine (Some "A1") 7]
                  {[ "A1" := Detail (3 # 2) 10 ]} "A1") (3 # 2) 10 7);
    try reflexivity; discriminate.
Defined.

Local Close Scope Q_scope.

Lemma valid_status_is_truthy (v : jsval) :
  PoStatus.provided v = true ->
  PoStatus.includes validStatuses (PoStatus.normalize v) = true ->
  truthy v = true.
Proof.
  destruct v as [| |[|]|[|n|n]|s]; done.
Qed.

Lemma includes_spec (l : list string) (s : string) :
  PoStatus.includes l s = true <-> s ∈ l.
Proof.
  unfold PoStatus.includes. induction l as [|x l IH]; simpl.
  - split; [discriminate|]. intros H. by apply elem_of_nil in H.
  - rewrite elem_of_cons, orb_true_iff, IH.
    destruct (String.eqb_spec s x); split; intros [?|?]; auto; discriminate.
Qed.

(** X26.  PATCH /:id/status of an invoice.  Any answer but 200 leaves the
    tables as they were.  With the answer 200 the invoice holds the
    normalised values sent, a status among DRAFT, OPEN, PAID, CANCELLED and
    VOID when one was sent; no other invoice and no line changes; the stock
    is given back exactly when the invoice went from a status other than
    CANCELLED and VOID to one of these two, sold again exactly when it went
    the other way, and is untouched otherwise; and sending the same request
    again changes nothing. *)
Theorem patch_invoice_status_moves_stock_with_cancellation id status approval_status d :
  (forall code d',
     patch_invoice_status id status approval_status d = (code, d') ->
     code <> 200%nat -> d' = d) /\
  (forall d',
     patch_invoice_status id status approval_status d = (200%nat, d') ->
     ar_invoice_lines d' = ar_invoice_lines d /\
     (forall k, k <> id -> ar_invoices d' !! k = ar_invoices d !! k) /\
     (exists old new,
        ar_invoices d !! id = Some old /\ ar_invoices d' !! id = Some new /\
        amount_due new = amount_due old /\
        (PoStatus.provided status = true ->
         row_status new = PoStatus.normalize status /\ row_status new ∈ validStatuses) /\
        (PoStatus.provided status = false -> row_status new = row_status old) /\
        inventory d' =
          (let lines := default [] (ar_invoice_lines d !! id) in
           if cancelled_or_void (row_status new) && negb (cancelled_or_void (row_status old))
           then updateInventoryFromARInvoice true lines (inventory d)
           else if cancelled_or_void (row_status old)
                   && negb (cancelled_or_void (row_status new))
           then updateInventoryFromARInvoice false lines (inventory d)
           else inventory d)) /\
     patch_invoice_status id status approval_status d' = (200%nat, d')).
Proof.
  unfold patch_invoice_status at 1 2.
  destruct (ar_invoices d !! id) as [existing|] eqn:Hrow;
    [|split; [intros code d' H _; by injection H as _ <- | intros d' H; discriminate]].
  destruct (PoStatus.provided status
            && negb (PoStatus.includes validStatuses (PoStatus.normalize status))) eqn:Hs;
    [split; [intros code d' H _; by injection H as _ <- | intros d' H; discriminate]|].
  destruct (PoStatus.provided approval_status
            && negb (PoStatus.includes PoStatus.validApprovalStatuses
                       (PoStatus.normalize approval_status))) eqn:Ha;
    [split; [intros code d' H _; by injection H as _ <- | intros d' H; discriminate]|].
  destruct (negb (PoStatus.provided status) && negb (PoStatus.provided approval_status))
    eqn:Hnone;
    [split; [intros code d' H _; by injection H as _ <- | intros d' H; discriminate]|].
  cbv zeta. split; [intros code d' H Hcode; by injection H as <- _|].
  intros d' H. injection H as <-.
  assert (truthy status = PoStatus.provided status) as Htruthy.
  { destruct (PoStatus.provided status) eqn:Hp.
    - apply valid_status_is_truthy; [exact Hp|].
      simpl in Hs. by apply negb_false_iff in Hs.
    - by destruct status as [| |[|]|n|s]. }
  rewrite Htruthy.
  set (new_status := if PoStatus.provided status then PoStatus.normalize status
                     else row_status existing).
  assert ((if PoStatus.provided status && negb (String.eqb new_status (row_status existing))
           then
             if cancelled_or_void new_status && negb (cancelled_or_void (row_status existing))
             then updateInventoryFromARInvoice true (default [] (ar_invoice_lines d !! id))
                    (inventory d)
             else if cancelled_or_void (row_status existing)
                     && negb (cancelled_or_void new_status)
             then updateInventoryFromARInvoice false (default [] (ar_invoice_lines d !! id))
                    (inventory d)
             else inventory d
           else inventory d)
          = (if cancelled_or_void new_status && negb (cancelled_or_void (row_status existing))
             then updateInventoryFromARInvoice true (default [] (ar_invoice_lines d !! id))
                    (inventory d)
             else if cancelled_or_void (row_status existing)
                     && negb (cancelled_or_void new_status)
             then updateInventoryFromARInvoice false (default [] (ar_invoice_lines d !! id))
                    (inventory d)
             else inventory d)) as Hstock.
  { unfold new_status. destruct (PoStatus.provided status); cbn [andb].
    - destruct (String.eqb_spec (PoStatus.normalize status) (row_status existing)) as [->|];
        [|reflexivity].
      cbn [negb]. by destruct (cancelled_or_void (row_status existing)).
    - by destruct (cancelled_or_void (row_status existing)). }
  rewrite Hstock. cbn [ar_invoices ar_invoice_lines inventory].
  split; [reflexivity|]. split; [intros k Hk; by apply lookup_insert_ne|]. split.
  - eexists existing, _. split; [reflexivity|]. split; [apply lookup_insert_eq|].
    cbn [amount_due row_status]. split; [reflexivity|]. split; [|split].
    + intros Hp. unfold new_status. rewrite Hp. split; [reflexivity|].
      rewrite Hp in Hs. simpl in Hs. apply negb_false_iff in Hs. by apply includes_spec.
    + intros Hp. unfold new_status. by rewrite Hp.
    + reflexivity.
  - unfold patch_invoice_status. cbn [ar_invoices ar_invoice_lines inventory].
    rewrite lookup_insert_eq, Hs, Ha, Hnone. cbv zeta. cbn [row_status amount_due
      row_approval_status]. rewrite Htruthy.
    assert ((if PoStatus.provided status then PoStatus.normalize status else new_status)
            = new_status) as Hsame by (unfold new_status; by destruct (PoStatus.provided status)).
    rewrite Hsame, String.eqb_refl, andb_false_r.
    f_equal. f_equal. rewrite insert_insert_eq.
    by destruct (PoStatus.provided approval_status).
Qed.

Lemma patch_invoice_status_moves_stock_with_cancellation_witness :
  exists d',
    patch_invoice_status 1 (JStr " cancelled") JUndefined
      (ArDb {[ 1 := InvoiceRow (Some 7000) "OPEN" "APPROVED" ]}
            {[ 1 := [InvoiceLine (Some "A1") 7] ]}
            {[ "A1" := Detail (8 # 10) 10 ]}) = (200%nat, d') /\
    patch_invoice_status 1 (JStr " cancelled") JUndefined d' = (200%nat, d').
Proof.
  destruct (patch_invoice_status 1 (JStr " cancelled") JUndefined
              (ArDb {[ 1 := InvoiceRow (Some 7000) "OPEN" "APPROVED" ]}
                    {[ 1 := [InvoiceLine (Some "A1") 7] ]}
                    {[ "A1" := Detail (8 # 10) 10 ]})) as [code d'] eqn:Hrun.
  assert (code = 200%nat) as ->.
  { unfold patch_invoice_status in Hrun. vm_compute in Hrun. by injection Hrun as <- _. }
  exists d'. split; [reflexivity|].
  exact (proj2 (proj2 (proj2 (proj2 (patch_invoice_status_moves_stock_with_cancellation
                                       1 (JStr " cancelled") JUndefined _) d' Hrun)))).
Defined.

End ArInvoiceExtras.


Module InventoryItemsExtras.
Import InventoryItems.

Lemma only_active rows current r :
  filter (fun r => is_active r = true) rows = [current] ->
  r ∈ rows -> is_active r = true -> r = current.
Proof.
  intros Hone Hin Hactive.
  assert (r ∈ filter (fun r => is_active r = true) rows) as Hr
    by (by apply list_elem_of_filter).
  rewrite Hone in Hr. by apply list_elem_of_singleton in Hr.
Qed.



End InventoryItemsExtras.
